(** * The mDNS codec of service_discovery: buildQuery, readName,
      parseRecord and parseDNSMessage

    The repository holds two copies of one DNS/mDNS codec
    (src/nativeMdnsDiscovery.js and src/testing1.js).  The functions
    [readName], [parseRecord] and [parseDNSMessage] are the same text in
    both files and are embedded once; [buildQuery] differs only in the
    module constant it reads and is embedded once, with that constant and
    the two literals of the question tail as arguments.

    Of the message handlers, the helpers of src/testing1.js that are
    functions of a name ([isSmartIPService] and the name that is printed)
    are embedded.  The table [services] that the handlers fill is a
    JavaScript object indexed by names that come from the network: what
    [services[name]] is for a name such as [__proto__] or [constructor]
    depends on [Object.prototype], and the table is not modelled.

    Conventions of the embedding.
    - A JavaScript number that holds an offset, a length or a field value
      is a [Z].
    - A Node [Buffer] is a [list byte].
    - A JavaScript string is represented by the bytes of its UTF-8 form,
      as a [string] (one character per byte).  [Buffer.from(s)] is then
      the identity on the bytes, and [buffer.toString('utf8', ..)] is the
      UTF-8 decoder of Node: it keeps the well-formed sequences and puts
      the replacement character U+FFFD, the bytes EF BF BD, for every
      malformed one.  [s.length] counts UTF-16 code units and is
      [js_length], which differs from the byte count outside ASCII.
    - The engine's limits on memory are not modelled: the array [labels]
      of readName is a list without a bound.
    - A call either returns, throws, or is still running when the fuel of
      the model is used up: [outcome]. *)

From Stdlib Require Import ZArith Lia Bool.
From Stdlib.Strings Require Import Ascii String Byte.
From stdpp Require Import gmap strings list fin_maps pretty.

Local Open Scope Z_scope.

(** ** Outcomes *)

(** The exception that the calls of the codec raise is the [RangeError]
    (ERR_OUT_OF_RANGE) of Node's Buffer accessors.  The errors that the
    engine raises when it runs out of memory, among them the RangeError
    of an array that cannot grow, are not modelled. *)
Inductive error : Type :=
  | RangeError.

Inductive outcome (A : Type) : Type :=
  | Ok (a : A)
  | Throw (e : error)
  | OutOfFuel.

Arguments Ok {A} a.
Arguments Throw {A} e.
Arguments OutOfFuel {A}.

Definition bind {A B : Type} (m : outcome A) (k : A -> outcome B) : outcome B :=
  match m with
  | Ok a => k a
  | Throw e => Throw e
  | OutOfFuel => OutOfFuel
  end.

Notation "'let*' x ':=' m 'in' k" := (bind m (fun x => k))
  (at level 10, x name, m at level 100, k at level 200).

(** ** Node's Buffer *)

Abbreviation Buffer := (list byte).

Definition byte_val (b : byte) : Z := Z.of_N (Byte.to_N b).

Definition byte_of_Z (v : Z) : byte :=
  match Byte.of_N (Z.to_N v) with
  | Some b => b
  | None => "000"%byte
  end.

(** [buffer[i]]: [None] stands for [undefined]. *)
Definition byteAt (buffer : Buffer) (i : Z) : option Z :=
  if i <? 0 then None else byte_val <$> buffer !! Z.to_nat i.

Definition readUInt8 (buffer : Buffer) (offset : Z) : outcome Z :=
  match byteAt buffer offset with
  | Some val => Ok val
  | None => Throw RangeError
  end.

Definition readUInt16BE (buffer : Buffer) (offset : Z) : outcome Z :=
  match byteAt buffer offset, byteAt buffer (offset + 1) with
  | Some first, Some last => Ok (first * 2 ^ 8 + last)
  | _, _ => Throw RangeError
  end.

Definition readUInt32BE (buffer : Buffer) (offset : Z) : outcome Z :=
  match byteAt buffer offset, byteAt buffer (offset + 3) with
  | Some first, Some last =>
      match byteAt buffer (offset + 1), byteAt buffer (offset + 2) with
      | Some b1, Some b2 => Ok (first * 2 ^ 24 + b1 * 2 ^ 16 + b2 * 2 ^ 8 + last)
      | _, _ => Throw RangeError
      end
  | _, _ => Throw RangeError
  end.

(** [buffer.slice(start, end)] for [0 <= start]: both ends are clamped to
    the buffer, nothing is thrown. *)
Definition slice (buffer : Buffer) (start end_ : Z) : Buffer :=
  take (Z.to_nat (end_ - Z.max 0 start)) (drop (Z.to_nat start) buffer).

(** *** The UTF-8 decoder of [buffer.toString]

    Node decodes as the WHATWG Encoding standard does: a byte that cannot
    start or continue a sequence ends the sequence that was being read,
    which is replaced by one U+FFFD, and is then read again as the first
    byte of a sequence; a sequence cut short by the end of the span is
    replaced by one U+FFFD.  The first continuation byte has a narrower
    range after E0, ED, F0 and F4 (no overlong forms, no surrogates,
    nothing above U+10FFFF).  The byte order mark is kept.  The text is
    given by its UTF-8 bytes. *)

(** U+FFFD *)
Definition replacement : list byte := ["239"; "191"; "189"]%byte.

(** The state between two bytes: the bytes of the sequence being read,
    the number of bytes it still needs, and the range of the next one. *)
Record utf8_state : Type := mkUtf8 {
  u_pending : list byte;
  u_needed : nat;
  u_lower : Z;
  u_upper : Z
}.

Definition utf8_initial : utf8_state := mkUtf8 [] 0 0x80 0xBF.

(** A byte read when no sequence is open: what is put out, and the next
    state. *)
Definition utf8_lead (b : byte) : list byte * utf8_state :=
  let v := byte_val b in
  if v <? 0x80 then ([b], utf8_initial)
  else if (0xC2 <=? v) && (v <=? 0xDF) then ([], mkUtf8 [b] 1 0x80 0xBF)
  else if (0xE0 <=? v) && (v <=? 0xEF) then
    ([], mkUtf8 [b] 2 (if v =? 0xE0 then 0xA0 else 0x80)
                      (if v =? 0xED then 0x9F else 0xBF))
  else if (0xF0 <=? v) && (v <=? 0xF4) then
    ([], mkUtf8 [b] 3 (if v =? 0xF0 then 0x90 else 0x80)
                      (if v =? 0xF4 then 0x8F else 0xBF))
  else (replacement, utf8_initial).

Definition utf8_step (st : utf8_state) (b : byte) : list byte * utf8_state :=
  match u_needed st with
  | O => utf8_lead b
  | S k =>
      let v := byte_val b in
      if (u_lower st <=? v) && (v <=? u_upper st) then
        match k with
        | O => (u_pending st ++ [b], utf8_initial)
        | S _ => ([], mkUtf8 (u_pending st ++ [b]) k 0x80 0xBF)
        end
      else
        let (out, st') := utf8_lead b in (replacement ++ out, st')
  end.

Fixpoint utf8_run (st : utf8_state) (l : list byte) : list byte :=
  match l with
  | [] => match u_needed st with O => [] | S _ => replacement end
  | b :: rest => let (out, st') := utf8_step st b in out ++ utf8_run st' rest
  end.

Definition utf8_text (l : list byte) : list byte := utf8_run utf8_initial l.

(** [buffer.toString('utf8', start, end)]: the clamped span, decoded. *)
Definition toString (buffer : Buffer) (start end_ : Z) : string :=
  string_of_list_byte (utf8_text (slice buffer start end_)).

(** [Buffer.alloc(n)]: [n] zero bytes. *)
Definition alloc (n : nat) : Buffer := replicate n "000"%byte.

(** [Buffer.from(str)] *)
Definition Buffer_from (s : string) : Buffer := list_byte_of_string s.

Definition writeUInt8 (value offset : Z) (buf : Buffer) : outcome Buffer :=
  if (0 <=? value) && (value <=? 255) then
    match byteAt buf offset with
    | Some _ => Ok (<[Z.to_nat offset := byte_of_Z value]> buf)
    | None => Throw RangeError
    end
  else Throw RangeError.

Definition writeUInt16BE (value offset : Z) (buf : Buffer) : outcome Buffer :=
  if (0 <=? value) && (value <=? 65535) then
    match byteAt buf offset, byteAt buf (offset + 1) with
    | Some _, Some _ =>
        Ok (<[Z.to_nat (offset + 1) := byte_of_Z (Z.land value 255)]>
              (<[Z.to_nat offset := byte_of_Z (Z.shiftr value 8)]> buf))
    | _, _ => Throw RangeError
    end
  else Throw RangeError.

(** ** JavaScript strings *)

(** The number of UTF-16 code units of the text whose UTF-8 bytes are
    [s]: one per ASCII byte and per lead byte of a two- or three-byte
    sequence, two per lead byte of a four-byte sequence (a surrogate
    pair), none per continuation byte. *)
Definition code_units (c : ascii) : Z :=
  let n := Z.of_N (N_of_ascii c) in
  if n <? 128 then 1 else if n <? 192 then 0 else if n <? 240 then 1 else 2.

Fixpoint js_length (s : string) : Z :=
  match s with
  | EmptyString => 0
  | String c s' => code_units c + js_length s'
  end.

(** [s.split('.')] *)
Fixpoint split_dot (s : string) : list string :=
  match s with
  | EmptyString => [EmptyString]
  | String c s' =>
      if Ascii.eqb c "."%char then EmptyString :: split_dot s'
      else match split_dot s' with
           | part :: parts => String c part :: parts
           | [] => [String c EmptyString]
           end
  end.

(** [parts.join('.')] *)
Definition join_dot (parts : list string) : string := String.concat "." parts.

(** ** buildQuery *)

(** The loop [for (const part of qnameParts)] of buildQuery. *)
Fixpoint qname_loop (qnameParts : list string) (qnameBufferArray : list Buffer)
  : outcome (list Buffer) :=
  match qnameParts with
  | [] => Ok qnameBufferArray
  | part :: rest =>
      if String.eqb part "" then qname_loop rest qnameBufferArray
      else
        let* len := writeUInt8 (js_length part) 0 (alloc 1) in
        qname_loop rest (qnameBufferArray ++ [len; Buffer_from part])
  end.

(** The body of buildQuery, with the module constant it splits
    ([serviceQuery], [fullServiceQuery]) and the literals 12 and 1 of the
    question as arguments. *)
Definition encode_query (serviceQuery : string) (qtype qclass : Z) : outcome Buffer :=
  let header := alloc 12 in
  let* header := writeUInt16BE 0 0 header in
  let* header := writeUInt16BE 0 2 header in
  let* header := writeUInt16BE 1 4 header in
  let* header := writeUInt16BE 0 6 header in
  let* header := writeUInt16BE 0 8 header in
  let* header := writeUInt16BE 0 10 header in
  let qnameParts := split_dot serviceQuery in
  let* qnameBufferArray := qname_loop qnameParts [] in
  let qnameBufferArray := qnameBufferArray ++ [[byte_of_Z 0]] in
  let qnameBuffer := concat qnameBufferArray in
  let question := alloc 4 in
  let* question := writeUInt16BE qtype 0 question in
  let* question := writeUInt16BE qclass 2 question in
  Ok (concat [header; qnameBuffer; question]).

(** src/nativeMdnsDiscovery.js *)
Module NativeMdnsDiscovery.
Definition serviceQuery : string := "_smart_ip._tcp.local.".
Definition buildQuery : outcome Buffer := encode_query serviceQuery 12 1.
End NativeMdnsDiscovery.

(** src/testing1.js *)
Module Testing1.
Definition serviceQuery : string := "_smart_ip._tcp".
Definition fullServiceQuery : string := String.append serviceQuery ".local".
Definition buildQuery : outcome Buffer := encode_query fullServiceQuery 12 1.
End Testing1.

(** ** readName *)

Record NameResult : Type := mkNameResult {
  name : string;
  readBytes : Z
}.

(** The loop [while (true)] of readName; the four arguments after the
    buffer are the variables [offset], [labels], [jumped] and
    [originalOffset].  One unit of fuel is one iteration.

    The array [labels] is a list: the limit that the engine puts on the
    length of an array, at which [labels.push] throws its own RangeError
    (Invalid array length, after some 10^8 labels), is not modelled.  A
    call that is out of fuel for every fuel returns no name; it runs for
    ever if from some iteration on it pushes no label, and otherwise it
    runs until the engine refuses to grow the array. *)
Fixpoint readName_loop (fuel : nat) (buffer : Buffer) (offset : Z)
    (labels : list string) (jumped : bool) (originalOffset : Z)
  : outcome NameResult :=
  match fuel with
  | O => OutOfFuel
  | S fuel =>
      let* length := readUInt8 buffer offset in
      if length =? 0 then
        let offset := offset + 1 in
        Ok {| name := join_dot labels;
              readBytes := if jumped then originalOffset else offset |}
      else if Z.land length 0xC0 =? 0xC0 then
        let* low := readUInt8 buffer (offset + 1) in
        let pointer := Z.lor (Z.shiftl (Z.land length 0x3F) 8) low in
        let originalOffset := if negb jumped then offset + 2 else originalOffset in
        readName_loop fuel buffer pointer labels true originalOffset
      else
        let offset := offset + 1 in
        let label := toString buffer offset (offset + length) in
        readName_loop fuel buffer (offset + length) (labels ++ [label]) jumped originalOffset
  end.

Definition readName (fuel : nat) (buffer : Buffer) (offset : Z) : outcome NameResult :=
  readName_loop fuel buffer offset [] false offset.

(** ** parseRecord *)

(** The values of a TXT object: a string, or [true]. *)
Inductive txt_value : Type :=
  | TxtString (s : string)
  | TxtTrue.

(** [txts[key] = value] on an object that started as the literal [{}].
    The own properties are a finite map.  The key [__proto__] is the
    accessor inherited from [Object.prototype]: its setter ignores a value
    that is neither an object nor [null], so the assignment of a string or
    of [true] leaves the object as it was. *)
Definition set_property (key : string) (value : txt_value)
    (txts : gmap string txt_value) : gmap string txt_value :=
  if String.eqb key "__proto__" then txts else <[key := value]> txts.

(** The body of the TXT loop after [txt] is read: the split on the first
    [=] and the assignment. *)
Definition txt_assign (txt : string) (txts : gmap string txt_value)
  : gmap string txt_value :=
  match String.index 0 "=" txt with
  | Some equalIndex =>
      let key := String.substring 0 equalIndex txt in
      let value :=
        String.substring (S equalIndex) (String.length txt - S equalIndex) txt in
      set_property key (TxtString value) txts
  | None => set_property txt TxtTrue txts
  end.

(** [while (offset < end)] of the TXT branch; returns the object and the
    offset at which the loop stopped. *)
Fixpoint txt_loop (fuel : nat) (buffer : Buffer) (offset end_ : Z)
    (txts : gmap string txt_value) : outcome (gmap string txt_value * Z) :=
  if offset <? end_ then
    match fuel with
    | O => OutOfFuel
    | S fuel =>
        let* txtLen := readUInt8 buffer offset in
        let offset := offset + 1 in
        let txt := toString buffer offset (offset + txtLen) in
        let offset := offset + txtLen in
        txt_loop fuel buffer offset end_ (txt_assign txt txts)
    end
  else Ok (txts, offset).

(** [for (let i = 0; i < rdlength; i++)] of the A branch, [n] iterations
    left. *)
Fixpoint a_loop (n : nat) (buffer : Buffer) (offset i : Z) (ipBytes : list Z)
  : outcome (list Z) :=
  match n with
  | O => Ok ipBytes
  | S n =>
      let* b := readUInt8 buffer (offset + i) in
      a_loop n buffer offset (i + 1) (ipBytes ++ [b])
  end.

Inductive rdata_value : Type :=
  | RdName (target : string)
  | RdSrv (priority weight port : Z) (target : string)
  | RdTxt (txts : gmap string txt_value)
  | RdA (ip : string)
  | RdRaw (raw : Buffer).

(** The object parseRecord returns: [{ name, type, cls, ttl, rdlength,
    rdata, offset }]. *)
Record DnsRecord : Type := mkRecord {
  r_name : string;
  r_type : Z;
  r_cls : Z;
  r_ttl : Z;
  r_rdlength : Z;
  r_rdata : rdata_value;
  r_offset : Z
}.

Definition parseRecord (fuel : nat) (buffer : Buffer) (offset : Z) : outcome DnsRecord :=
  let* nameResult := readName fuel buffer offset in
  let name' := nameResult.(name) in
  let offset := nameResult.(readBytes) in
  let* type := readUInt16BE buffer offset in
  let offset := offset + 2 in
  let* cls := readUInt16BE buffer offset in
  let offset := offset + 2 in
  let* ttl := readUInt32BE buffer offset in
  let offset := offset + 4 in
  let* rdlength := readUInt16BE buffer offset in
  let offset := offset + 2 in
  if type =? 12 then
    let* target := readName fuel buffer offset in
    let rdata := RdName target.(name) in
    let offset := offset + rdlength in
    Ok (mkRecord name' type cls ttl rdlength rdata offset)
  else if type =? 33 then
    let* priority := readUInt16BE buffer offset in
    let* weight := readUInt16BE buffer (offset + 2) in
    let* port := readUInt16BE buffer (offset + 4) in
    let* target := readName fuel buffer (offset + 6) in
    let rdata := RdSrv priority weight port target.(name) in
    let offset := offset + rdlength in
    Ok (mkRecord name' type cls ttl rdlength rdata offset)
  else if type =? 16 then
    let end_ := offset + rdlength in
    let* r := txt_loop fuel buffer offset end_ ∅ in
    let rdata := RdTxt r.1 in
    let offset := r.2 in
    Ok (mkRecord name' type cls ttl rdlength rdata offset)
  else if type =? 1 then
    let* ipBytes := a_loop (Z.to_nat rdlength) buffer offset 0 [] in
    let rdata := RdA (join_dot (pretty <$> ipBytes)) in
    let offset := offset + rdlength in
    Ok (mkRecord name' type cls ttl rdlength rdata offset)
  else
    let rdata := RdRaw (slice buffer offset (offset + rdlength)) in
    let offset := offset + rdlength in
    Ok (mkRecord name' type cls ttl rdlength rdata offset).

(** ** parseDNSMessage *)

Record Header : Type := mkHeader {
  id : Z;
  flags : Z;
  qdcount : Z;
  ancount : Z;
  nscount : Z;
  arcount : Z
}.

Record Message : Type := mkMessage {
  header : Header;
  records : list DnsRecord
}.

(** [for (let i = 0; i < header.qdcount; i++)], [n] iterations left. *)
Fixpoint questions_loop (n fuel : nat) (buffer : Buffer) (offset : Z) : outcome Z :=
  match n with
  | O => Ok offset
  | S n =>
      let* res := readName fuel buffer offset in
      questions_loop n fuel buffer (res.(readBytes) + 4)
  end.

(** [for (let i = 0; i < totalRecords; i++)], [n] iterations left. *)
Fixpoint records_loop (n fuel : nat) (buffer : Buffer) (offset : Z)
    (records : list DnsRecord) : outcome (list DnsRecord) :=
  match n with
  | O => Ok records
  | S n =>
      let* record := parseRecord fuel buffer offset in
      records_loop n fuel buffer record.(r_offset) (records ++ [record])
  end.

Definition parseDNSMessage (fuel : nat) (buffer : Buffer) : outcome Message :=
  let* id' := readUInt16BE buffer 0 in
  let* flags' := readUInt16BE buffer 2 in
  let* qdcount' := readUInt16BE buffer 4 in
  let* ancount' := readUInt16BE buffer 6 in
  let* nscount' := readUInt16BE buffer 8 in
  let* arcount' := readUInt16BE buffer 10 in
  let header := mkHeader id' flags' qdcount' ancount' nscount' arcount' in
  let offset := 12 in
  let* offset := questions_loop (Z.to_nat header.(qdcount)) fuel buffer offset in
  let totalRecords := header.(ancount) + header.(nscount) + header.(arcount) in
  let* records := records_loop (Z.to_nat totalRecords) fuel buffer offset [] in
  Ok (mkMessage header records).

(** Test buffers are written as lists of byte values. *)
Definition bytes (l : list Z) : Buffer := byte_of_Z <$> l.

(** ** Definitions used to state the properties *)

(** The walk over plain labels from [offset] that follows no pointer: it
    stops at the terminating zero byte or at the first pointer byte. *)
Inductive scan_end : Type :=
  | AtZero (pos : Z)
  | AtPointer (pos : Z).

Fixpoint linear_scan (fuel : nat) (buffer : Buffer) (offset : Z) : option scan_end :=
  match fuel with
  | O => None
  | S fuel =>
      match byteAt buffer offset with
      | None => None
      | Some len =>
          if len =? 0 then Some (AtZero offset)
          else if Z.land len 0xC0 =? 0xC0 then Some (AtPointer offset)
          else linear_scan fuel buffer (offset + 1 + len)
      end
  end.

(** At offset 4, a name whose label [b] is followed by a chain of two
    pointers: the first pointer, at offset 6, leads to the second, at
    offset 8, which leads to the name [a] at offset 0. *)
Definition chained_buffer : Buffer :=
  bytes [1; 97; 0; 0;  1; 98; 0xC0; 8;  0xC0; 0].

(** A call of readName that is still in its loop after any number of
    iterations. *)
Definition never_returns (buffer : Buffer) (offset : Z) : Prop :=
  forall fuel, readName fuel buffer offset = OutOfFuel.

(** A name that is one pointer to its own offset. *)
Definition self_pointer_buffer : Buffer := bytes [0xC0; 0].

(** A name at offset 0 and, at offset 3, a pointer to it. *)
Definition twice_buffer : Buffer := bytes [1; 97; 0;  0xC0; 0].

(** A label announced by the length byte 64, then the terminator. *)
Definition long_label_buffer : Buffer := bytes (64 :: replicate 64 97 ++ [0]).

(** The bytes the specification lists for the query of
    [_smart_ip._tcp.local], PTR, IN. *)
Definition smart_ip_query : Buffer :=
  bytes [0x00; 0x00; 0x00; 0x00; 0x00; 0x01; 0x00; 0x00; 0x00; 0x00; 0x00; 0x00;
         0x09; 0x5f; 0x73; 0x6d; 0x61; 0x72; 0x74; 0x5f; 0x69; 0x70;
         0x04; 0x5f; 0x74; 0x63; 0x70;
         0x05; 0x6c; 0x6f; 0x63; 0x61; 0x6c;
         0x00;
         0x00; 0x0c; 0x00; 0x01].



(** A text cut at its first [=], if it has one. *)
Fixpoint split_eq (s : string) : option (string * string) :=
  match s with
  | EmptyString => None
  | String c s' =>
      if Ascii.eqb c "="%char then Some (EmptyString, s')
      else match split_eq s' with
           | Some (key, value) => Some (String c key, value)
           | None => None
           end
  end.

(** The entry a TXT sub-string stands for: [key=value], or a bare flag. *)
Definition txt_entry (txt : string) : string * txt_value :=
  match split_eq txt with
  | Some (key, value) => (key, TxtString value)
  | None => (txt, TxtTrue)
  end.

(** The length-prefixed sub-strings that start at [offset], one after the
    other, as long as a sub-string starts before [end_]. *)
Fixpoint txt_substrings (fuel : nat) (buffer : Buffer) (offset end_ : Z) : list string :=
  match fuel with
  | O => []
  | S fuel =>
      if offset <? end_ then
        match byteAt buffer offset with
        | Some txtLen =>
            toString buffer (offset + 1) (offset + 1 + txtLen)
              :: txt_substrings fuel buffer (offset + 1 + txtLen) end_
        | None => []
        end
      else []
  end.

(** The value of the last entry under [key]. *)
Fixpoint last_entry (key : string) (entries : list (string * txt_value))
  : option txt_value :=
  match entries with
  | [] => None
  | (k, v) :: rest =>
      match last_entry key rest with
      | Some v' => Some v'
      | None => if String.eqb k key then Some v else None
      end
  end.

(** The TXT rdata as the specification prints it: the first length byte
    is 06 although [ver=1.0] has 7 bytes. *)
Definition txt_rdata_as_printed : Buffer :=
  bytes [0x06; 0x76; 0x65; 0x72; 0x3d; 0x31; 0x2e; 0x30; 0x04; 0x66; 0x6c; 0x61; 0x67].

(** The same rdata with the length byte 07 that [ver=1.0] needs. *)
Definition txt_rdata : Buffer :=
  bytes [0x07; 0x76; 0x65; 0x72; 0x3d; 0x31; 0x2e; 0x30; 0x04; 0x66; 0x6c; 0x61; 0x67].

(** A TXT rdata with [ver=1.0], then [ver=2], then [flag]. *)
Definition txt_rdata_twice : Buffer :=
  bytes [0x07; 0x76; 0x65; 0x72; 0x3d; 0x31; 0x2e; 0x30;
         0x05; 0x76; 0x65; 0x72; 0x3d; 0x32;
         0x04; 0x66; 0x6c; 0x61; 0x67].

(** TXT records at offset 0 with these rdata: root name, type 16,
    class 1, ttl 120. *)
Definition txt_record : Buffer :=
  bytes [0;  0; 16;  0; 1;  0; 0; 0; 120;  0; 13] ++ txt_rdata.

Definition txt_record_twice : Buffer :=
  bytes [0;  0; 16;  0; 1;  0; 0; 0; 120;  0; 19] ++ txt_rdata_twice.

(** A TXT rdata with the one sub-string [__proto__=x]. *)
Definition txt_rdata_proto : Buffer :=
  bytes [11; 0x5f; 0x5f; 0x70; 0x72; 0x6f; 0x74; 0x6f; 0x5f; 0x5f; 0x3d; 0x78].

(** A TXT record at offset 0: root name, type 16, class 1, ttl 60,
    rdlength 3, and one sub-string of 5 bytes ([hello]) that crosses the
    end of the rdata. *)
Definition txt_overshoot_record : Buffer :=
  bytes [0;  0; 16;  0; 1;  0; 0; 0; 60;  0; 3;  5; 104; 101; 108; 108; 111].

(** Text all of whose bytes are below 128. *)
Fixpoint is_ascii (s : string) : bool :=
  match s with
  | EmptyString => true
  | String c s' => (Z.of_N (N_of_ascii c) <? 128) && is_ascii s'
  end.

(** A label that a query may carry: not empty, at most 63 bytes, ASCII. *)
Definition query_label (part : string) : Prop :=
  part <> EmptyString /\ (String.length part <= 63)%nat /\ is_ascii part = true.

(** The wire form of a sequence of labels, without the terminator: each
    label after its length byte. *)
Fixpoint label_bytes (parts : list string) : Buffer :=
  match parts with
  | [] => []
  | part :: rest =>
      byte_of_Z (Z.of_nat (String.length part)) :: Buffer_from part ++ label_bytes rest
  end.

(** The one-label name whose label is U+00E9, the two bytes C3 A9. *)
Definition e_acute : string := String "195" (String "169" EmptyString).

(** [sim R p m]: the run [p] on a truncated buffer against the run [m] on
    the whole buffer.  The truncated run may throw; otherwise the two go
    the same way and their results are related by [R]. *)
Definition sim {A : Type} (R : A -> A -> Prop) (p m : outcome A) : Prop :=
  match p with
  | Ok a => exists a', m = Ok a' /\ R a a'
  | Throw _ => True
  | OutOfFuel => m = OutOfFuel
  end.

(** Two records that agree on everything but, for a TXT record or a
    record of a type that is not decoded, the rdata. *)
Definition same_fields (r' r : DnsRecord) : Prop :=
  r_name r' = r_name r /\ r_type r' = r_type r /\ r_cls r' = r_cls r /\
  r_ttl r' = r_ttl r /\ r_rdlength r' = r_rdlength r /\ r_offset r' = r_offset r /\
  (r_type r = 12 \/ r_type r = 33 \/ r_type r = 1 -> r_rdata r' = r_rdata r).

(** The cursor of the TXT loop, without the object it builds: from
    [offset], as long as it is before [end_], it moves past one length
    byte and as many bytes as that byte says.  It stops at [end_] or
    beyond, or before [end_] at a length byte that is not in the buffer
    (or where the fuel ends). *)
Fixpoint txt_cursor (fuel : nat) (buffer : Buffer) (offset end_ : Z) : Z :=
  match fuel with
  | O => offset
  | S fuel =>
      if offset <? end_ then
        match byteAt buffer offset with
        | Some txtLen => txt_cursor fuel buffer (offset + 1 + txtLen) end_
        | None => offset
        end
      else offset
  end.

(** The positions of the length bytes that the TXT loop reads. *)
Fixpoint txt_length_positions (fuel : nat) (buffer : Buffer) (offset end_ : Z) : list Z :=
  match fuel with
  | O => []
  | S fuel =>
      if offset <? end_ then
        match byteAt buffer offset with
        | Some txtLen => offset :: txt_length_positions fuel buffer (offset + 1 + txtLen) end_
        | None => []
        end
      else []
  end.

(** What a cut at [b] has left of the record [rec] of [message], whose
    rdata starts at [rdataOffset], when the record can still be parsed:
    its name and its ten bytes of fields, all of the rdata of an A
    record, the name in the rdata of a PTR or SRV record, and the length
    byte of every sub-string of a TXT record. *)
Definition cut_spares (fuel : nat) (message : Buffer) (rec : DnsRecord)
    (rdataOffset b : Z) : Prop :=
  rdataOffset <= b /\
  (r_type rec = 1 -> r_offset rec <= b) /\
  (r_type rec = 12 ->
     forall target,
       readName fuel message rdataOffset = Ok target -> readBytes target <= b) /\
  (r_type rec = 33 ->
     forall target,
       readName fuel message (rdataOffset + 6) = Ok target -> readBytes target <= b) /\
  (r_type rec = 16 ->
     Forall (fun pos => pos < b)
       (txt_length_positions fuel message rdataOffset (rdataOffset + r_rdlength rec))).

(** The spans of the buffer that the sub-strings of a TXT rdata are
    decoded from: for each sub-string the offset after its length byte and
    the offset after its last byte. *)
Fixpoint txt_spans (fuel : nat) (buffer : Buffer) (offset end_ : Z) : list (Z * Z) :=
  match fuel with
  | O => []
  | S fuel =>
      if offset <? end_ then
        match byteAt buffer offset with
        | Some txtLen =>
            (offset + 1, offset + 1 + txtLen)
              :: txt_spans fuel buffer (offset + 1 + txtLen) end_
        | None => []
        end
      else []
  end.

(** The rdata that is left of the record [rec] of [message], whose rdata
    starts at [rdataOffset], when the message is cut at [b] and the
    record can still be parsed.  The rdata of a PTR, SRV or A record is
    whole.  The sub-strings of a TXT record are decoded from their spans
    up to the cut, and assigned in order.  The raw bytes of a record of
    another type are those of the announced span up to the cut. *)
Definition clamped_rdata (fuel : nat) (message : Buffer) (rec : DnsRecord)
    (rdataOffset b : Z) : rdata_value :=
  if (r_type rec =? 12) || (r_type rec =? 33) || (r_type rec =? 1) then r_rdata rec
  else if r_type rec =? 16 then
    RdTxt (foldl (fun txts txt => txt_assign txt txts) ∅
             ((fun span => toString message span.1 (Z.min span.2 b))
                <$> txt_spans fuel message rdataOffset (rdataOffset + r_rdlength rec)))
  else RdRaw (slice message rdataOffset (Z.min (rdataOffset + r_rdlength rec) b)).

(** A response with one answer: an AAAA record (type 28, not decoded by
    parseRecord) for the root name, ttl 120, with its 16 bytes of rdata. *)
Definition aaaa_message : Buffer :=
  bytes [0; 0;  0x84; 0;  0; 0;  0; 1;  0; 0;  0; 0;
         0;  0; 28;  0; 1;  0; 0; 0; 120;  0; 16;
         0xfe; 0x80; 0; 0; 0; 0; 0; 0;  0; 0; 0; 0; 0; 0; 0; 1].

(** A response with one answer: a TXT record for the root name with the
    one sub-string [ver=1.0]. *)
Definition txt_message : Buffer :=
  bytes [0; 0;  0x84; 0;  0; 0;  0; 1;  0; 0;  0; 0;
         0;  0; 16;  0; 1;  0; 0; 0; 120;  0; 8;
         0x07; 0x76; 0x65; 0x72; 0x3d; 0x31; 0x2e; 0x30].

(** A response with one answer: an A record for the root name. *)
Definition a_message : Buffer :=
  bytes [0; 0;  0x84; 0;  0; 0;  0; 1;  0; 0;  0; 0;
         0;  0; 1;  0; 1;  0; 0; 0; 120;  0; 4;  192; 168; 1; 20].

(** The TXT loop on a message cut at [b] against the loop on the whole
    message: they stop at the same offset, and with the same object
    unless the last sub-string runs past the cut. *)
Definition txt_rel (b : nat) (r' r : gmap string txt_value * Z) : Prop :=
  r'.2 = r.2 /\ (r'.2 <= Z.of_nat b -> r' = r).

(** A record parsed at [start] from a message cut at [b] against the
    record parsed there from the whole message: the same fields, the
    same record when it ends before the cut, and the rdata that the cut
    has left. *)
Definition record_rel (fuel : nat) (message : Buffer) (b : nat) (start : Z)
    (rec' rec : DnsRecord) : Prop :=
  same_fields rec' rec /\
  (r_offset rec' <= Z.of_nat b -> rec' = rec) /\
  exists nameResult,
    readName fuel message start = Ok nameResult /\
    parseRecord fuel message start = Ok rec /\
    cut_spares fuel message rec (readBytes nameResult + 10) (Z.of_nat b) /\
    r_rdata rec' = clamped_rdata fuel message rec (readBytes nameResult + 10) (Z.of_nat b).

(** Where the record after the records [init] starts, when the first
    record starts at [offset]. *)
Definition next_start (offset : Z) (init : list DnsRecord) : Z :=
  match last init with
  | Some previous => r_offset previous
  | None => offset
  end.

(** Two lists of records parsed from [offset] on that are equal up to
    their last records, which are related by [record_rel]. *)
Definition differ_last (fuel : nat) (message : Buffer) (b : nat) (offset : Z)
    (new' new : list DnsRecord) : Prop :=
  (new' = [] /\ new = []) \/
  exists init rec' rec,
    new' = init ++ [rec'] /\ new = init ++ [rec] /\
    record_rel fuel message b (next_start offset init) rec' rec.

(** [settles p q]: the run [q] has at least the fuel of the run [p], so
    once [p] has an outcome, [q] has the same. *)
Definition settles {A : Type} (p q : outcome A) : Prop :=
  p = OutOfFuel \/ q = p.

(** ** Definitions used to state further properties *)

(** Where one iteration of the loop of readName takes the cursor: after
    the label, or to the target of the pointer; [None] when the iteration
    ends the loop (at the terminator, or with a RangeError). *)
Definition name_step (buffer : Buffer) (offset : Z) : option Z :=
  match byteAt buffer offset with
  | None => None
  | Some len =>
      if len =? 0 then None
      else if Z.land len 0xC0 =? 0xC0 then
        match byteAt buffer (offset + 1) with
        | Some low => Some (Z.lor (Z.shiftl (Z.land len 0x3F) 8) low)
        | None => None
        end
      else Some (offset + 1 + len)
  end.

(** The cursor after [n] iterations, when none of them ends the loop. *)
Fixpoint name_steps (n : nat) (buffer : Buffer) (offset : Z) : option Z :=
  match n with
  | O => Some offset
  | S n =>
      match name_step buffer offset with
      | Some offset' => name_steps n buffer offset'
      | None => None
      end
  end.

(** The offsets at which the first [n] iterations start. *)
Fixpoint name_trace (n : nat) (buffer : Buffer) (offset : Z) : list Z :=
  match n with
  | O => []
  | S n =>
      offset :: match name_step buffer offset with
                | Some offset' => name_trace n buffer offset'
                | None => []
                end
  end.

(** The label [a] followed by a pointer back to it. *)
Definition label_loop_buffer : Buffer := bytes [1; 97; 0xC0; 0].

(** A call of readName that returns no name, however long it runs. *)
Definition returns_no_name (buffer : Buffer) (offset : Z) : Prop :=
  forall fuel r, readName fuel buffer offset <> Ok r.

(** Whether the iteration that starts at [offset] pushes a label: the
    byte there is neither the terminator nor a pointer. *)
Definition label_step (buffer : Buffer) (offset : Z) : bool :=
  match byteAt buffer offset with
  | Some len => negb (len =? 0) && negb (Z.land len 0xC0 =? 0xC0)
  | None => false
  end.

(** The number of labels pushed by the first [n] iterations. *)
Fixpoint labels_pushed (n : nat) (buffer : Buffer) (offset : Z) : nat :=
  match n with
  | O => 0
  | S n =>
      match name_step buffer offset with
      | Some offset' =>
          ((if label_step buffer offset then 1 else 0) + labels_pushed n buffer offset')%nat
      | None => 0
      end
  end.

(** An A record for the root name whose rdlength is 6. *)
Definition a_record_six : Buffer :=
  bytes [0;  0; 1;  0; 1;  0; 0; 0; 120;  0; 6;  10; 0; 0; 1; 2; 3].

(** A record of type 47 (not decoded) for the root name whose rdlength,
    300, is more than the two bytes that follow. *)
Definition opaque_record_short : Buffer :=
  bytes [0;  0; 47;  0; 1;  0; 0; 0; 120;  1; 44;  7; 9].

(** A message with one question for the root name and no record; the
    question's type and class are missing. *)
Definition question_only_message : Buffer :=
  bytes [0; 0;  0; 0;  0; 1;  0; 0;  0; 0;  0; 0;  0].

(** A message with one question whose name is a pointer to itself. *)
Definition pointer_loop_message : Buffer :=
  bytes [0; 0;  0; 0;  0; 1;  0; 0;  0; 0;  0; 0;  0xC0; 12;  0; 12;  0; 1].

(** The parts of the name that the loop of buildQuery does not skip. *)
Definition query_parts (serviceQuery : string) : list string :=
  List.filter (fun part => negb (String.eqb part "")) (split_dot serviceQuery).



(** The labels that readName collects: the variable [labels] when the
    loop leaves at a zero byte. *)
Fixpoint name_labels (fuel : nat) (buffer : Buffer) (offset : Z) : option (list string) :=
  match fuel with
  | O => None
  | S fuel =>
      match byteAt buffer offset with
      | None => None
      | Some len =>
          if len =? 0 then Some []
          else if Z.land len 0xC0 =? 0xC0 then
            match byteAt buffer (offset + 1) with
            | None => None
            | Some low =>
                name_labels fuel buffer (Z.lor (Z.shiftl (Z.land len 0x3F) 8) low)
            end
          else
            cons (toString buffer (offset + 1) (offset + 1 + len))
              <$> name_labels fuel buffer (offset + 1 + len)
      end
  end.

(** The spans of the buffer that the labels are decoded from: for each
    label the offset after its length byte, and the value of that byte. *)
Fixpoint name_spans (fuel : nat) (buffer : Buffer) (offset : Z) : option (list (Z * Z)) :=
  match fuel with
  | O => None
  | S fuel =>
      match byteAt buffer offset with
      | None => None
      | Some len =>
          if len =? 0 then Some []
          else if Z.land len 0xC0 =? 0xC0 then
            match byteAt buffer (offset + 1) with
            | None => None
            | Some low =>
                name_spans fuel buffer (Z.lor (Z.shiftl (Z.land len 0x3F) 8) low)
            end
          else cons (offset + 1, len) <$> name_spans fuel buffer (offset + 1 + len)
      end
  end.

(** The text of a span. *)
Definition span_text (buffer : Buffer) (span : Z * Z) : string :=
  toString buffer span.1 (span.1 + span.2).

(** A label without a dot. *)
Fixpoint dot_free (s : string) : bool :=
  match s with
  | EmptyString => true
  | String c s' => negb (Ascii.eqb c "."%char) && dot_free s'
  end.

(** A name of one label, [a.b], whose second byte is a dot. *)
Definition dotted_label_buffer : Buffer := bytes [3; 97; 46; 98; 0].

(** A response with one answer: a PTR record for [_smart_ip._tcp.local],
    in plain labels, whose rdata is the label [dev] and a pointer to the
    name of the record. *)
Definition smart_ip_response : Buffer :=
  bytes [0; 0;  0x84; 0;  0; 0;  0; 1;  0; 0;  0; 0;
         0x09; 0x5f; 0x73; 0x6d; 0x61; 0x72; 0x74; 0x5f; 0x69; 0x70;
         0x04; 0x5f; 0x74; 0x63; 0x70;
         0x05; 0x6c; 0x6f; 0x63; 0x61; 0x6c;
         0x00;
         0; 12;  0; 1;  0; 0; 0; 120;  0; 6;
         0x03; 0x64; 0x65; 0x76;  0xC0; 12].

(** ** The helpers of the message handler of src/testing1.js *)

(** [s.endsWith(suffix)].  The positions are byte positions; the handler
    calls it with an ASCII suffix that starts with a dot, for which the
    bytes of [s] end with the bytes of the suffix exactly when the text
    of [s] ends with the text of the suffix. *)
Definition endsWith (s suffix : string) : bool :=
  (String.length suffix <=? String.length s)%nat &&
  String.eqb
    (String.substring (String.length s - String.length suffix) (String.length suffix) s)
    suffix.

Definition isSmartIPService (name : string) : bool :=
  String.eqb name Testing1.fullServiceQuery ||
  endsWith name (String.append "." Testing1.fullServiceQuery).

(** The name that the handler prints for a service: lines 217 to 221.
    [substring(0, displayName.length - suffix.length)] removes the
    suffix; as the suffix is ASCII it has as many code units as bytes. *)
Definition displayName (name : string) : string :=
  let displayName := name in
  let suffix := String.append "." Testing1.fullServiceQuery in
  if endsWith displayName suffix then
    String.substring 0 (String.length displayName - String.length suffix) displayName
  else displayName.

(** * Properties *)

(** ** Outcomes and buffer accessors *)

Lemma bind_Ok {A B : Type} (m : outcome A) (k : A -> outcome B) (b : B) :
  bind m k = Ok b -> exists a, m = Ok a /\ k a = Ok b.
Proof. destruct m as [a| |]; simpl; intros H; try discriminate. eauto. Qed.

Lemma byte_val_range (b : byte) : 0 <= byte_val b < 256.
Proof. unfold byte_val. pose proof (Byte.to_N_bounded b). lia. Qed.

Lemma byteAt_range (buffer : Buffer) (i v : Z) :
  byteAt buffer i = Some v -> 0 <= v < 256.
Proof.
  unfold byteAt. destruct (i <? 0); [discriminate|].
  destruct (buffer !! Z.to_nat i) as [b|]; simpl; [|discriminate].
  intros [= <-]. apply byte_val_range.
Qed.

Lemma byteAt_Some_iff (buffer : Buffer) (i : Z) :
  is_Some (byteAt buffer i) <-> 0 <= i < Z.of_nat (length buffer).
Proof.
  unfold byteAt. destruct (Z.ltb_spec i 0) as [Hneg|Hpos].
  - split; [intros [? [=]] | lia].
  - rewrite fmap_is_Some, lookup_lt_is_Some. lia.
Qed.

Lemma readUInt8_Ok (buffer : Buffer) (offset v : Z) :
  readUInt8 buffer offset = Ok v <-> byteAt buffer offset = Some v.
Proof.
  unfold readUInt8. destruct (byteAt buffer offset); split; congruence.
Qed.

(** One iteration of the loop of readName. *)
Lemma readName_loop_S (fuel : nat) (buffer : Buffer) (offset : Z)
    (labels : list string) (jumped : bool) (originalOffset : Z) :
  readName_loop (S fuel) buffer offset labels jumped originalOffset =
  let* len := readUInt8 buffer offset in
  if len =? 0 then
    Ok {| name := join_dot labels;
          readBytes := if jumped then originalOffset else offset + 1 |}
  else if Z.land len 0xC0 =? 0xC0 then
    let* low := readUInt8 buffer (offset + 1) in
    readName_loop fuel buffer (Z.lor (Z.shiftl (Z.land len 0x3F) 8) low) labels true
      (if negb jumped then offset + 2 else originalOffset)
  else
    readName_loop fuel buffer (offset + 1 + len)
      (labels ++ [toString buffer (offset + 1) (offset + 1 + len)])
      jumped originalOffset.
Proof. reflexivity. Qed.

(** ** More fuel does not change an outcome *)

Lemma settles_refl {A : Type} (p : outcome A) : settles p p.
Proof. right. reflexivity. Qed.

Lemma settles_bind {A B : Type} (p q : outcome A) (k k' : A -> outcome B) :
  settles p q ->
  (forall a, settles (k a) (k' a)) ->
  settles (bind p k) (bind q k').
Proof.
  intros [-> | ->] Hk; [left; reflexivity|].
  destruct p as [a|e|]; simpl; [apply Hk|right; reflexivity|left; reflexivity].
Qed.

Lemma readName_loop_fuel (fuel fuel' : nat) (buffer : Buffer) :
  (fuel <= fuel')%nat ->
  forall offset labels jumped originalOffset,
    settles (readName_loop fuel buffer offset labels jumped originalOffset)
            (readName_loop fuel' buffer offset labels jumped originalOffset).
Proof.
  revert fuel'. induction fuel as [|fuel IH]; intros fuel' Hle offset labels jumped orig;
    [left; reflexivity|].
  destruct fuel' as [|fuel']; [lia|]. rewrite !readName_loop_S.
  apply settles_bind; [apply settles_refl|]. intros len.
  destruct (len =? 0); [apply settles_refl|].
  destruct (Z.land len 192 =? 192).
  - apply settles_bind; [apply settles_refl|]. intros low. apply IH. lia.
  - apply IH. lia.
Qed.

Lemma txt_loop_fuel (fuel fuel' : nat) (buffer : Buffer) (end_ : Z) :
  (fuel <= fuel')%nat ->
  forall offset txts,
    settles (txt_loop fuel buffer offset end_ txts)
            (txt_loop fuel' buffer offset end_ txts).
Proof.
  revert fuel'. induction fuel as [|fuel IH]; intros fuel' Hle offset txts.
  - simpl. destruct (offset <? end_) eqn:E; [left; reflexivity|].
    right. destruct fuel'; simpl; rewrite E; reflexivity.
  - destruct fuel' as [|fuel']; [lia|]. simpl.
    destruct (offset <? end_); [|apply settles_refl].
    apply settles_bind; [apply settles_refl|]. intros txtLen. apply IH. lia.
Qed.

Lemma parseRecord_fuel (fuel fuel' : nat) (buffer : Buffer) (offset : Z) :
  (fuel <= fuel')%nat ->
  settles (parseRecord fuel buffer offset) (parseRecord fuel' buffer offset).
Proof.
  intros Hle. unfold parseRecord.
  apply settles_bind; [apply readName_loop_fuel; exact Hle|]. intros nr.
  apply settles_bind; [apply settles_refl|]. intros type.
  apply settles_bind; [apply settles_refl|]. intros cls.
  apply settles_bind; [apply settles_refl|]. intros ttl.
  apply settles_bind; [apply settles_refl|]. intros rdlength.
  destruct (type =? 12).
  { apply settles_bind; [apply readName_loop_fuel; exact Hle|]. intros t. apply settles_refl. }
  destruct (type =? 33).
  { do 3 (apply settles_bind; [apply settles_refl|]; intros ?).
    apply settles_bind; [apply readName_loop_fuel; exact Hle|]. intros t. apply settles_refl. }
  destruct (type =? 16).
  { apply settles_bind; [apply txt_loop_fuel; exact Hle|]. intros r. apply settles_refl. }
  apply settles_refl.
Qed.

Lemma questions_loop_fuel (n fuel fuel' : nat) (buffer : Buffer) :
  (fuel <= fuel')%nat ->
  forall offset,
    settles (questions_loop n fuel buffer offset) (questions_loop n fuel' buffer offset).
Proof.
  intros Hle. induction n as [|n IH]; intros offset; simpl; [apply settles_refl|].
  apply settles_bind; [apply readName_loop_fuel; exact Hle|]. intros res. apply IH.
Qed.

Lemma records_loop_fuel (n fuel fuel' : nat) (buffer : Buffer) :
  (fuel <= fuel')%nat ->
  forall offset records,
    settles (records_loop n fuel buffer offset records)
            (records_loop n fuel' buffer offset records).
Proof.
  intros Hle. induction n as [|n IH]; intros offset records; simpl; [apply settles_refl|].
  apply settles_bind; [apply parseRecord_fuel; exact Hle|]. intros record. apply IH.
Qed.

(** Once parseDNSMessage has returned or thrown with some fuel, it does
    the same with any larger fuel. *)
Lemma parseDNSMessage_fuel (fuel fuel' : nat) (buffer : Buffer) :
  (fuel <= fuel')%nat ->
  settles (parseDNSMessage fuel buffer) (parseDNSMessage fuel' buffer).
Proof.
  intros Hle. unfold parseDNSMessage.
  do 6 (apply settles_bind; [apply settles_refl|]; intros ?).
  apply settles_bind; [apply questions_loop_fuel; exact Hle|]. intros offset.
  apply settles_bind; [apply records_loop_fuel; exact Hle|]. intros records.
  apply settles_refl.
Qed.

(** ** readName: the value of [readBytes] *)

(** With [jumped] set, the loop returns [originalOffset] untouched. *)
Lemma readName_loop_jumped (fuel : nat) (buffer : Buffer) :
  forall offset labels originalOffset r,
    readName_loop fuel buffer offset labels true originalOffset = Ok r ->
    readBytes r = originalOffset.
Proof.
  induction fuel as [|fuel IH]; intros offset labels orig r; simpl; [discriminate|].
  intros H. apply bind_Ok in H as (len & _ & H).
  destruct (len =? 0).
  - injection H as <-. reflexivity.
  - destruct (Z.land len 192 =? 192).
    + apply bind_Ok in H as (low & _ & H). simpl in H. eauto.
    + eauto.
Qed.

(** The decoded name does not depend on [jumped] and [originalOffset]. *)
Lemma readName_loop_name (fuel : nat) (buffer : Buffer) :
  forall offset labels jumped originalOffset jumped' originalOffset' r,
    readName_loop fuel buffer offset labels jumped originalOffset = Ok r ->
    exists r',
      readName_loop fuel buffer offset labels jumped' originalOffset' = Ok r' /\
      name r' = name r.
Proof.
  induction fuel as [|fuel IH]; intros offset labels j o j' o' r; simpl; [discriminate|].
  intros H. apply bind_Ok in H as (len & -> & H). simpl.
  destruct (len =? 0).
  - injection H as <-. eexists; split; reflexivity.
  - destruct (Z.land len 192 =? 192).
    + apply bind_Ok in H as (low & -> & H). simpl. eauto.
    + eauto.
Qed.

Lemma readName_loop_readBytes (fuel : nat) (buffer : Buffer) :
  forall offset labels originalOffset r,
    readName_loop fuel buffer offset labels false originalOffset = Ok r ->
    match linear_scan fuel buffer offset with
    | Some (AtZero zero) => readBytes r = zero + 1
    | Some (AtPointer first) => readBytes r = first + 2
    | None => False
    end.
Proof.
  induction fuel as [|fuel IH]; intros offset labels orig r; simpl; [discriminate|].
  intros H. apply bind_Ok in H as (len & Hlen & H).
  apply readUInt8_Ok in Hlen. rewrite Hlen.
  destruct (len =? 0).
  - injection H as <-. reflexivity.
  - destruct (Z.land len 192 =? 192).
    + apply bind_Ok in H as (low & _ & H). simpl in H.
      apply readName_loop_jumped in H. exact H.
    + replace (offset + 1 + len) with (offset + 1 + len) by reflexivity.
      apply IH in H. exact H.
Qed.

(** C1.  Whenever readName returns, [readBytes] is fixed by the plain
    labels that start at [offset]: when they end in the zero byte (no
    pointer was followed) it is the position just after that byte; when
    they end in a pointer (the first pointer met) it is the position of
    that pointer plus 2, whatever the decoding did after the jump. *)
Theorem readName_readBytes (fuel : nat) (buffer : Buffer) (offset : Z) (r : NameResult) :
  readName fuel buffer offset = Ok r ->
  match linear_scan fuel buffer offset with
  | Some (AtZero zero) => readBytes r = zero + 1
  | Some (AtPointer first) => readBytes r = first + 2
  | None => False
  end.
Proof. apply readName_loop_readBytes. Qed.

Lemma readName_readBytes_witness :
  readName 5 chained_buffer 4 = Ok {| name := "b.a"; readBytes := 8 |} /\
  linear_scan 5 chained_buffer 4 = Some (AtPointer 6) /\
  match linear_scan 5 chained_buffer 4 with
  | Some (AtZero zero) => 8 = zero + 1
  | Some (AtPointer first) => 8 = first + 2
  | None => False
  end.
Proof.
  split; [reflexivity|]. split; [reflexivity|].
  exact (readName_readBytes 5 chained_buffer 4 {| name := "b.a"; readBytes := 8 |} eq_refl).
Defined.

(** ** readName: pointers *)

Lemma readName_loop_self_pointer (buffer : Buffer) (offset hi lo : Z) :
  byteAt buffer offset = Some hi ->
  byteAt buffer (offset + 1) = Some lo ->
  Z.land hi 0xC0 = 0xC0 ->
  Z.lor (Z.shiftl (Z.land hi 0x3F) 8) lo = offset ->
  forall fuel labels jumped originalOffset,
    readName_loop fuel buffer offset labels jumped originalOffset = OutOfFuel.
Proof.
  intros Hhi Hlo Hptr Htarget.
  assert (Hnz : (hi =? 0) = false).
  { apply Z.eqb_neq. intros ->. discriminate Hptr. }
  induction fuel as [|fuel IH]; intros labels jumped orig; simpl; [reflexivity|].
  unfold readUInt8. rewrite Hhi. simpl. rewrite Hnz.
  change 192 with 0xC0. rewrite Hptr, Z.eqb_refl, Hlo. simpl.
  change 63 with 0x3F. rewrite Htarget. apply IH.
Qed.

(** C2 (as the code has it).  readName has no hop count: on a name whose
    first byte is a pointer to its own offset every iteration of the loop
    comes back to that offset, so the call neither returns nor throws,
    however many iterations it is given. *)
Theorem readName_self_pointer_diverges (buffer : Buffer) (offset hi lo : Z) :
  byteAt buffer offset = Some hi ->
  byteAt buffer (offset + 1) = Some lo ->
  Z.land hi 0xC0 = 0xC0 ->
  Z.lor (Z.shiftl (Z.land hi 0x3F) 8) lo = offset ->
  never_returns buffer offset.
Proof.
  intros Hhi Hlo Hptr Htarget fuel.
  exact (readName_loop_self_pointer buffer offset hi lo Hhi Hlo Hptr Htarget fuel [] false offset).
Qed.

Lemma readName_self_pointer_diverges_witness :
  byteAt self_pointer_buffer 0 = Some 0xC0 /\
  byteAt self_pointer_buffer (0 + 1) = Some 0 /\
  Z.lor (Z.shiftl (Z.land 0xC0 0x3F) 8) 0 = 0 /\
  never_returns self_pointer_buffer 0.
Proof.
  split; [reflexivity|]. split; [reflexivity|]. split; [reflexivity|].
  exact (readName_self_pointer_diverges self_pointer_buffer 0 0xC0 0
           eq_refl eq_refl eq_refl eq_refl).
Defined.

(** C2 as stated fails: on the self-pointing name no number of iterations
    ends in an error. *)
Lemma readName_self_pointer_no_error :
  ~ (exists fuel e, readName fuel self_pointer_buffer 0 = Throw e).
Proof.
  intros (fuel & e & H). unfold readName in H.
  rewrite (readName_loop_self_pointer self_pointer_buffer 0 0xC0 0
             eq_refl eq_refl eq_refl eq_refl fuel [] false 0) in H.
  discriminate H.
Qed.

(** C5 (with the reported value put right).  When the two bytes at [q]
    are a pointer to [p], the name decoded at [q] is the name decoded at
    [p], and the decoder reports that the name at [q] ends two bytes
    after [q]: [readBytes] is the cursor the caller continues from,
    [q + 2], so that 2 bytes are consumed. *)
Theorem readName_pointer_occurrence (fuel : nat) (buffer : Buffer)
    (p q hi lo : Z) (first : NameResult) :
  readName fuel buffer p = Ok first ->
  byteAt buffer q = Some hi ->
  byteAt buffer (q + 1) = Some lo ->
  Z.land hi 0xC0 = 0xC0 ->
  Z.lor (Z.shiftl (Z.land hi 0x3F) 8) lo = p ->
  exists second,
    readName (S fuel) buffer q = Ok second /\
    name second = name first /\
    readBytes second = q + 2.
Proof.
  intros Hfirst Hhi Hlo Hptr Htarget.
  assert (Hnz : (hi =? 0) = false).
  { apply Z.eqb_neq. intros ->. discriminate Hptr. }
  destruct (readName_loop_name fuel buffer p [] false p true (q + 2) first Hfirst)
    as (second & Hsecond & Hname).
  exists second. split; [|split].
  - unfold readName. simpl. unfold readUInt8. rewrite Hhi. simpl. rewrite Hnz.
    change 192 with 0xC0. rewrite Hptr, Z.eqb_refl, Hlo. simpl.
    change 63 with 0x3F. rewrite Htarget. exact Hsecond.
  - exact Hname.
  - apply readName_loop_jumped in Hsecond. exact Hsecond.
Qed.

Lemma readName_pointer_occurrence_witness :
  readName 2 twice_buffer 0 = Ok {| name := "a"; readBytes := 3 |} /\
  exists second,
    readName 3 twice_buffer 3 = Ok second /\
    name second = "a"%string /\
    readBytes second = 3 + 2.
Proof.
  split; [reflexivity|].
  exact (readName_pointer_occurrence 2 twice_buffer 0 3 0xC0 0
           {| name := "a"; readBytes := 3 |}
           eq_refl eq_refl eq_refl eq_refl eq_refl).
Defined.

(** C5 as stated fails: for the pointer at offset 3 readName reports 5,
    the offset after the pointer, not the count 2. *)
Lemma readName_pointer_reports_offset :
  readName 3 twice_buffer 3 = Ok {| name := "a"; readBytes := 5 |}.
Proof. reflexivity. Qed.

(** ** readName: label lengths *)

Lemma not_pointer_below_192 (len : Z) :
  0 <= len <= 191 -> (Z.land len 0xC0 =? 0xC0) = false.
Proof.
  intros Hlen. apply Z.eqb_neq. intros Hland.
  assert (H6 : Z.testbit len 6 = true).
  { pose proof (Z.land_spec len 0xC0 6) as H. rewrite Hland in H.
    symmetry in H. apply andb_true_iff in H as [H _]. exact H. }
  assert (H7 : Z.testbit len 7 = true).
  { pose proof (Z.land_spec len 0xC0 7) as H. rewrite Hland in H.
    symmetry in H. apply andb_true_iff in H as [H _]. exact H. }
  apply Z.testbit_true in H6; [|lia]. apply Z.testbit_true in H7; [|lia].
  change (2 ^ 6) with 64 in H6. change (2 ^ 7) with 128 in H7.
  pose proof (Z.div_mod len 64). pose proof (Z.mod_pos_bound len 64).
  pose proof (Z.div_mod len 128). pose proof (Z.mod_pos_bound len 128).
  pose proof (Z.div_mod (len / 64) 2). pose proof (Z.div_mod (len / 128) 2).
  pose proof (Z.mod_pos_bound (len / 64) 2). pose proof (Z.mod_pos_bound (len / 128) 2).
  lia.
Qed.

(** C10.  A length byte from 64 to 191 is taken as a plain label length:
    the iteration that reads it appends the [len] bytes that follow (as
    far as the buffer goes) as a label and the loop goes on after them;
    nothing is rejected.  When the byte after the label is the
    terminator, readName returns the name with that label. *)
Theorem readName_no_label_bound (fuel : nat) (buffer : Buffer) (offset len : Z)
    (labels : list string) (jumped : bool) (originalOffset : Z) :
  byteAt buffer offset = Some len ->
  64 <= len <= 191 ->
  readName_loop (S fuel) buffer offset labels jumped originalOffset =
  readName_loop fuel buffer (offset + 1 + len)
    (labels ++ [toString buffer (offset + 1) (offset + 1 + len)])
    jumped originalOffset /\
  (byteAt buffer (offset + 1 + len) = Some 0 ->
   readName (S (S fuel)) buffer offset =
     Ok {| name := toString buffer (offset + 1) (offset + 1 + len);
           readBytes := offset + 1 + len + 1 |}).
Proof.
  intros Hlen Hrange.
  assert (Hstep : forall fuel' labels' jumped' originalOffset',
    readName_loop (S fuel') buffer offset labels' jumped' originalOffset' =
    readName_loop fuel' buffer (offset + 1 + len)
      (labels' ++ [toString buffer (offset + 1) (offset + 1 + len)])
      jumped' originalOffset').
  { intros fuel' labels' jumped' orig'. rewrite readName_loop_S.
    unfold readUInt8. rewrite Hlen. cbn [bind].
    replace (len =? 0) with false by (symmetry; apply Z.eqb_neq; lia).
    rewrite not_pointer_below_192 by lia. reflexivity. }
  split; [apply Hstep|].
  intros Hzero. unfold readName. rewrite Hstep, readName_loop_S.
  unfold readUInt8. rewrite Hzero. reflexivity.
Qed.

Lemma readName_no_label_bound_witness :
  byteAt long_label_buffer 0 = Some 64 /\
  byteAt long_label_buffer (0 + 1 + 64) = Some 0 /\
  readName 2 long_label_buffer 0 =
    Ok {| name := toString long_label_buffer (0 + 1) (0 + 1 + 64);
          readBytes := 0 + 1 + 64 + 1 |} /\
  String.length (toString long_label_buffer (0 + 1) (0 + 1 + 64)) = 64%nat.
Proof.
  split; [reflexivity|]. split; [reflexivity|]. split; [|vm_compute; reflexivity].
  apply (readName_no_label_bound 0 long_label_buffer 0 64 [] false 0);
    [reflexivity|lia|reflexivity].
Defined.

(** ** buildQuery *)

(** C4 (with the length put right).  Both copies of buildQuery, and the
    general body applied to [_smart_ip._tcp.local], 12 and 1, return the
    listed bytes: the 12 header bytes, the three length-prefixed labels,
    the terminator and the question tail; they are 38 bytes. *)
Theorem buildQuery_bytes :
  NativeMdnsDiscovery.buildQuery = Ok smart_ip_query /\
  Testing1.buildQuery = Ok smart_ip_query /\
  encode_query "_smart_ip._tcp.local" 12 1 = Ok smart_ip_query /\
  length smart_ip_query = 38%nat.
Proof. repeat split; vm_compute; reflexivity. Qed.

(** C4 as stated fails: the query is not 39 bytes long. *)
Lemma buildQuery_not_39_bytes :
  ~ (exists query,
       encode_query "_smart_ip._tcp.local" 12 1 = Ok query /\ length query = 39%nat).
Proof.
  intros (query & Hq & Hlen).
  assert (H : encode_query "_smart_ip._tcp.local" 12 1 = Ok smart_ip_query)
    by (vm_compute; reflexivity).
  rewrite H in Hq. injection Hq as <-. discriminate Hlen.
Qed.

(** ** parseRecord *)

(** What parseRecord read before it looks at the type: the name, then
    type, class, ttl and rdlength, ten bytes in all. *)
Lemma parseRecord_fields (fuel : nat) (buffer : Buffer) (offset : Z) (rec : DnsRecord) :
  parseRecord fuel buffer offset = Ok rec ->
  exists nameResult,
    readName fuel buffer offset = Ok nameResult /\
    r_name rec = name nameResult /\
    readUInt16BE buffer (readBytes nameResult) = Ok (r_type rec) /\
    readUInt16BE buffer (readBytes nameResult + 2) = Ok (r_cls rec) /\
    readUInt32BE buffer (readBytes nameResult + 4) = Ok (r_ttl rec) /\
    readUInt16BE buffer (readBytes nameResult + 8) = Ok (r_rdlength rec).
Proof.
  unfold parseRecord. intros H.
  apply bind_Ok in H as (nr & Hnr & H). exists nr.
  apply bind_Ok in H as (type & Htype & H).
  apply bind_Ok in H as (cls & Hcls & H).
  apply bind_Ok in H as (ttl & Httl & H).
  apply bind_Ok in H as (rdlength & Hlen & H).
  replace (readBytes nr + 2 + 2) with (readBytes nr + 4) in * by lia.
  replace (readBytes nr + 4 + 4) with (readBytes nr + 8) in * by lia.
  assert (r_name rec = name nr /\ r_type rec = type /\ r_cls rec = cls /\
          r_ttl rec = ttl /\ r_rdlength rec = rdlength) as (-> & -> & -> & -> & ->).
  { destruct (type =? 12).
    { apply bind_Ok in H as (t & _ & H). injection H as <-. simpl. auto. }
    destruct (type =? 33).
    { apply bind_Ok in H as (p & _ & H). apply bind_Ok in H as (w & _ & H).
      apply bind_Ok in H as (q & _ & H). apply bind_Ok in H as (t & _ & H).
      injection H as <-. simpl. auto. }
    destruct (type =? 16).
    { apply bind_Ok in H as (r & _ & H). injection H as <-. simpl. auto. }
    destruct (type =? 1).
    { apply bind_Ok in H as (ip & _ & H). injection H as <-. simpl. auto. }
    injection H as <-. simpl. auto. }
  repeat split; assumption.
Qed.

(** The rest of parseRecord, by type; [rdataOffset] is where the rdata
    starts. *)
Lemma parseRecord_rdata (fuel : nat) (buffer : Buffer) (offset : Z) (rec : DnsRecord)
    (nameResult : NameResult) :
  parseRecord fuel buffer offset = Ok rec ->
  readName fuel buffer offset = Ok nameResult ->
  let rdataOffset := readBytes nameResult + 10 in
  if r_type rec =? 12 then
    exists target,
      readName fuel buffer rdataOffset = Ok target /\
      r_rdata rec = RdName (name target) /\
      r_offset rec = rdataOffset + r_rdlength rec
  else if r_type rec =? 33 then
    exists priority weight port target,
      readUInt16BE buffer rdataOffset = Ok priority /\
      readUInt16BE buffer (rdataOffset + 2) = Ok weight /\
      readUInt16BE buffer (rdataOffset + 4) = Ok port /\
      readName fuel buffer (rdataOffset + 6) = Ok target /\
      r_rdata rec = RdSrv priority weight port (name target) /\
      r_offset rec = rdataOffset + r_rdlength rec
  else if r_type rec =? 16 then
    exists txts,
      txt_loop fuel buffer rdataOffset (rdataOffset + r_rdlength rec) ∅
        = Ok (txts, r_offset rec) /\
      r_rdata rec = RdTxt txts
  else if r_type rec =? 1 then
    exists ipBytes,
      a_loop (Z.to_nat (r_rdlength rec)) buffer rdataOffset 0 [] = Ok ipBytes /\
      r_rdata rec = RdA (join_dot (pretty <$> ipBytes)) /\
      r_offset rec = rdataOffset + r_rdlength rec
  else
    r_rdata rec = RdRaw (slice buffer rdataOffset (rdataOffset + r_rdlength rec)) /\
    r_offset rec = rdataOffset + r_rdlength rec.
Proof.
  unfold parseRecord. intros H Hnr. rewrite Hnr in H. simpl in H.
  apply bind_Ok in H as (type & Htype & H).
  apply bind_Ok in H as (cls & Hcls & H).
  apply bind_Ok in H as (ttl & Httl & H).
  apply bind_Ok in H as (rdlength & Hlen & H).
  replace (readBytes nameResult + 2 + 2 + 4 + 2) with (readBytes nameResult + 10) in H by lia.
  set (rdataOffset := readBytes nameResult + 10) in *.
  destruct (type =? 12) eqn:E12.
  { apply bind_Ok in H as (t & Ht & H). injection H as <-. simpl. rewrite E12. eauto. }
  destruct (type =? 33) eqn:E33.
  { apply bind_Ok in H as (p & Hp & H). apply bind_Ok in H as (w & Hw & H).
    apply bind_Ok in H as (q & Hq & H). apply bind_Ok in H as (t & Ht & H).
    injection H as <-. simpl. rewrite E12, E33. eauto 10. }
  destruct (type =? 16) eqn:E16.
  { apply bind_Ok in H as ([txts off] & Hr & H). injection H as <-. simpl.
    rewrite E12, E33, E16. eauto. }
  destruct (type =? 1) eqn:E1.
  { apply bind_Ok in H as (ip & Hip & H). injection H as <-. simpl.
    rewrite E12, E33, E16, E1. eauto. }
  injection H as <-. simpl. rewrite E12, E33, E16, E1. auto.
Qed.



(** ** parseRecord: TXT *)

Lemma readUInt16BE_range (buffer : Buffer) (offset v : Z) :
  readUInt16BE buffer offset = Ok v -> 0 <= v < 65536.
Proof.
  unfold readUInt16BE.
  destruct (byteAt buffer offset) as [a|] eqn:Ha; [|discriminate].
  destruct (byteAt buffer (offset + 1)) as [b|] eqn:Hb; [|discriminate].
  intros [= <-]. apply byteAt_range in Ha, Hb. lia.
Qed.

(** The TXT loop checks nothing but [offset < end]: it ends at or after
    [end_], it throws only for a length byte outside the buffer, and
    [end_ - offset] iterations are enough. *)
Lemma txt_loop_outcome (fuel : nat) (buffer : Buffer) (end_ : Z) :
  forall offset txts,
    offset <= end_ ->
    match txt_loop fuel buffer offset end_ txts with
    | Ok r => end_ <= r.2
    | Throw _ => exists pos, offset <= pos < end_ /\ byteAt buffer pos = None
    | OutOfFuel => (fuel < Z.to_nat (end_ - offset))%nat
    end.
Proof.
  induction fuel as [|fuel IH]; intros offset txts Hle; simpl.
  - destruct (Z.ltb_spec offset end_); simpl; lia.
  - destruct (Z.ltb_spec offset end_) as [Hlt|Hge]; simpl; [|lia].
    unfold readUInt8. destruct (byteAt buffer offset) as [txtLen|] eqn:Hb; simpl.
    + pose proof (byteAt_range _ _ _ Hb) as Hr.
      destruct (Z.le_gt_cases (offset + 1 + txtLen) end_) as [Hin|Hout].
      * specialize (IH (offset + 1 + txtLen) (txt_assign
            (toString buffer (offset + 1) (offset + 1 + txtLen)) txts) Hin).
        destruct (txt_loop fuel buffer (offset + 1 + txtLen) end_ _) as [r|e|].
        -- exact IH.
        -- destruct IH as (pos & Hpos & Hnone). exists pos. split; [lia|exact Hnone].
        -- lia.
      * destruct fuel as [|fuel']; simpl.
        -- replace (offset + 1 + txtLen <? end_) with false
             by (symmetry; apply Z.ltb_ge; lia). simpl. lia.
        -- replace (offset + 1 + txtLen <? end_) with false
             by (symmetry; apply Z.ltb_ge; lia). simpl. lia.
    + exists offset. split; [lia|exact Hb].
Qed.

(** The offset at which the TXT loop stops is [txt_cursor]: the loop ends
    there when it is at or after [end_], and throws there when it is
    before [end_], for a length byte that is not in the buffer. *)
Lemma txt_loop_cursor (fuel : nat) (buffer : Buffer) (end_ : Z) :
  forall offset txts,
    let stop := txt_cursor fuel buffer offset end_ in
    match txt_loop fuel buffer offset end_ txts with
    | Ok r => r.2 = stop /\ end_ <= stop
    | Throw _ => offset <= stop /\ stop < end_ /\ byteAt buffer stop = None
    | OutOfFuel => stop < end_
    end.
Proof.
  induction fuel as [|fuel IH]; intros offset txts; cbn [txt_loop txt_cursor]; cbv zeta.
  - destruct (Z.ltb_spec offset end_); simpl; lia.
  - destruct (Z.ltb_spec offset end_) as [Hlt|Hge]; [|simpl; lia].
    unfold readUInt8. destruct (byteAt buffer offset) as [txtLen|] eqn:Hb; cbn [bind].
    + pose proof (byteAt_range _ _ _ Hb) as Hr.
      specialize (IH (offset + 1 + txtLen)
                    (txt_assign (toString buffer (offset + 1) (offset + 1 + txtLen)) txts)).
      cbv zeta in IH.
      destruct (txt_loop fuel buffer (offset + 1 + txtLen) end_ _) as [r|e|];
        [exact IH| |exact IH].
      destruct IH as (Hle & Hstop & Hnone). split; [lia|]. split; assumption.
    + split; [lia|]. split; [exact Hlt|exact Hb].
Qed.

(** C7 (as the code has it).  A TXT record is not checked against its
    rdlength.  Once the name and the ten bytes of fields are read with
    type 16, everything is decided by the cursor of the loop, which
    starts at the rdata and moves from length byte to length byte while
    it is before the end of the rdata.  parseRecord returns exactly when
    that cursor gets to the end of the rdata or beyond, and the next
    offset of the record is then the cursor where it stopped -- beyond
    the end when the last sub-string crosses it; it throws exactly when
    the cursor stops before the end, at a length byte that is not in the
    buffer, and for nothing else; [rdlength] iterations suffice. *)
Theorem parseRecord_TXT_unchecked (fuel : nat) (buffer : Buffer) (offset : Z)
    (nameResult : NameResult) (cls ttl rdlength : Z) :
  readName fuel buffer offset = Ok nameResult ->
  readUInt16BE buffer (readBytes nameResult) = Ok 16 ->
  readUInt16BE buffer (readBytes nameResult + 2) = Ok cls ->
  readUInt32BE buffer (readBytes nameResult + 4) = Ok ttl ->
  readUInt16BE buffer (readBytes nameResult + 8) = Ok rdlength ->
  let rdataOffset := readBytes nameResult + 10 in
  let stop := txt_cursor fuel buffer rdataOffset (rdataOffset + rdlength) in
  match parseRecord fuel buffer offset with
  | Ok rec =>
      r_type rec = 16 /\ r_rdlength rec = rdlength /\
      r_offset rec = stop /\
      rdataOffset + rdlength <= r_offset rec
  | Throw _ =>
      rdataOffset <= stop < rdataOffset + rdlength /\ byteAt buffer stop = None
  | OutOfFuel =>
      stop < rdataOffset + rdlength /\ (fuel < Z.to_nat rdlength)%nat
  end.
Proof.
  intros Hnr Htype Hcls Httl Hlen rdataOffset stop.
  pose proof (readUInt16BE_range _ _ _ Hlen) as Hrange.
  unfold parseRecord. rewrite Hnr. simpl. rewrite Htype. simpl.
  rewrite Hcls. simpl.
  replace (readBytes nameResult + 2 + 2) with (readBytes nameResult + 4) by lia.
  rewrite Httl. simpl.
  replace (readBytes nameResult + 4 + 4) with (readBytes nameResult + 8) by lia.
  rewrite Hlen. simpl.
  replace (readBytes nameResult + 8 + 2) with rdataOffset by (unfold rdataOffset; lia).
  pose proof (txt_loop_outcome fuel buffer (rdataOffset + rdlength) rdataOffset ∅) as Hloop.
  pose proof (txt_loop_cursor fuel buffer (rdataOffset + rdlength) rdataOffset ∅) as Hstop.
  cbv zeta in Hstop. fold stop in Hstop.
  destruct (txt_loop fuel buffer rdataOffset (rdataOffset + rdlength) ∅) as [r|e|]; simpl.
  - destruct Hstop as [Hr Hend]. split; [reflexivity|]. split; [reflexivity|].
    split; [exact Hr|]. rewrite Hr. exact Hend.
  - destruct Hstop as (Hle & Hlt & Hnone). split; [lia|exact Hnone].
  - split; [exact Hstop|].
    replace rdlength with (rdataOffset + rdlength - rdataOffset) by lia. apply Hloop. lia.
Qed.

Lemma parseRecord_TXT_unchecked_witness :
  exists rec,
    parseRecord 1 txt_overshoot_record 0 = Ok rec /\
    r_type rec = 16 /\ r_rdlength rec = 3 /\
    r_offset rec = txt_cursor 1 txt_overshoot_record 11 (11 + 3) /\
    txt_cursor 1 txt_overshoot_record 11 (11 + 3) = 17 /\
    11 + 3 <= r_offset rec.
Proof.
  pose proof (parseRecord_TXT_unchecked 1 txt_overshoot_record 0
                {| name := ""; readBytes := 1 |} 1 60 3
                eq_refl eq_refl eq_refl eq_refl eq_refl) as H.
  cbv zeta in H.
  destruct (parseRecord 1 txt_overshoot_record 0) as [rec| |] eqn:E.
  - exists rec. split; [reflexivity|].
    destruct H as (Ht & Hl & Hs & Ho). split; [exact Ht|]. split; [exact Hl|].
    split; [exact Hs|]. split; [reflexivity|exact Ho].
  - vm_compute in E. discriminate E.
  - vm_compute in E. discriminate E.
Defined.

(** C7 as stated fails: the record whose one sub-string of 5 bytes crosses
    an rdlength of 3 is accepted, with the whole sub-string as a key and
    the end of the sub-string as next offset. *)
Lemma parseRecord_TXT_overshoot_accepted :
  parseRecord 1 txt_overshoot_record 0 =
    Ok (mkRecord "" 16 1 60 3 (RdTxt {[ "hello"%string := TxtTrue ]}) 17).
Proof. vm_compute. reflexivity. Qed.

(** ** parseRecord: the TXT mapping *)

Lemma substring_all (s : string) : String.substring 0 (String.length s) s = s.
Proof. induction s as [|c s IH]; simpl; [reflexivity|]. rewrite IH. reflexivity. Qed.

Lemma index_eq_cons (c : ascii) (s : string) :
  String.index 0 "=" (String c s) =
  if Ascii.eqb c "="%char then Some 0%nat
  else match String.index 0 "=" s with
       | Some n => Some (S n)
       | None => None
       end.
Proof.
  cbn [String.index String.prefix].
  destruct (ascii_dec "=" c) as [<-|Hne].
  - replace (String.prefix "" s) with true by (destruct s; reflexivity).
    reflexivity.
  - destruct (Ascii.eqb_spec c "="%char) as [->|_]; [contradiction|reflexivity].
Qed.

(** [indexOf('=')] and the two [substring] calls cut the text where
    [split_eq] does. *)
Lemma index_split_eq (s : string) :
  match split_eq s with
  | Some (key, value) =>
      exists i, String.index 0 "=" s = Some i /\
                String.substring 0 i s = key /\
                String.substring (S i) (String.length s - S i) s = value
  | None => String.index 0 "=" s = None
  end.
Proof.
  induction s as [|c s IH]; [reflexivity|].
  rewrite index_eq_cons. cbn [split_eq].
  destruct (Ascii.eqb c "="%char).
  - exists 0%nat. cbn [String.substring String.length].
    replace (S (String.length s) - 1)%nat with (String.length s) by lia.
    rewrite substring_all. auto.
  - destruct (split_eq s) as [[key value]|].
    + destruct IH as (i & -> & Hk & Hv). exists (S i).
      cbn [String.substring String.length]. rewrite Hk.
      split; [reflexivity|]. split; [reflexivity|].
      replace (S (String.length s) - S (S i))%nat with (String.length s - S i)%nat by lia.
      exact Hv.
    + rewrite IH. reflexivity.
Qed.

Lemma txt_assign_entry (txt : string) (txts : gmap string txt_value) :
  txt_assign txt txts = set_property (txt_entry txt).1 (txt_entry txt).2 txts.
Proof.
  unfold txt_assign, txt_entry. pose proof (index_split_eq txt) as H.
  destruct (split_eq txt) as [[key value]|].
  - destruct H as (i & -> & <- & <-). reflexivity.
  - rewrite H. reflexivity.
Qed.

Lemma txt_loop_substrings (fuel : nat) (buffer : Buffer) (end_ : Z) :
  forall offset txts r,
    txt_loop fuel buffer offset end_ txts = Ok r ->
    r.1 = foldl (fun acc txt => txt_assign txt acc) txts
            (txt_substrings fuel buffer offset end_).
Proof.
  induction fuel as [|fuel IH]; intros offset txts r; simpl.
  - destruct (offset <? end_); [discriminate|]. intros [= <-]. reflexivity.
  - destruct (offset <? end_); [|intros [= <-]; reflexivity].
    unfold readUInt8. destruct (byteAt buffer offset) as [txtLen|]; [|discriminate].
    simpl. intros H. apply IH in H. exact H.
Qed.

Lemma lookup_set_property (key k : string) (v : txt_value) (txts : gmap string txt_value) :
  key <> "__proto__"%string ->
  set_property k v txts !! key = if String.eqb k key then Some v else txts !! key.
Proof.
  intros Hkey. unfold set_property.
  destruct (String.eqb_spec k key) as [->|Hne].
  - destruct (String.eqb_spec key "__proto__") as [?|_]; [contradiction|].
    apply lookup_insert_eq.
  - destruct (String.eqb k "__proto__"); [reflexivity|].
    apply lookup_insert_ne. exact Hne.
Qed.

Lemma lookup_foldl_txt_assign (key : string) (txts0 : list string) :
  key <> "__proto__"%string ->
  forall txts : gmap string txt_value,
    foldl (fun acc txt => txt_assign txt acc) txts txts0 !! key =
    match last_entry key (txt_entry <$> txts0) with
    | Some v => Some v
    | None => txts !! key
    end.
Proof.
  intros Hkey. induction txts0 as [|txt rest IH]; intros txts; simpl; [reflexivity|].
  rewrite IH. clear IH. rewrite txt_assign_entry.
  destruct (txt_entry txt) as [k v]. simpl.
  destruct (last_entry key _); [reflexivity|].
  rewrite lookup_set_property by exact Hkey.
  destruct (String.eqb k key); reflexivity.
Qed.

(** C8 (with the printed bytes put right).  The object that parseRecord
    returns for a TXT record holds, under every key other than
    [__proto__], the value of the last sub-string with that key, where a
    sub-string is cut at its first [=] into key and string value and a
    sub-string without [=] is a key with the value [true]; under a key
    that no sub-string has it holds nothing.  The rdata 07 "ver=1.0"
    04 "flag" gives ver -> "1.0", flag -> true. *)
Theorem parseRecord_TXT_mapping :
  (forall (fuel : nat) (buffer : Buffer) (offset : Z) (rec : DnsRecord),
      parseRecord fuel buffer offset = Ok rec ->
      r_type rec = 16 ->
      exists nameResult txts,
        readName fuel buffer offset = Ok nameResult /\
        r_rdata rec = RdTxt txts /\
        let rdataOffset := readBytes nameResult + 10 in
        forall key : string,
          key <> "__proto__"%string ->
          txts !! key =
          last_entry key
            (txt_entry <$> txt_substrings fuel buffer rdataOffset
                             (rdataOffset + r_rdlength rec))) /\
  txt_entry "ver=1.0" = ("ver"%string, TxtString "1.0") /\
  txt_entry "flag" = ("flag"%string, TxtTrue) /\
  txt_loop 2 txt_rdata 0 13 ∅ =
    Ok ({[ "ver"%string := TxtString "1.0"; "flag"%string := TxtTrue ]}, 13) /\
  parseRecord 2 txt_record 0 =
    Ok (mkRecord "" 16 1 120 13
          (RdTxt {[ "ver"%string := TxtString "1.0"; "flag"%string := TxtTrue ]}) 24).
Proof.
  split; [|repeat split; vm_compute; reflexivity].
  intros fuel buffer offset rec H Htype.
  destruct (parseRecord_fields fuel buffer offset rec H) as (nr & Hnr & _).
  pose proof (parseRecord_rdata fuel buffer offset rec nr H Hnr) as Hrd.
  cbv zeta in Hrd. rewrite Htype in Hrd. simpl in Hrd.
  destruct Hrd as (txts & Hloop & Hrdata).
  exists nr, txts. split; [exact Hnr|]. split; [exact Hrdata|].
  intros rdataOffset key Hkey.
  apply txt_loop_substrings in Hloop. simpl in Hloop. rewrite Hloop.
  rewrite lookup_foldl_txt_assign by exact Hkey.
  destruct (last_entry key _); [reflexivity|]. apply lookup_empty.
Qed.

Lemma parseRecord_TXT_mapping_witness :
  parseRecord 3 txt_record_twice 0 =
    Ok (mkRecord "" 16 1 120 19
          (RdTxt {[ "ver"%string := TxtString "2"; "flag"%string := TxtTrue ]}) 30) /\
  txt_entry <$> txt_substrings 3 txt_record_twice 11 (11 + 19) =
    [("ver"%string, TxtString "1.0"); ("ver"%string, TxtString "2");
     ("flag"%string, TxtTrue)] /\
  exists nameResult txts,
    readName 3 txt_record_twice 0 = Ok nameResult /\
    RdTxt {[ "ver"%string := TxtString "2"; "flag"%string := TxtTrue ]} = RdTxt txts /\
    let rdataOffset := readBytes nameResult + 10 in
    forall key : string,
      key <> "__proto__"%string ->
      txts !! key =
      last_entry key
        (txt_entry <$> txt_substrings 3 txt_record_twice rdataOffset (rdataOffset + 19)).
Proof.
  assert (E : parseRecord 3 txt_record_twice 0 =
    Ok (mkRecord "" 16 1 120 19
          (RdTxt {[ "ver"%string := TxtString "2"; "flag"%string := TxtTrue ]}) 30))
    by (vm_compute; reflexivity).
  split; [exact E|]. split; [vm_compute; reflexivity|].
  exact (proj1 parseRecord_TXT_mapping 3%nat txt_record_twice 0 _ E eq_refl).
Defined.

(** C8 as stated fails twice.  The rdata as printed starts with the
    length byte 06: the loop reads "ver=1.", then takes the byte 30 as
    the next length, and ends at offset 56 with ver -> "1." and the key
    of the bytes 04 "flag".  And the sub-string "__proto__=x" leaves the
    object empty. *)
Lemma txt_loop_as_printed :
  txt_loop 2 txt_rdata_as_printed 0 13 ∅ =
    Ok ({[ "ver"%string := TxtString "1.";
           String "004" "flag" := TxtTrue ]}, 56) /\
  ({[ "ver"%string := TxtString "1."; String "004" "flag" := TxtTrue ]}
     : gmap string txt_value) <>
  {[ "ver"%string := TxtString "1.0"; "flag"%string := TxtTrue ]} /\
  txt_entry "__proto__=x" = ("__proto__"%string, TxtString "x") /\
  txt_loop 1 txt_rdata_proto 0 12 ∅ = Ok (∅, 12).
Proof.
  split; [vm_compute; reflexivity|]. split; [|split; vm_compute; reflexivity].
  intros H.
  assert (Hl : ({[ "ver"%string := TxtString "1."; String "004" "flag" := TxtTrue ]}
                  : gmap string txt_value) !! "ver"%string = Some (TxtString "1.0"))
    by (rewrite H; vm_compute; reflexivity).
  vm_compute in Hl. discriminate Hl.
Qed.

(** ** buildQuery and readName: the round trip *)

Lemma byte_val_of_Z (v : Z) : 0 <= v < 256 -> byte_val (byte_of_Z v) = v.
Proof.
  intros Hv. unfold byte_val, byte_of_Z.
  destruct (Byte.of_N (Z.to_N v)) as [b|] eqn:E.
  - apply Byte.to_of_N in E. lia.
  - apply Byte.of_N_None_iff in E. lia.
Qed.

Lemma length_Buffer_from (s : string) : length (Buffer_from s) = String.length s.
Proof.
  unfold Buffer_from, list_byte_of_string.
  induction s as [|c s IH]; simpl; [reflexivity|]. f_equal. exact IH.
Qed.

Lemma byteAt_app_r (pre rest : Buffer) (i : Z) :
  0 <= i ->
  byteAt (pre ++ rest) (Z.of_nat (length pre) + i) = byteAt rest i.
Proof.
  intros Hi. unfold byteAt.
  replace (Z.of_nat (length pre) + i <? 0) with false by (symmetry; apply Z.ltb_ge; lia).
  replace (i <? 0) with false by (symmetry; apply Z.ltb_ge; lia).
  replace (Z.to_nat (Z.of_nat (length pre) + i)) with (length pre + Z.to_nat i)%nat by lia.
  rewrite lookup_app_r by lia.
  replace (length pre + Z.to_nat i - length pre)%nat with (Z.to_nat i) by lia.
  reflexivity.
Qed.

Lemma byteAt_cons_0 (b : byte) (rest : Buffer) : byteAt (b :: rest) 0 = Some (byte_val b).
Proof. reflexivity. Qed.

Lemma slice_app_mid (pre mid post : Buffer) :
  slice (pre ++ mid ++ post) (Z.of_nat (length pre))
        (Z.of_nat (length pre) + Z.of_nat (length mid)) = mid.
Proof.
  unfold slice. rewrite Z.max_r by lia.
  replace (Z.to_nat (Z.of_nat (length pre))) with (length pre) by lia.
  rewrite drop_app_length.
  replace (Z.to_nat (Z.of_nat (length pre) + Z.of_nat (length mid) - Z.of_nat (length pre)))
    with (length mid) by lia.
  apply take_app_length.
Qed.

(** ASCII text is its own decoding. *)
Lemma utf8_run_ascii (l : list byte) :
  Forall (fun x => byte_val x < 128) l -> utf8_run utf8_initial l = l.
Proof.
  induction 1 as [|x l Hx _ IH]; [reflexivity|].
  cbn [utf8_run utf8_step utf8_initial u_needed]. unfold utf8_lead. cbv zeta.
  replace (byte_val x <? 128) with true by (symmetry; apply Z.ltb_lt; exact Hx).
  cbn [app]. fold utf8_initial. rewrite IH. reflexivity.
Qed.

Lemma byte_val_of_ascii (c : ascii) :
  byte_val (byte_of_ascii c) = Z.of_N (N_of_ascii c).
Proof.
  unfold byte_val. f_equal. apply Byte.to_of_N. symmetry. apply byte_of_ascii_via_N.
Qed.

Lemma is_ascii_bytes (s : string) :
  is_ascii s = true -> Forall (fun x => byte_val x < 128) (list_byte_of_string s).
Proof.
  induction s as [|c s IH]; [constructor|].
  cbn [is_ascii list_byte_of_string]. intros H.
  apply andb_true_iff in H as [Hc Hs]. apply Z.ltb_lt in Hc.
  constructor; [rewrite byte_val_of_ascii; exact Hc|apply IH; exact Hs].
Qed.

Lemma toString_ascii (part : string) :
  is_ascii part = true ->
  string_of_list_byte (utf8_text (Buffer_from part)) = part.
Proof.
  intros H. unfold utf8_text, Buffer_from.
  rewrite utf8_run_ascii by (apply is_ascii_bytes; exact H).
  apply string_of_list_byte_of_string.
Qed.

Lemma js_length_ascii (s : string) :
  is_ascii s = true -> js_length s = Z.of_nat (String.length s).
Proof.
  induction s as [|c s IH]; simpl; [reflexivity|].
  intros H. apply andb_true_iff in H as [Hc Hs]. unfold code_units.
  rewrite Hc, (IH Hs). lia.
Qed.

Lemma writeUInt8_alloc (v : Z) :
  0 <= v <= 255 -> writeUInt8 v 0 (alloc 1) = Ok [byte_of_Z v].
Proof.
  intros Hv. unfold writeUInt8.
  replace ((0 <=? v) && (v <=? 255)) with true; [reflexivity|].
  symmetry. apply andb_true_iff. split; [apply Z.leb_le|apply Z.leb_le]; lia.
Qed.

Lemma qname_loop_labels (parts : list string) :
  Forall query_label parts ->
  forall qnameBufferArray,
  exists result,
    qname_loop parts qnameBufferArray = Ok result /\
    concat result = concat qnameBufferArray ++ label_bytes parts.
Proof.
  induction 1 as [|part rest (Hne & Hlen & Hascii) _ IH]; intros acc; simpl.
  - exists acc. split; [reflexivity|]. rewrite app_nil_r. reflexivity.
  - destruct (String.eqb_spec part "") as [?|_]; [contradiction|].
    rewrite js_length_ascii by exact Hascii.
    rewrite writeUInt8_alloc by lia. simpl.
    destruct (IH (acc ++ [[byte_of_Z (Z.of_nat (String.length part))]; Buffer_from part]))
      as (result & -> & Hconcat).
    exists result. split; [reflexivity|]. rewrite Hconcat, concat_app. simpl.
    rewrite app_nil_r, <- app_assoc. reflexivity.
Qed.

(** Decoding the wire form of labels gives the labels back. *)
Lemma readName_loop_labels (parts : list string) :
  Forall query_label parts ->
  forall (pre post : Buffer) labels jumped originalOffset,
    readName_loop (S (length parts))
      (pre ++ label_bytes parts ++ byte_of_Z 0 :: post)
      (Z.of_nat (length pre)) labels jumped originalOffset =
    Ok {| name := join_dot (labels ++ parts);
          readBytes :=
            if jumped then originalOffset
            else Z.of_nat (length pre) + Z.of_nat (length (label_bytes parts)) + 1 |}.
Proof.
  induction 1 as [|part rest (Hne & Hlen & Hascii) _ IH];
    intros pre post labels jumped orig.
  - cbn [length label_bytes app readName_loop]. unfold readUInt8.
    replace (Z.of_nat (length pre)) with (Z.of_nat (length pre) + 0) at 1 by lia.
    rewrite byteAt_app_r, byteAt_cons_0 by lia.
    rewrite byte_val_of_Z by lia. simpl. rewrite app_nil_r.
    do 2 f_equal. destruct jumped; [reflexivity|lia].
  - assert (Hpos : (0 < String.length part)%nat).
    { destruct part; [contradiction|simpl; lia]. }
    set (len := Z.of_nat (String.length part)).
    change (length (part :: rest)) with (S (length rest)).
    cbn [label_bytes].
    rewrite <- app_comm_cons.
    rewrite readName_loop_S.
    unfold readUInt8 at 1.
    replace (Z.of_nat (length pre)) with (Z.of_nat (length pre) + 0) at 1 by lia.
    rewrite byteAt_app_r, byteAt_cons_0 by lia.
    rewrite byte_val_of_Z by (unfold len; lia). fold len. cbn [bind].
    replace (len =? 0) with false by (symmetry; apply Z.eqb_neq; unfold len; lia).
    change 192 with 0xC0. rewrite not_pointer_below_192 by (unfold len; lia).
    set (lenbyte := byte_of_Z len).
    assert (Hbuf : pre ++ lenbyte :: (Buffer_from part ++ label_bytes rest) ++ byte_of_Z 0 :: post =
                   (pre ++ [lenbyte]) ++ Buffer_from part ++
                   (label_bytes rest ++ byte_of_Z 0 :: post)).
    { rewrite <- !app_assoc. reflexivity. }
    assert (Hlabel : toString (pre ++ lenbyte :: (Buffer_from part ++ label_bytes rest)
                                 ++ byte_of_Z 0 :: post)
                       (Z.of_nat (length pre) + 1) (Z.of_nat (length pre) + 1 + len) = part).
    { rewrite Hbuf. unfold toString.
      replace (Z.of_nat (length pre) + 1) with (Z.of_nat (length (pre ++ [lenbyte])))
        by (rewrite length_app; simpl; lia).
      replace len with (Z.of_nat (length (Buffer_from part)))
        by (rewrite length_Buffer_from; reflexivity).
      rewrite slice_app_mid. apply toString_ascii. exact Hascii. }
    rewrite Hlabel.
    assert (Hbuf' : pre ++ lenbyte :: (Buffer_from part ++ label_bytes rest) ++ byte_of_Z 0 :: post =
                    (pre ++ lenbyte :: Buffer_from part) ++
                    label_bytes rest ++ byte_of_Z 0 :: post).
    { rewrite <- !app_assoc. reflexivity. }
    rewrite Hbuf'.
    replace (Z.of_nat (length pre) + 1 + len)
      with (Z.of_nat (length (pre ++ lenbyte :: Buffer_from part)))
      by (rewrite length_app; simpl; rewrite length_Buffer_from; unfold len; lia).
    rewrite IH. rewrite <- app_assoc. simpl.
    do 2 f_equal. destruct jumped; [reflexivity|].
    rewrite !length_app. simpl. rewrite length_Buffer_from. lia.
Qed.

Lemma join_split_dot (s : string) : join_dot (split_dot s) = s.
Proof.
  unfold join_dot. induction s as [|c s IH]; [reflexivity|].
  cbn [split_dot]. destruct (Ascii.eqb_spec c ".") as [->|_].
  - destruct (split_dot s) as [|part parts] eqn:E.
    + destruct s; simpl in E; [discriminate|].
      destruct (Ascii.eqb _ _); [discriminate|]. destruct (split_dot s); discriminate.
    + change (String.concat "." (EmptyString :: part :: parts))
        with (String "." (String.concat "." (part :: parts))).
      rewrite IH. reflexivity.
  - destruct (split_dot s) as [|part parts] eqn:E.
    + destruct s; simpl in E; [discriminate|].
      destruct (Ascii.eqb _ _); [discriminate|]. destruct (split_dot s); discriminate.
    + rewrite <- IH. destruct parts; reflexivity.
Qed.

Lemma writeUInt16BE_question (qtype qclass : Z) :
  0 <= qtype <= 65535 -> 0 <= qclass <= 65535 ->
  (let* question := writeUInt16BE qtype 0 (alloc 4) in
   writeUInt16BE qclass 2 question) =
  Ok [byte_of_Z (Z.shiftr qtype 8); byte_of_Z (Z.land qtype 255);
      byte_of_Z (Z.shiftr qclass 8); byte_of_Z (Z.land qclass 255)].
Proof.
  intros Ht Hc. unfold writeUInt16BE.
  replace ((0 <=? qtype) && (qtype <=? 65535)) with true
    by (symmetry; apply andb_true_iff; split; apply Z.leb_le; lia).
  replace ((0 <=? qclass) && (qclass <=? 65535)) with true
    by (symmetry; apply andb_true_iff; split; apply Z.leb_le; lia).
  reflexivity.
Qed.

Lemma u16_bytes (v : Z) :
  0 <= v <= 65535 ->
  byte_val (byte_of_Z (Z.shiftr v 8)) * 2 ^ 8 + byte_val (byte_of_Z (Z.land v 255)) = v.
Proof.
  intros Hv. rewrite Z.shiftr_div_pow2 by lia.
  change 255 with (Z.ones 8). rewrite Z.land_ones by lia.
  change (2 ^ 8) with 256.
  pose proof (Z.div_mod v 256). pose proof (Z.mod_pos_bound v 256).
  rewrite !byte_val_of_Z by lia. lia.
Qed.

Lemma readUInt16BE_app (pre : Buffer) (hi lo : byte) (post : Buffer) :
  readUInt16BE (pre ++ hi :: lo :: post) (Z.of_nat (length pre)) =
  Ok (byte_val hi * 2 ^ 8 + byte_val lo).
Proof.
  unfold readUInt16BE.
  replace (Z.of_nat (length pre)) with (Z.of_nat (length pre) + 0) at 1 by lia.
  rewrite !byteAt_app_r by lia. reflexivity.
Qed.

(** The twelve header bytes buildQuery writes. *)
Lemma encode_query_header (serviceQuery : string) (qtype qclass : Z) :
  encode_query serviceQuery qtype qclass =
  let* qnameBufferArray := qname_loop (split_dot serviceQuery) [] in
  let* question :=
    (let* question := writeUInt16BE qtype 0 (alloc 4) in
     writeUInt16BE qclass 2 question) in
  Ok (bytes [0; 0; 0; 0; 0; 1; 0; 0; 0; 0; 0; 0]
        ++ concat (qnameBufferArray ++ [[byte_of_Z 0]]) ++ question).
Proof.
  unfold encode_query.
  destruct (qname_loop (split_dot serviceQuery) []) as [arr| |]; [|reflexivity..].
  cbn [bind].
  destruct (writeUInt16BE qtype 0 (alloc 4)) as [q| |]; [|reflexivity..].
  cbn [bind].
  destruct (writeUInt16BE qclass 2 q) as [q'| |]; [|reflexivity..].
  cbn [bind concat]. rewrite app_nil_r. reflexivity.
Qed.

(** The round trip for a name whose query carries the labels [parts]. *)
Lemma query_round_trip_parts (qname : string) (parts : list string)
    (qtype qclass : Z) (fuel : nat) :
  Forall query_label parts ->
  (exists result,
     qname_loop (split_dot qname) [] = Ok result /\ concat result = label_bytes parts) ->
  join_dot parts = qname ->
  0 <= qtype <= 65535 ->
  0 <= qclass <= 65535 ->
  (length parts < fuel)%nat ->
  exists query question,
    encode_query qname qtype qclass = Ok query /\
    readName fuel query 12 = Ok question /\
    name question = qname /\
    readUInt16BE query (readBytes question) = Ok qtype /\
    readUInt16BE query (readBytes question + 2) = Ok qclass.
Proof.
  intros Hlabels (arr & Harr & Hconcat) Hjoin Ht Hc Hfuel.
  set (header := bytes [0; 0; 0; 0; 0; 1; 0; 0; 0; 0; 0; 0]).
  set (t1 := byte_of_Z (Z.shiftr qtype 8)). set (t2 := byte_of_Z (Z.land qtype 255)).
  set (c1 := byte_of_Z (Z.shiftr qclass 8)). set (c2 := byte_of_Z (Z.land qclass 255)).
  set (labels := label_bytes parts) in *.
  exists (header ++ labels ++ byte_of_Z 0 :: [t1; t2; c1; c2]).
  exists {| name := qname;
            readBytes := Z.of_nat (length header) + Z.of_nat (length labels) + 1 |}.
  split; [|split; [|split; [|split]]].
  - rewrite encode_query_header, Harr. cbn [bind].
    rewrite writeUInt16BE_question by assumption. cbn [bind].
    rewrite concat_app, Hconcat. simpl. rewrite <- app_assoc. reflexivity.
  - unfold readName. change 12 with (Z.of_nat (length header)).
    pose proof (readName_loop_labels parts Hlabels header [t1; t2; c1; c2] [] false
                  (Z.of_nat (length header))) as Hloop.
    fold labels in Hloop. change ([] ++ parts) with parts in Hloop.
    rewrite Hjoin in Hloop.
    destruct (readName_loop_fuel (S (length parts)) fuel
                (header ++ labels ++ byte_of_Z 0 :: [t1; t2; c1; c2]) ltac:(lia)
                (Z.of_nat (length header)) [] false (Z.of_nat (length header)))
      as [Hout|Hsame].
    + rewrite Hloop in Hout. discriminate Hout.
    + rewrite Hsame. exact Hloop.
  - reflexivity.
  - cbn [readBytes].
    replace (header ++ labels ++ byte_of_Z 0 :: [t1; t2; c1; c2])
      with ((header ++ labels ++ [byte_of_Z 0]) ++ t1 :: t2 :: [c1; c2])
      by (rewrite <- !app_assoc; reflexivity).
    replace (Z.of_nat (length header) + Z.of_nat (length labels) + 1)
      with (Z.of_nat (length (header ++ labels ++ [byte_of_Z 0])))
      by (rewrite !length_app; simpl; lia).
    rewrite readUInt16BE_app. f_equal. apply u16_bytes. exact Ht.
  - cbn [readBytes].
    replace (header ++ labels ++ byte_of_Z 0 :: [t1; t2; c1; c2])
      with ((header ++ labels ++ [byte_of_Z 0; t1; t2]) ++ c1 :: c2 :: [])
      by (rewrite <- !app_assoc; reflexivity).
    replace (Z.of_nat (length header) + Z.of_nat (length labels) + 1 + 2)
      with (Z.of_nat (length (header ++ labels ++ [byte_of_Z 0; t1; t2])))
      by (rewrite !length_app; simpl; lia).
    rewrite readUInt16BE_app. f_equal. apply u16_bytes. exact Hc.
Qed.

(** C9 (for ASCII labels).  A name whose labels are not empty, ASCII and
    at most 63 bytes long (or the name without labels), with a type and a
    class of 16 bits, comes back from the question section of its query:
    readName at offset 12 returns the name, and the two big-endian 16-bit
    fields after it are the type and the class. *)
Theorem query_round_trip (qname : string) (qtype qclass : Z) :
  qname = EmptyString \/ Forall query_label (split_dot qname) ->
  0 <= qtype <= 65535 ->
  0 <= qclass <= 65535 ->
  exists query question,
    encode_query qname qtype qclass = Ok query /\
    readName (S (length (split_dot qname))) query 12 = Ok question /\
    name question = qname /\
    readUInt16BE query (readBytes question) = Ok qtype /\
    readUInt16BE query (readBytes question + 2) = Ok qclass.
Proof.
  intros [->|Hlabels] Ht Hc.
  - apply (query_round_trip_parts EmptyString [] qtype qclass); try assumption.
    + constructor.
    + exists []. split; reflexivity.
    + reflexivity.
    + simpl. lia.
  - apply (query_round_trip_parts qname (split_dot qname) qtype qclass); try assumption.
    + destruct (qname_loop_labels (split_dot qname) Hlabels []) as (arr & Harr & Hconcat).
      exists arr. split; [exact Harr|exact Hconcat].
    + apply join_split_dot.
    + lia.
Qed.

Lemma query_round_trip_witness :
  Forall query_label (split_dot "_smart_ip._tcp.local") /\
  exists query question,
    encode_query "_smart_ip._tcp.local" 12 1 = Ok query /\
    readName (S (length (split_dot "_smart_ip._tcp.local"))) query 12 = Ok question /\
    name question = "_smart_ip._tcp.local"%string /\
    readUInt16BE query (readBytes question) = Ok 12 /\
    readUInt16BE query (readBytes question + 2) = Ok 1.
Proof.
  assert (H : Forall query_label (split_dot "_smart_ip._tcp.local")).
  { repeat constructor; try discriminate; simpl; lia. }
  split; [exact H|].
  apply (query_round_trip "_smart_ip._tcp.local" 12 1 (or_intror H)); lia.
Defined.

(** C9 as stated fails outside ASCII.  The label U+00E9 is two bytes long
    but buildQuery writes its [length], 1, before it; readName then takes
    the second byte, A9, for a length and runs off the buffer. *)
Lemma query_round_trip_non_ascii :
  String.length e_acute = 2%nat /\
  encode_query e_acute 12 1 =
    Ok (bytes [0; 0; 0; 0; 0; 1; 0; 0; 0; 0; 0; 0;  1; 0xC3; 0xA9;  0;  0; 12; 0; 1]) /\
  readName 3 (bytes [0; 0; 0; 0; 0; 1; 0; 0; 0; 0; 0; 0;  1; 0xC3; 0xA9;  0;  0; 12; 0; 1]) 12
    = Throw RangeError.
Proof. repeat split; vm_compute; reflexivity. Qed.

(** ** Decoding a truncated message *)

Lemma sim_bind {A B : Type} (R : A -> A -> Prop) (R' : B -> B -> Prop)
    (p m : outcome A) (k k' : A -> outcome B) :
  sim R p m ->
  (forall a a', p = Ok a -> R a a' -> sim R' (k a) (k' a')) ->
  sim R' (bind p k) (bind m k').
Proof.
  intros Hpm Hk. destruct p as [a|e|]; simpl in *.
  - destruct Hpm as (a' & -> & Ha). simpl. apply Hk; [reflexivity|exact Ha].
  - exact I.
  - rewrite Hpm. reflexivity.
Qed.

Lemma sim_eq_bind {A B : Type} (R' : B -> B -> Prop)
    (p m : outcome A) (k k' : A -> outcome B) :
  sim eq p m ->
  (forall a, p = Ok a -> sim R' (k a) (k' a)) ->
  sim R' (bind p k) (bind m k').
Proof.
  intros Hpm Hk. destruct p as [a|e|]; simpl in *.
  - destruct Hpm as (a' & -> & <-). simpl. apply Hk. reflexivity.
  - exact I.
  - rewrite Hpm. reflexivity.
Qed.

Lemma sim_weaken {A : Type} (R R' : A -> A -> Prop) (p m : outcome A) :
  sim R p m -> (forall a a', R a a' -> R' a a') -> sim R' p m.
Proof.
  intros H HR. destruct p as [a|e|]; simpl in *; [|exact I|exact H].
  destruct H as (a' & -> & Ha). eauto.
Qed.

Section Truncation.

Variable message : Buffer.
Variable b : nat.

Local Abbreviation cut := (take b message).

Lemma byteAt_cut (i v : Z) :
  byteAt cut i = Some v -> byteAt message i = Some v /\ 0 <= i < Z.of_nat b.
Proof.
  unfold byteAt. destruct (Z.ltb_spec i 0) as [|Hi]; [discriminate|].
  destruct (cut !! Z.to_nat i) as [x|] eqn:E; [|discriminate].
  apply lookup_take_Some in E as [E Hlt]. rewrite E. simpl.
  intros [= <-]. split; [reflexivity|lia].
Qed.

Lemma byteAt_cut_None (i : Z) : Z.of_nat b <= i -> byteAt cut i = None.
Proof.
  intros Hi. destruct (byteAt cut i) as [v|] eqn:E; [|reflexivity].
  apply byteAt_cut in E. lia.
Qed.

Lemma slice_cut (start end_ : Z) :
  end_ <= Z.of_nat b -> slice cut start end_ = slice message start end_.
Proof.
  intros He. unfold slice.
  destruct (Nat.le_gt_cases (Z.to_nat start) b) as [Hle|Hgt].
  - replace b with (Z.to_nat start + (b - Z.to_nat start))%nat at 1 by lia.
    rewrite <- take_drop_commute, take_take. f_equal. lia.
  - replace (Z.to_nat (end_ - Z.max 0 start)) with 0%nat by lia. reflexivity.
Qed.

Lemma slice_cut_min (start end_ : Z) :
  0 <= start -> slice cut start end_ = slice message start (Z.min end_ (Z.of_nat b)).
Proof.
  intros Hs. unfold slice. rewrite Z.max_r by exact Hs.
  destruct (Nat.le_gt_cases (Z.to_nat start) b) as [Hle|Hgt].
  - replace b with (Z.to_nat start + (b - Z.to_nat start))%nat at 1 by lia.
    rewrite <- take_drop_commute, take_take. f_equal. lia.
  - rewrite drop_ge by (rewrite length_take; lia).
    replace (Z.to_nat (Z.min end_ (Z.of_nat b) - start)) with 0%nat by lia.
    rewrite take_0. apply take_nil.
Qed.

Lemma readUInt8_cut (offset : Z) :
  sim eq (readUInt8 cut offset) (readUInt8 message offset).
Proof.
  unfold readUInt8. destruct (byteAt cut offset) as [v|] eqn:E; simpl; [|exact I].
  apply byteAt_cut in E as [-> _]. eauto.
Qed.

Lemma readUInt16BE_cut (offset : Z) :
  sim eq (readUInt16BE cut offset) (readUInt16BE message offset).
Proof.
  unfold readUInt16BE.
  destruct (byteAt cut offset) as [v|] eqn:E; simpl; [|exact I].
  destruct (byteAt cut (offset + 1)) as [w|] eqn:E'; simpl; [|exact I].
  apply byteAt_cut in E as [-> _]. apply byteAt_cut in E' as [-> _]. eauto.
Qed.

Lemma readUInt32BE_cut (offset : Z) :
  sim eq (readUInt32BE cut offset) (readUInt32BE message offset).
Proof.
  unfold readUInt32BE.
  destruct (byteAt cut offset) as [v0|] eqn:E0; simpl; [|exact I].
  destruct (byteAt cut (offset + 3)) as [v3|] eqn:E3; simpl; [|exact I].
  destruct (byteAt cut (offset + 1)) as [v1|] eqn:E1; simpl; [|exact I].
  destruct (byteAt cut (offset + 2)) as [v2|] eqn:E2; simpl; [|exact I].
  apply byteAt_cut in E0 as [-> _]. apply byteAt_cut in E1 as [-> _].
  apply byteAt_cut in E2 as [-> _]. apply byteAt_cut in E3 as [-> _]. eauto.
Qed.

Lemma readUInt8_cut_bound (offset v : Z) :
  readUInt8 cut offset = Ok v -> 0 <= offset < Z.of_nat b.
Proof. intros H. apply readUInt8_Ok, byteAt_cut in H. tauto. Qed.

Lemma readUInt16BE_cut_bound (offset v : Z) :
  readUInt16BE cut offset = Ok v -> 0 <= offset /\ offset + 2 <= Z.of_nat b.
Proof.
  unfold readUInt16BE.
  destruct (byteAt cut offset) as [x|] eqn:E; [|discriminate].
  destruct (byteAt cut (offset + 1)) as [y|] eqn:E'; [|discriminate].
  apply byteAt_cut in E, E'. lia.
Qed.

(** A name decoded from the truncated message is the name decoded from
    the whole message: a label cut short is followed by a read past the
    cut. *)
Lemma readName_loop_cut (fuel : nat) :
  forall offset labels jumped originalOffset,
    sim eq (readName_loop fuel cut offset labels jumped originalOffset)
           (readName_loop fuel message offset labels jumped originalOffset).
Proof.
  induction fuel as [|fuel IH]; intros offset labels jumped orig; [reflexivity|].
  rewrite !readName_loop_S.
  apply sim_eq_bind; [apply readUInt8_cut|]. intros len Hlen.
  destruct (len =? 0); [simpl; eauto|].
  destruct (Z.land len 192 =? 192).
  - apply sim_eq_bind; [apply readUInt8_cut|]. intros low _. apply IH.
  - destruct (Z.le_gt_cases (offset + 1 + len) (Z.of_nat b)) as [Hin|Hout].
    + unfold toString. rewrite slice_cut by exact Hin. apply IH.
    + destruct fuel as [|fuel']; [reflexivity|].
      rewrite readName_loop_S. unfold readUInt8 at 1.
      rewrite byteAt_cut_None by lia. exact I.
Qed.

Lemma readName_cut (fuel : nat) (offset : Z) :
  sim eq (readName fuel cut offset) (readName fuel message offset).
Proof. apply readName_loop_cut. Qed.

(** The bytes up to [readBytes] were read. *)
Lemma readName_loop_readBytes_bound (fuel : nat) (buffer : Buffer) :
  forall offset labels originalOffset r,
    readName_loop fuel buffer offset labels false originalOffset = Ok r ->
    readBytes r <= Z.of_nat (length buffer).
Proof.
  induction fuel as [|fuel IH]; intros offset labels orig r; [discriminate|].
  rewrite readName_loop_S. intros H.
  apply bind_Ok in H as (len & Hlen & H).
  apply readUInt8_Ok in Hlen.
  assert (Hoff : 0 <= offset < Z.of_nat (length buffer)).
  { apply byteAt_Some_iff. eauto. }
  destruct (len =? 0).
  - injection H as <-. simpl. lia.
  - destruct (Z.land len 192 =? 192).
    + apply bind_Ok in H as (low & Hlow & H). apply readUInt8_Ok in Hlow.
      assert (0 <= offset + 1 < Z.of_nat (length buffer))
        by (apply byteAt_Some_iff; eauto).
      apply readName_loop_jumped in H. simpl in H. lia.
    + eauto.
Qed.

(** [readBytes] is past the offset the name starts at. *)
Lemma readName_loop_readBytes_lower (fuel : nat) (buffer : Buffer) :
  forall offset labels originalOffset r,
    readName_loop fuel buffer offset labels false originalOffset = Ok r ->
    offset + 1 <= readBytes r.
Proof.
  induction fuel as [|fuel IH]; intros offset labels orig r; [discriminate|].
  rewrite readName_loop_S. intros H.
  apply bind_Ok in H as (len & Hlen & H).
  apply readUInt8_Ok, byteAt_range in Hlen.
  destruct (len =? 0).
  - injection H as <-. simpl. lia.
  - destruct (Z.land len 192 =? 192).
    + apply bind_Ok in H as (low & _ & H).
      apply readName_loop_jumped in H. simpl in H. lia.
    + apply IH in H. lia.
Qed.

Lemma questions_loop_lower (n fuel : nat) (buffer : Buffer) :
  forall offset offset',
    questions_loop n fuel buffer offset = Ok offset' -> offset <= offset'.
Proof.
  induction n as [|n IH]; intros offset offset'; simpl.
  - intros [= <-]. lia.
  - intros H. apply bind_Ok in H as (res & Hres & H).
    apply readName_loop_readBytes_lower in Hres. apply IH in H. lia.
Qed.

Lemma readName_cut_bound (fuel : nat) (offset : Z) (r : NameResult) :
  readName fuel cut offset = Ok r ->
  0 <= offset < Z.of_nat b /\ readBytes r <= Z.of_nat b.
Proof.
  intros H. split.
  - destruct fuel as [|fuel]; [discriminate|].
    unfold readName in H. rewrite readName_loop_S in H.
    apply bind_Ok in H as (len & Hlen & _).
    apply readUInt8_cut_bound in Hlen. exact Hlen.
  - apply readName_loop_readBytes_bound in H. rewrite length_take in H. lia.
Qed.

Lemma txt_loop_past_cut (fuel : nat) (end_ offset : Z)
    (txts' txts : gmap string txt_value) :
  Z.of_nat b < offset ->
  sim (txt_rel b) (txt_loop fuel cut offset end_ txts')
              (txt_loop fuel message offset end_ txts).
Proof.
  intros Hpast. destruct fuel as [|fuel]; simpl.
  - destruct (offset <? end_); [reflexivity|].
    simpl. eexists; split; [reflexivity|]. split; simpl; [reflexivity|lia].
  - destruct (offset <? end_).
    + unfold readUInt8 at 1. rewrite byteAt_cut_None by lia. exact I.
    + simpl. eexists; split; [reflexivity|]. split; simpl; [reflexivity|lia].
Qed.

Lemma txt_loop_cut (fuel : nat) (end_ : Z) :
  forall offset txts,
    sim (txt_rel b) (txt_loop fuel cut offset end_ txts)
                (txt_loop fuel message offset end_ txts).
Proof.
  induction fuel as [|fuel IH]; intros offset txts; simpl.
  - destruct (offset <? end_); [reflexivity|].
    simpl. eexists; split; [reflexivity|]. split; reflexivity.
  - destruct (offset <? end_).
    + apply sim_eq_bind; [apply readUInt8_cut|]. intros txtLen _.
      destruct (Z.le_gt_cases (offset + 1 + txtLen) (Z.of_nat b)) as [Hin|Hout].
      * unfold toString. rewrite slice_cut by exact Hin. apply IH.
      * apply txt_loop_past_cut. exact Hout.
    + simpl. eexists; split; [reflexivity|]. split; reflexivity.
Qed.

Lemma a_loop_cut (n : nat) :
  forall offset i ipBytes,
    sim eq (a_loop n cut offset i ipBytes) (a_loop n message offset i ipBytes).
Proof.
  induction n as [|n IH]; intros offset i ipBytes; simpl; [eauto|].
  apply sim_eq_bind; [apply readUInt8_cut|]. intros v _. apply IH.
Qed.

Lemma a_loop_cut_bound (n : nat) :
  forall offset i ipBytes r,
    a_loop n cut offset i ipBytes = Ok r ->
    (0 < n)%nat ->
    offset + i + Z.of_nat n <= Z.of_nat b.
Proof.
  induction n as [|n IH]; intros offset i ipBytes r H Hn; [lia|].
  simpl in H. apply bind_Ok in H as (v & Hv & H).
  apply readUInt8_cut_bound in Hv.
  destruct n as [|n']; [lia|].
  apply IH in H; lia.
Qed.

(** The length bytes of a TXT rdata that still parses are before the
    cut. *)
Lemma txt_loop_cut_positions (fuel : nat) (end_ : Z) :
  forall offset txts r,
    txt_loop fuel cut offset end_ txts = Ok r ->
    Forall (fun pos => pos < Z.of_nat b) (txt_length_positions fuel message offset end_).
Proof.
  induction fuel as [|fuel IH]; intros offset txts r; simpl; [constructor|].
  destruct (offset <? end_); [|constructor].
  intros H. apply bind_Ok in H as (txtLen & Hlen & H).
  apply readUInt8_Ok in Hlen. apply byteAt_cut in Hlen as [-> Hpos].
  constructor; [lia|]. eauto.
Qed.

(** The object of a TXT rdata that still parses holds the sub-strings
    of the whole message, each decoded from its span up to the cut. *)
Lemma txt_loop_cut_clamped (fuel : nat) (end_ : Z) :
  forall offset txts r,
    0 <= offset ->
    txt_loop fuel cut offset end_ txts = Ok r ->
    r.1 = foldl (fun acc txt => txt_assign txt acc) txts
            ((fun span => toString message span.1 (Z.min span.2 (Z.of_nat b)))
               <$> txt_spans fuel message offset end_).
Proof.
  induction fuel as [|fuel IH]; intros offset txts r Hoff; cbn [txt_loop txt_spans].
  - destruct (offset <? end_); [discriminate|]. intros [= <-]. reflexivity.
  - destruct (offset <? end_); [|intros [= <-]; reflexivity].
    intros H. apply bind_Ok in H as (txtLen & Hlen & H).
    apply readUInt8_Ok in Hlen. pose proof (byteAt_range _ _ _ Hlen) as Hrange.
    apply byteAt_cut in Hlen as [-> _].
    apply IH in H; [|lia]. rewrite H. cbn [fmap list_fmap foldl fst snd].
    unfold toString at 1. rewrite slice_cut_min by lia. reflexivity.
Qed.

Lemma parseRecord_cut_rel (fuel : nat) (start : Z) :
  sim (fun rec' rec =>
         same_fields rec' rec /\
         (r_offset rec' <= Z.of_nat b -> rec' = rec) /\
         exists nameResult,
           readName fuel message start = Ok nameResult /\
           cut_spares fuel message rec (readBytes nameResult + 10) (Z.of_nat b) /\
           r_rdata rec' =
             clamped_rdata fuel message rec (readBytes nameResult + 10) (Z.of_nat b))
      (parseRecord fuel cut start) (parseRecord fuel message start).
Proof.
  unfold parseRecord.
  apply sim_eq_bind; [apply readName_cut|]. intros nr Hnr.
  assert (Hname : readName fuel message start = Ok nr).
  { pose proof (readName_cut fuel start) as Hsim. rewrite Hnr in Hsim.
    destruct Hsim as (nr' & Hm & <-). exact Hm. }
  apply sim_eq_bind; [apply readUInt16BE_cut|]. intros type Htype.
  apply sim_eq_bind; [apply readUInt16BE_cut|]. intros cls Hcls.
  apply sim_eq_bind; [apply readUInt32BE_cut|]. intros ttl Httl.
  apply sim_eq_bind; [apply readUInt16BE_cut|]. intros rdlength Hlen.
  pose proof (readUInt16BE_cut_bound _ _ Hlen) as Hfields.
  pose proof (readUInt16BE_range _ _ _ Hlen) as Hrange.
  replace (readBytes nr + 2 + 2 + 4 + 2) with (readBytes nr + 10) by lia.
  set (o := readBytes nr + 10) in *.
  assert (Ho : o <= Z.of_nat b) by (unfold o; lia).
  assert (Ho0 : 0 <= o) by (unfold o; lia).
  clear Hnr Htype Hcls Httl Hlen Hfields.
  destruct (type =? 12) eqn:E12.
  { apply Z.eqb_eq in E12.
    apply sim_eq_bind; [apply readName_cut|]. intros t Ht.
    simpl. eexists. split; [reflexivity|].
    split; [|split; [reflexivity|exists nr; split; [exact Hname|split]]].
    - unfold same_fields. simpl. tauto.
    - unfold cut_spares. simpl. fold o.
      split; [lia|]. split; [lia|]. split; [|split; lia].
      intros _ target Htarget.
      pose proof (readName_cut fuel o) as Hsim. rewrite Ht in Hsim.
      destruct Hsim as (t' & Hm & <-). rewrite Hm in Htarget. injection Htarget as <-.
      apply readName_cut_bound in Ht. lia.
    - unfold clamped_rdata. simpl. rewrite E12. reflexivity. }
  destruct (type =? 33) eqn:E33.
  { apply Z.eqb_eq in E33.
    apply sim_eq_bind; [apply readUInt16BE_cut|]. intros priority _.
    apply sim_eq_bind; [apply readUInt16BE_cut|]. intros weight _.
    apply sim_eq_bind; [apply readUInt16BE_cut|]. intros port _.
    apply sim_eq_bind; [apply readName_cut|]. intros t Ht.
    simpl. eexists. split; [reflexivity|].
    split; [|split; [reflexivity|exists nr; split; [exact Hname|split]]].
    - unfold same_fields. simpl. tauto.
    - unfold cut_spares. simpl. fold o.
      split; [lia|]. split; [lia|]. split; [lia|]. split; [|lia].
      intros _ target Htarget.
      pose proof (readName_cut fuel (o + 6)) as Hsim. rewrite Ht in Hsim.
      destruct Hsim as (t' & Hm & <-). rewrite Hm in Htarget. injection Htarget as <-.
      apply readName_cut_bound in Ht. lia.
    - unfold clamped_rdata. simpl. rewrite E33. reflexivity. }
  destruct (type =? 16) eqn:E16.
  { apply Z.eqb_eq in E16. pose proof E12 as N12. pose proof E33 as N33.
    apply Z.eqb_neq in E12, E33.
    eapply sim_bind; [apply txt_loop_cut|].
    intros [txts' off'] [txts off] Hloop [Hoff Heq].
    simpl in *. subst off'. eexists. split; [reflexivity|].
    split; [|split; [|exists nr; split; [exact Hname|split]]].
    - unfold same_fields. simpl. repeat split; try reflexivity. lia.
    - simpl. intros Hle. apply Heq in Hle. injection Hle as ->. reflexivity.
    - unfold cut_spares. simpl. fold o.
      split; [lia|]. split; [lia|]. split; [lia|]. split; [lia|].
      intros _. eapply txt_loop_cut_positions. exact Hloop.
    - unfold clamped_rdata. simpl. fold o. rewrite N12, N33. subst type. simpl.
      f_equal. apply (txt_loop_cut_clamped fuel (o + rdlength) o ∅ _ Ho0 Hloop). }
  destruct (type =? 1) eqn:E1.
  { apply Z.eqb_eq in E1.
    apply sim_eq_bind; [apply a_loop_cut|]. intros ipBytes Hip.
    simpl. eexists. split; [reflexivity|].
    split; [|split; [reflexivity|exists nr; split; [exact Hname|split]]].
    - unfold same_fields. simpl. tauto.
    - unfold cut_spares. simpl. fold o.
      split; [lia|]. split; [|repeat split; lia].
      intros _. destruct (Z.eq_dec rdlength 0) as [->|Hnz]; [lia|].
      apply a_loop_cut_bound in Hip; lia.
    - unfold clamped_rdata. simpl. rewrite E1, !orb_true_r. reflexivity. }
  pose proof E12 as N12. pose proof E33 as N33. pose proof E16 as N16. pose proof E1 as N1.
  apply Z.eqb_neq in E12, E33, E16, E1.
  simpl. eexists. split; [reflexivity|].
  split; [|split; [|exists nr; split; [exact Hname|split]]].
  - unfold same_fields. simpl. repeat split; try reflexivity. lia.
  - simpl. intros Hle. rewrite slice_cut by exact Hle. reflexivity.
  - unfold cut_spares. simpl. fold o. repeat split; lia.
  - unfold clamped_rdata. simpl. fold o. rewrite N12, N33, N16, N1. simpl.
    rewrite slice_cut_min by exact Ho0. reflexivity.
Qed.

(** A record parsed from the truncated message is the record parsed from
    the whole message, up to rdata that runs past the cut. *)
Lemma parseRecord_cut (fuel : nat) (start : Z) :
  sim (record_rel fuel message b start)
      (parseRecord fuel cut start) (parseRecord fuel message start).
Proof.
  pose proof (parseRecord_cut_rel fuel start) as H.
  destruct (parseRecord fuel cut start) as [rec'|e|]; simpl in *; [|exact I|exact H].
  destruct H as (rec & Hm & Hsame & Heq & nr & Hnr & Hspares & Hrdata).
  exists rec. split; [exact Hm|]. split; [exact Hsame|]. split; [exact Heq|].
  exists nr. auto.
Qed.

Lemma parseRecord_past_cut (fuel : nat) (start : Z) :
  Z.of_nat b <= start ->
  forall R, sim R (parseRecord fuel cut start) (parseRecord fuel message start).
Proof.
  intros Hpast R. unfold parseRecord, readName.
  destruct fuel as [|fuel]; [reflexivity|].
  rewrite readName_loop_S. unfold readUInt8 at 1.
  rewrite byteAt_cut_None by exact Hpast. exact I.
Qed.

Lemma questions_loop_cut (fuel n : nat) :
  forall offset,
    sim eq (questions_loop n fuel cut offset) (questions_loop n fuel message offset).
Proof.
  induction n as [|n IH]; intros offset; simpl; [eauto|].
  apply sim_eq_bind; [apply readName_cut|]. intros res _. apply IH.
Qed.

Lemma next_start_cons (offset : Z) (rec : DnsRecord) (init : list DnsRecord) :
  next_start offset (rec :: init) = next_start (r_offset rec) init.
Proof. unfold next_start. rewrite last_cons. destruct (last init); reflexivity. Qed.

(** The records parsed from the truncated message are those parsed from
    the whole message, up to the rdata of the last one: a record that
    is not the last is followed by a read at its next offset, which
    places the whole record before the cut. *)
Lemma records_loop_cut (fuel n : nat) :
  forall offset records,
    sim (fun recs' recs =>
           exists new' new,
             recs' = records ++ new' /\ recs = records ++ new /\
             differ_last fuel message b offset new' new)
        (records_loop n fuel cut offset records)
        (records_loop n fuel message offset records).
Proof.
  induction n as [|n IH]; intros offset records; simpl.
  - eexists. split; [reflexivity|]. exists [], []. rewrite app_nil_r.
    split; [reflexivity|]. split; [reflexivity|]. left. split; reflexivity.
  - eapply sim_bind; [apply parseRecord_cut|].
    intros rec' rec _ Hrel.
    assert (Hoff : r_offset rec' = r_offset rec)
      by (destruct Hrel as (Hsame & _); unfold same_fields in Hsame; tauto).
    destruct (Z.le_gt_cases (r_offset rec') (Z.of_nat b)) as [Hin|Hout].
    + assert (rec' = rec) by (destruct Hrel as (_ & Heq & _); auto). subst rec'.
      eapply sim_weaken; [apply IH|].
      intros recs' recs (new' & new & -> & -> & Hnew).
      exists (rec :: new'), (rec :: new).
      rewrite <- !app_assoc. split; [reflexivity|]. split; [reflexivity|].
      destruct Hnew as [[-> ->]|(init & r' & r & -> & -> & Hlast)].
      * right. exists [], rec, rec. split; [reflexivity|]. split; [reflexivity|].
        exact Hrel.
      * right. exists (rec :: init), r', r.
        split; [reflexivity|]. split; [reflexivity|].
        rewrite next_start_cons. exact Hlast.
    + destruct n as [|n']; simpl.
      * eexists. split; [reflexivity|]. exists [rec'], [rec].
        split; [reflexivity|]. split; [reflexivity|].
        right. exists [], rec', rec. split; [reflexivity|]. split; [reflexivity|].
        exact Hrel.
      * rewrite <- Hoff.
        eapply sim_bind; [apply (parseRecord_past_cut fuel (r_offset rec'))
                                with (R := fun _ _ => False); lia|].
        intros ? ? _ [].
Qed.

Lemma parseDNSMessage_cut (fuel : nat) :
  sim (fun partial parsed =>
         header partial = header parsed /\
         exists offset,
           questions_loop (Z.to_nat (qdcount (header parsed))) fuel message 12
             = Ok offset /\
           differ_last fuel message b offset (records partial) (records parsed))
      (parseDNSMessage fuel cut) (parseDNSMessage fuel message).
Proof.
  unfold parseDNSMessage.
  apply sim_eq_bind; [apply readUInt16BE_cut|]. intros id' _.
  apply sim_eq_bind; [apply readUInt16BE_cut|]. intros flags' _.
  apply sim_eq_bind; [apply readUInt16BE_cut|]. intros qdcount' _.
  apply sim_eq_bind; [apply readUInt16BE_cut|]. intros ancount' _.
  apply sim_eq_bind; [apply readUInt16BE_cut|]. intros nscount' _.
  apply sim_eq_bind; [apply readUInt16BE_cut|]. intros arcount' _.
  cbn [qdcount ancount nscount arcount].
  pose proof (questions_loop_cut fuel (Z.to_nat qdcount') 12) as Hq.
  destruct (questions_loop (Z.to_nat qdcount') fuel cut 12) as [offset|e|];
    simpl in Hq; [|exact I|rewrite Hq; reflexivity].
  destruct Hq as (offset' & Hq & <-). rewrite Hq. cbn [bind].
  eapply sim_bind; [apply records_loop_cut|].
  intros recs' recs _ (new' & new & -> & -> & Hnew).
  simpl. eexists. split; [reflexivity|]. simpl. split; [reflexivity|].
  exists offset. split; [exact Hq|exact Hnew].
Qed.

End Truncation.

(** C3 (as the code has it).  Let a message decode, and cut it at a byte
    boundary before the end of its last record.  Decoding the cut message
    reads nothing outside it, and it either throws RangeError or returns
    the header and the records of the whole message, the last record with
    the rdata that the cut has left: the same fields, and as rdata
    [clamped_rdata], which is the whole rdata of a PTR, SRV or A record,
    the raw bytes up to the cut of a record that is not decoded, and for
    a TXT record the object of the same sub-strings, each decoded from
    its bytes up to the cut.  It can only return when the cut spares
    every byte that is read with a checked accessor.  With [start] the
    offset of the last record (the end of the questions or of the record
    before) and [rdataOffset] the offset of its rdata, the cut of a
    message that still decodes is not before [rdataOffset], the last
    record is not an A record, the name in a PTR or SRV rdata ends before
    the cut, and so does every length byte of a TXT rdata: the cut lies
    in rdata that is not decoded, in the text of a TXT sub-string, or in
    bytes that a PTR or SRV rdata has after its name. *)
Theorem parseDNSMessage_truncated (fuel : nat) (message : Buffer) (b : nat)
    (parsed : Message) (rec : DnsRecord) :
  parseDNSMessage fuel message = Ok parsed ->
  last (records parsed) = Some rec ->
  Z.of_nat b < r_offset rec ->
  match parseDNSMessage fuel (take b message) with
  | Throw e => e = RangeError
  | OutOfFuel => False
  | Ok partial =>
      header partial = header parsed /\
      r_type rec <> 1 /\
      exists init rec' questionsEnd nameResult,
        records parsed = init ++ [rec] /\
        records partial = init ++ [rec'] /\
        same_fields rec' rec /\
        questions_loop (Z.to_nat (qdcount (header parsed))) fuel message 12
          = Ok questionsEnd /\
        let start := next_start questionsEnd init in
        readName fuel message start = Ok nameResult /\
        parseRecord fuel message start = Ok rec /\
        cut_spares fuel message rec (readBytes nameResult + 10) (Z.of_nat b) /\
        r_rdata rec' =
          clamped_rdata fuel message rec (readBytes nameResult + 10) (Z.of_nat b)
  end.
Proof.
  intros Hparsed Hlast Hcut.
  pose proof (parseDNSMessage_cut message b fuel) as Hsim.
  destruct (parseDNSMessage fuel (take b message)) as [partial|e|]; simpl in Hsim.
  - destruct Hsim as (parsed' & Hm & Hheader & questionsEnd & Hq & Hrecs).
    rewrite Hparsed in Hm. injection Hm as <-.
    destruct Hrecs as [[_ Hnil]|(init & rec' & rec0 & Hp & Hm & Hsame & _ & nr & Hnr
                                 & Hrec & Hspares & Hrdata)].
    { rewrite Hnil in Hlast. discriminate Hlast. }
    rewrite Hm, last_snoc in Hlast. injection Hlast as ->.
    split; [exact Hheader|]. split.
    + intros Htype. destruct Hspares as (_ & HA & _). specialize (HA Htype). lia.
    + exists init, rec', questionsEnd, nr. cbv zeta. auto 10.
  - destruct e. reflexivity.
  - rewrite Hparsed in Hsim. discriminate Hsim.
Qed.

Lemma parseDNSMessage_truncated_witness :
  parseDNSMessage 1 txt_message =
    Ok (mkMessage (mkHeader 0 0x8400 0 1 0 0)
          [mkRecord "" 16 1 120 8 (RdTxt {[ "ver"%string := TxtString "1.0" ]}) 31]) /\
  exists partial rec',
    parseDNSMessage 1 (take 29 txt_message) = Ok partial /\
    header partial = mkHeader 0 0x8400 0 1 0 0 /\
    records partial = [rec'] /\
    same_fields rec'
      (mkRecord "" 16 1 120 8 (RdTxt {[ "ver"%string := TxtString "1.0" ]}) 31) /\
    r_rdata rec' =
      clamped_rdata 1 txt_message
        (mkRecord "" 16 1 120 8 (RdTxt {[ "ver"%string := TxtString "1.0" ]}) 31)
        23 29 /\
    txt_spans 1 txt_message 23 31 = [(24, 31)] /\
    toString txt_message 24 (Z.min 31 29) = "ver=1"%string /\
    clamped_rdata 1 txt_message
      (mkRecord "" 16 1 120 8 (RdTxt {[ "ver"%string := TxtString "1.0" ]}) 31)
      23 29 = RdTxt {[ "ver"%string := TxtString "1" ]}.
Proof.
  set (rec := mkRecord "" 16 1 120 8 (RdTxt {[ "ver"%string := TxtString "1.0" ]}) 31).
  assert (Hparsed : parseDNSMessage 1 txt_message =
                    Ok (mkMessage (mkHeader 0 0x8400 0 1 0 0) [rec]))
    by (vm_compute; reflexivity).
  split; [exact Hparsed|].
  pose proof (parseDNSMessage_truncated 1 txt_message 29 _ rec Hparsed eq_refl
                ltac:(simpl; lia)) as H.
  destruct (parseDNSMessage 1 (take 29 txt_message)) as [partial| |] eqn:E;
    [|vm_compute in E; discriminate E|destruct H].
  destruct H as (Hheader & _ & init & rec' & questionsEnd & nr & Hinit & Hpartial
                 & Hsame & Hq & Hnr & _ & _ & Hrdata).
  cbn [records] in Hinit.
  assert (Hnil : init = []).
  { destruct init as [|r0 init]; [reflexivity|].
    apply (f_equal (@length DnsRecord)) in Hinit. rewrite length_app in Hinit.
    simpl in Hinit. lia. }
  subst init. injection Hq as <-.
  assert (Hnr' : nr = {| name := ""; readBytes := 13 |}).
  { vm_compute in Hnr. injection Hnr as <-. reflexivity. }
  subst nr.
  exists partial, rec'. split; [reflexivity|]. split; [exact Hheader|].
  split; [exact Hpartial|]. split; [exact Hsame|]. split; [exact Hrdata|].
  split; [vm_compute; reflexivity|]. split; vm_compute; reflexivity.
Defined.

(** C3 as stated fails: the response with one AAAA record, cut 9 bytes
    before its end, decodes without an error to the same record with 7
    of its 16 bytes of rdata; and the response with one TXT record, cut 2
    bytes before its end, decodes to the same record with the value of
    [ver] two characters short. *)
Lemma parseDNSMessage_truncated_accepted :
  length aaaa_message = 39%nat /\
  parseDNSMessage 1 aaaa_message =
    Ok (mkMessage (mkHeader 0 0x8400 0 1 0 0)
          [mkRecord "" 28 1 120 16
             (RdRaw (bytes [0xfe; 0x80; 0; 0; 0; 0; 0; 0;  0; 0; 0; 0; 0; 0; 0; 1])) 39]) /\
  parseDNSMessage 1 (take 30 aaaa_message) =
    Ok (mkMessage (mkHeader 0 0x8400 0 1 0 0)
          [mkRecord "" 28 1 120 16 (RdRaw (bytes [0xfe; 0x80; 0; 0; 0; 0; 0])) 39]) /\
  length txt_message = 31%nat /\
  parseDNSMessage 1 txt_message =
    Ok (mkMessage (mkHeader 0 0x8400 0 1 0 0)
          [mkRecord "" 16 1 120 8 (RdTxt {[ "ver"%string := TxtString "1.0" ]}) 31]) /\
  parseDNSMessage 1 (take 29 txt_message) =
    Ok (mkMessage (mkHeader 0 0x8400 0 1 0 0)
          [mkRecord "" 16 1 120 8 (RdTxt {[ "ver"%string := TxtString "1" ]}) 31]).
Proof. repeat split; vm_compute; reflexivity. Qed.

(** * Further properties *)

(** ** readName: bounds, termination, trailing bytes *)

(** X1.  When readName returns, the offset it started at is inside the
    buffer and [readBytes] lies after it and not after the end of the
    buffer: the caller's cursor always advances and stays in bounds. *)
Theorem readName_cursor_bounds (fuel : nat) (buffer : Buffer) (offset : Z)
    (r : NameResult) :
  readName fuel buffer offset = Ok r ->
  0 <= offset /\ offset < readBytes r /\ readBytes r <= Z.of_nat (length buffer).
Proof.
  intros H. split; [|split].
  - destruct fuel as [|fuel]; [discriminate|].
    unfold readName in H. rewrite readName_loop_S in H.
    apply bind_Ok in H as (len & Hlen & _).
    apply readUInt8_Ok in Hlen.
    assert (is_Some (byteAt buffer offset)) as Hs by eauto.
    apply byteAt_Some_iff in Hs. lia.
  - apply readName_loop_readBytes_lower in H. lia.
  - apply readName_loop_readBytes_bound in H. exact H.
Qed.

Lemma readName_cursor_bounds_witness :
  readName 5 chained_buffer 4 = Ok {| name := "b.a"; readBytes := 8 |} /\
  0 <= 4 /\ 4 < 8 /\ 8 <= Z.of_nat (length chained_buffer).
Proof.
  split; [reflexivity|].
  exact (readName_cursor_bounds 5 chained_buffer 4 {| name := "b.a"; readBytes := 8 |}
           eq_refl).
Defined.

(** X2.  At an offset outside the buffer -- so at every offset of the
    empty buffer -- readName throws RangeError in its first iteration. *)
Theorem readName_outside (fuel : nat) (buffer : Buffer) (offset : Z) :
  offset < 0 \/ Z.of_nat (length buffer) <= offset ->
  readName (S fuel) buffer offset = Throw RangeError.
Proof.
  intros Hout. unfold readName. rewrite readName_loop_S. unfold readUInt8.
  destruct (byteAt buffer offset) as [v|] eqn:E; [|reflexivity].
  assert (is_Some (byteAt buffer offset)) as Hs by eauto.
  apply byteAt_Some_iff in Hs. lia.
Qed.

Lemma readName_outside_witness :
  readName 1 [] 0 = Throw RangeError /\
  readName 1 twice_buffer 5 = Throw RangeError.
Proof.
  split.
  - apply (readName_outside 0 [] 0). right. simpl. lia.
  - apply (readName_outside 0 twice_buffer 5). right. simpl. lia.
Defined.

(** One iteration that does not end the loop moves the cursor as
    [name_step] says. *)
Lemma readName_loop_step (buffer : Buffer) (offset offset' : Z) :
  name_step buffer offset = Some offset' ->
  forall fuel labels jumped originalOffset,
  exists labels' jumped' originalOffset',
    readName_loop (S fuel) buffer offset labels jumped originalOffset =
    readName_loop fuel buffer offset' labels' jumped' originalOffset'.
Proof.
  unfold name_step. intros H fuel labels jumped orig. rewrite readName_loop_S.
  unfold readUInt8.
  destruct (byteAt buffer offset) as [len|]; [|discriminate]. cbn [bind].
  destruct (len =? 0); [discriminate|].
  destruct (Z.land len 192 =? 192).
  - destruct (byteAt buffer (offset + 1)) as [low|]; [|discriminate].
    injection H as <-. cbn [bind]. eauto.
  - injection H as <-. eauto.
Qed.

(** After [n] such iterations the loop is at [name_steps], with the fuel
    that is left; it has not returned before. *)
Lemma readName_loop_steps (buffer : Buffer) (n : nat) :
  forall offset offset',
    name_steps n buffer offset = Some offset' ->
    forall fuel labels jumped originalOffset,
      ((fuel <= n)%nat ->
       readName_loop fuel buffer offset labels jumped originalOffset = OutOfFuel) /\
      ((n < fuel)%nat ->
       exists labels' jumped' originalOffset',
         readName_loop fuel buffer offset labels jumped originalOffset =
         readName_loop (fuel - n) buffer offset' labels' jumped' originalOffset').
Proof.
  induction n as [|n IH]; intros offset offset' H fuel labels jumped orig.
  - injection H as <-. split.
    + intros Hle. replace fuel with 0%nat by lia. reflexivity.
    + intros _. rewrite Nat.sub_0_r. eauto.
  - simpl in H. destruct (name_step buffer offset) as [o1|] eqn:Hstep; [|discriminate].
    destruct fuel as [|fuel]; [split; [reflexivity|lia]|].
    destruct (readName_loop_step buffer offset o1 Hstep fuel labels jumped orig)
      as (labels1 & jumped1 & orig1 & ->).
    destruct (IH o1 offset' H fuel labels1 jumped1 orig1) as [Hle Hgt].
    split.
    + intros Hf. apply Hle. lia.
    + intros Hf. replace (S fuel - S n)%nat with (fuel - n)%nat by lia.
      apply Hgt. lia.
Qed.

(** A cursor that comes back to an offset is in the loop after every
    number of iterations. *)
Lemma readName_loop_cycle (buffer : Buffer) (n : nat) (offset : Z) :
  (0 < n)%nat ->
  name_steps n buffer offset = Some offset ->
  forall fuel labels jumped originalOffset,
    readName_loop fuel buffer offset labels jumped originalOffset = OutOfFuel.
Proof.
  intros Hn Hcycle fuel.
  induction fuel as [fuel IH] using lt_wf_ind. intros labels jumped orig.
  destruct (readName_loop_steps buffer n offset offset Hcycle fuel labels jumped orig)
    as [Hle Hgt].
  destruct (Nat.le_gt_cases fuel n) as [Hf|Hf]; [apply Hle; exact Hf|].
  destruct (Hgt Hf) as (labels' & jumped' & orig' & ->).
  apply IH. lia.
Qed.

Lemma readName_loop_reaches_cycle (buffer : Buffer) (m n : nat) (start offset : Z) :
  name_steps m buffer start = Some offset ->
  (0 < n)%nat ->
  name_steps n buffer offset = Some offset ->
  forall fuel labels jumped originalOffset,
    readName_loop fuel buffer start labels jumped originalOffset = OutOfFuel.
Proof.
  intros Hreach Hn Hcycle fuel labels jumped orig.
  destruct (readName_loop_steps buffer m start offset Hreach fuel labels jumped orig)
    as [Hle Hgt].
  destruct (Nat.le_gt_cases fuel m) as [Hf|Hf]; [apply Hle; exact Hf|].
  destruct (Hgt Hf) as (labels' & jumped' & orig' & ->).
  apply (readName_loop_cycle buffer n offset Hn Hcycle).
Qed.

Lemma name_steps_add (buffer : Buffer) (m n : nat) :
  forall offset middle,
    name_steps m buffer offset = Some middle ->
    name_steps (m + n) buffer offset = name_steps n buffer middle.
Proof.
  induction m as [|m IH]; intros offset middle; simpl.
  - intros [= <-]. reflexivity.
  - destruct (name_step buffer offset) as [o1|]; [|discriminate]. apply IH.
Qed.

(** [labels_pushed] counts what the loop adds to its array: after [n]
    iterations the array is longer by the labels they push. *)
Lemma readName_loop_steps_labels (buffer : Buffer) (n : nat) :
  forall offset offset',
    name_steps n buffer offset = Some offset' ->
    forall fuel labels jumped originalOffset,
    exists labels' jumped' originalOffset',
      readName_loop (n + fuel) buffer offset labels jumped originalOffset =
      readName_loop fuel buffer offset' labels' jumped' originalOffset' /\
      length labels' = (length labels + labels_pushed n buffer offset)%nat.
Proof.
  induction n as [|n IH]; intros offset offset' H fuel labels jumped orig.
  - injection H as <-. exists labels, jumped, orig. simpl. split; [reflexivity|lia].
  - cbn [name_steps labels_pushed] in *.
    destruct (name_step buffer offset) as [o1|] eqn:Hstep; [|discriminate].
    change (S n + fuel)%nat with (S (n + fuel)). rewrite readName_loop_S.
    unfold name_step in Hstep. unfold label_step, readUInt8.
    destruct (byteAt buffer offset) as [len|]; [|discriminate]. cbn [bind].
    destruct (len =? 0); [discriminate|].
    destruct (Z.land len 192 =? 192).
    + destruct (byteAt buffer (offset + 1)) as [low|]; [|discriminate].
      injection Hstep as <-. cbn [bind negb andb].
      destruct (IH _ _ H fuel labels true (if negb jumped then offset + 2 else orig))
        as (labels' & jumped' & orig' & Heq & Hlen).
      exists labels', jumped', orig'. split; [exact Heq|]. simpl. lia.
    + injection Hstep as <-. cbn [negb andb].
      destruct (IH _ _ H fuel
                  (labels ++ [toString buffer (offset + 1) (offset + 1 + len)])
                  jumped orig) as (labels' & jumped' & orig' & Heq & Hlen).
      exists labels', jumped', orig'. split; [exact Heq|].
      rewrite length_app in Hlen. simpl in Hlen. lia.
Qed.





(** A loop that is out of fuel has made as many iterations as it had
    fuel. *)
Lemma readName_loop_out_of_fuel (buffer : Buffer) (fuel : nat) :
  forall offset labels jumped originalOffset,
    readName_loop fuel buffer offset labels jumped originalOffset = OutOfFuel ->
    is_Some (name_steps fuel buffer offset).
Proof.
  induction fuel as [|fuel IH]; intros offset labels jumped orig; [simpl; eauto|].
  rewrite readName_loop_S. unfold readUInt8, name_steps, name_step. fold name_steps.
  destruct (byteAt buffer offset) as [len|]; [|discriminate]. cbn [bind].
  destruct (len =? 0); [discriminate|].
  destruct (Z.land len 192 =? 192).
  - destruct (byteAt buffer (offset + 1)) as [low|]; [|discriminate]. cbn [bind].
    apply IH.
  - apply IH.
Qed.

Lemma name_trace_lookup (buffer : Buffer) (n : nat) :
  forall offset i a,
    name_trace n buffer offset !! i = Some a ->
    name_steps i buffer offset = Some a.
Proof.
  induction n as [|n IH]; intros offset i a; [discriminate|].
  destruct i as [|i]; simpl.
  - intros [= <-]. reflexivity.
  - destruct (name_step buffer offset) as [o1|]; [|discriminate]. apply IH.
Qed.

Lemma name_trace_run (buffer : Buffer) (n : nat) :
  forall offset,
    is_Some (name_steps n buffer offset) ->
    length (name_trace n buffer offset) = n /\
    Forall (fun p => 0 <= p < Z.of_nat (length buffer)) (name_trace n buffer offset).
Proof.
  induction n as [|n IH]; intros offset Hrun; simpl; [split; [reflexivity|constructor]|].
  simpl in Hrun. destruct (name_step buffer offset) as [o1|] eqn:Hstep;
    [|destruct Hrun; discriminate].
  destruct (IH o1 Hrun) as [Hlen Hall]. split; [lia|].
  constructor; [|exact Hall].
  apply byteAt_Some_iff. unfold name_step in Hstep.
  destruct (byteAt buffer offset); [eauto|discriminate].
Qed.

(** Among more than [bound] offsets below [bound], two are the same. *)
Lemma repeated_offset (bound : nat) (l : list Z) :
  Forall (fun p => 0 <= p < Z.of_nat bound) l ->
  (bound < length l)%nat ->
  exists i j a, (i < j)%nat /\ l !! i = Some a /\ l !! j = Some a.
Proof.
  intros Hall Hlen.
  assert (Hdup : ~ NoDup l).
  { intros Hnd.
    assert (Hnd' : NoDup (Z.to_nat <$> l)).
    { apply NoDup_fmap_2_strong; [|exact Hnd].
      intros x y Hx Hy Heq. rewrite Forall_forall in Hall.
      pose proof (Hall x Hx). pose proof (Hall y Hy). lia. }
    assert (Hsub : Z.to_nat <$> l ⊆+ seq 0 bound).
    { apply NoDup_submseteq; [exact Hnd'|].
      intros x Hx. apply list_elem_of_fmap in Hx as (y & -> & Hy).
      rewrite Forall_forall in Hall. pose proof (Hall y Hy).
      apply elem_of_seq. lia. }
    apply submseteq_length in Hsub. rewrite length_fmap, length_seq in Hsub. lia. }
  clear Hall Hlen. induction l as [|x l IH].
  - destruct Hdup. constructor.
  - destruct (decide (x ∈ l)) as [Hin|Hnotin].
    + apply list_elem_of_lookup in Hin as (j & Hj).
      exists 0%nat, (S j), x. split; [lia|]. split; [reflexivity|exact Hj].
    + destruct IH as (i & j & a & Hij & Hi & Hj).
      { intros Hnd. apply Hdup. constructor; assumption. }
      exists (S i), (S j), a. split; [lia|]. split; assumption.
Qed.

(** A loop that is still running after one more iteration than the
    buffer has bytes has come back to an offset: it is still running
    after every number of iterations. *)
Lemma readName_loop_decided (buffer : Buffer) (offset : Z) (labels : list string)
    (jumped : bool) (originalOffset : Z) :
  readName_loop (S (length buffer)) buffer offset labels jumped originalOffset
    = OutOfFuel ->
  forall fuel labels' jumped' originalOffset',
    readName_loop fuel buffer offset labels' jumped' originalOffset' = OutOfFuel.
Proof.
  intros Hout.
  apply readName_loop_out_of_fuel in Hout.
  destruct (name_trace_run buffer _ offset Hout) as [Hlen Hall].
  destruct (repeated_offset (length buffer) _ Hall) as (i & j & a & Hij & Hi & Hj);
    [lia|].
  apply name_trace_lookup in Hi, Hj.
  replace j with (i + (j - i))%nat in Hj by lia.
  rewrite (name_steps_add buffer i (j - i) offset a Hi) in Hj.
  apply (readName_loop_reaches_cycle buffer i (j - i) offset a Hi); [lia|exact Hj].
Qed.

(** X4.  readName needs at most one iteration more than the buffer has
    bytes to return a name or to fail a read: a name that it returns, and
    the RangeError of a read outside the buffer, it reaches within that
    many iterations.  A call that is still in its loop then has come back
    to an offset it has been at, and returns no name (X3 says how such a
    call goes on). *)
Theorem readName_iteration_bound (buffer : Buffer) (offset : Z) :
  (forall fuel r,
     readName fuel buffer offset = Ok r ->
     readName (S (length buffer)) buffer offset = Ok r) /\
  (forall fuel e,
     readName fuel buffer offset = Throw e ->
     readName (S (length buffer)) buffer offset = Throw e) /\
  (readName (S (length buffer)) buffer offset = OutOfFuel ->
   returns_no_name buffer offset /\
   exists m n cycle,
     (0 < n)%nat /\
     name_steps m buffer offset = Some cycle /\
     name_steps n buffer cycle = Some cycle).
Proof.
  assert (Hsettled : forall fuel,
             readName fuel buffer offset <> OutOfFuel ->
             readName (S (length buffer)) buffer offset = readName fuel buffer offset).
  { intros fuel Hfuel.
    destruct (Nat.le_gt_cases fuel (S (length buffer))) as [Hle|Hgt].
    - destruct (readName_loop_fuel fuel (S (length buffer)) buffer Hle
                  offset [] false offset) as [Hout|Hsame]; [contradiction|exact Hsame].
    - destruct (readName_loop_fuel (S (length buffer)) fuel buffer ltac:(lia)
                  offset [] false offset) as [Hout|Hsame]; [|symmetry; exact Hsame].
      exfalso. apply Hfuel.
      apply (readName_loop_decided buffer offset [] false offset Hout). }
  split; [|split].
  - intros fuel r H. rewrite (Hsettled fuel); [exact H|]. rewrite H. discriminate.
  - intros fuel e H. rewrite (Hsettled fuel); [exact H|]. rewrite H. discriminate.
  - intros Hout. split.
    + intros fuel r H. unfold readName in H.
      rewrite (readName_loop_decided buffer offset [] false offset Hout) in H.
      discriminate.
    + apply readName_loop_out_of_fuel in Hout.
      destruct (name_trace_run buffer _ offset Hout) as [Hlen Hall].
      destruct (repeated_offset (length buffer) _ Hall) as (i & j & a & Hij & Hi & Hj);
        [lia|].
      apply name_trace_lookup in Hi, Hj.
      replace j with (i + (j - i))%nat in Hj by lia.
      rewrite (name_steps_add buffer i (j - i) offset a Hi) in Hj.
      exists i, (j - i)%nat, a. split; [lia|]. split; assumption.
Qed.

Lemma readName_iteration_bound_witness :
  readName (S (length chained_buffer)) chained_buffer 4
    = Ok {| name := "b.a"; readBytes := 8 |} /\
  readName (S (length label_loop_buffer)) label_loop_buffer 0 = OutOfFuel /\
  returns_no_name label_loop_buffer 0.
Proof.
  split; [|split; [reflexivity|]].
  - exact (proj1 (readName_iteration_bound chained_buffer 4) 100%nat
             {| name := "b.a"; readBytes := 8 |} eq_refl).
  - exact (proj1 (proj2 (proj2 (readName_iteration_bound label_loop_buffer 0)) eq_refl)).
Defined.

(** X5.  Bytes after the buffer do not change a name: what readName
    returns on a buffer it returns on every extension of the buffer. *)
Theorem readName_extension (fuel : nat) (buffer extra : Buffer) (offset : Z)
    (r : NameResult) :
  readName fuel buffer offset = Ok r ->
  readName fuel (buffer ++ extra) offset = Ok r.
Proof.
  intros H.
  pose proof (readName_cut (buffer ++ extra) (length buffer) fuel offset) as Hsim.
  rewrite take_app_length, H in Hsim. simpl in Hsim.
  destruct Hsim as (r' & Hm & <-). exact Hm.
Qed.

Lemma readName_extension_witness :
  readName 2 twice_buffer 0 = Ok {| name := "a"; readBytes := 3 |} /\
  readName 2 (twice_buffer ++ bytes [0xC0; 0xC0; 7]) 0 = Ok {| name := "a"; readBytes := 3 |}.
Proof.
  split; [reflexivity|].
  exact (readName_extension 2 twice_buffer (bytes [0xC0; 0xC0; 7]) 0
           {| name := "a"; readBytes := 3 |} eq_refl).
Defined.

(** ** parseRecord: A records, records that are not decoded, progress *)

Lemma length_slice (buffer : Buffer) (start end_ : Z) :
  0 <= start ->
  Z.of_nat (length (slice buffer start end_)) =
  Z.max 0 (Z.min (end_ - start) (Z.of_nat (length buffer) - start)).
Proof.
  intros Hs. unfold slice. rewrite length_take, length_drop. lia.
Qed.

Lemma readUInt16BE_bound (buffer : Buffer) (offset v : Z) :
  readUInt16BE buffer offset = Ok v ->
  0 <= offset /\ offset + 2 <= Z.of_nat (length buffer).
Proof.
  unfold readUInt16BE. intros H.
  destruct (byteAt buffer offset) as [x|] eqn:E0; [|discriminate].
  destruct (byteAt buffer (offset + 1)) as [y|] eqn:E1; [|discriminate].
  assert (0 <= offset < Z.of_nat (length buffer)) by (apply byteAt_Some_iff; eauto).
  assert (0 <= offset + 1 < Z.of_nat (length buffer)) by (apply byteAt_Some_iff; eauto).
  lia.
Qed.

Lemma readUInt16BE_inside (buffer : Buffer) (offset : Z) :
  0 <= offset -> offset + 2 <= Z.of_nat (length buffer) ->
  exists v, readUInt16BE buffer offset = Ok v.
Proof.
  intros H0 H2. unfold readUInt16BE.
  destruct (proj2 (byteAt_Some_iff buffer offset) ltac:(lia)) as [x ->].
  destruct (proj2 (byteAt_Some_iff buffer (offset + 1)) ltac:(lia)) as [y ->].
  eauto.
Qed.

Lemma readUInt32BE_inside (buffer : Buffer) (offset : Z) :
  0 <= offset -> offset + 4 <= Z.of_nat (length buffer) ->
  exists v, readUInt32BE buffer offset = Ok v.
Proof.
  intros H0 H4. unfold readUInt32BE.
  destruct (proj2 (byteAt_Some_iff buffer offset) ltac:(lia)) as [x ->].
  destruct (proj2 (byteAt_Some_iff buffer (offset + 1)) ltac:(lia)) as [y ->].
  destruct (proj2 (byteAt_Some_iff buffer (offset + 2)) ltac:(lia)) as [z ->].
  destruct (proj2 (byteAt_Some_iff buffer (offset + 3)) ltac:(lia)) as [w ->].
  eauto.
Qed.

Lemma readUInt32BE_range (buffer : Buffer) (offset v : Z) :
  readUInt32BE buffer offset = Ok v -> 0 <= v < 2 ^ 32.
Proof.
  unfold readUInt32BE. intros H.
  destruct (byteAt buffer offset) as [x|] eqn:E0; [|discriminate].
  destruct (byteAt buffer (offset + 3)) as [w|] eqn:E3; [|discriminate].
  destruct (byteAt buffer (offset + 1)) as [y|] eqn:E1; [|discriminate].
  destruct (byteAt buffer (offset + 2)) as [z|] eqn:E2; [|discriminate].
  injection H as <-.
  apply byteAt_range in E0, E1, E2, E3. lia.
Qed.

(** The bytes the loop of the A branch collects. *)
Lemma a_loop_bytes (n : nat) (buffer : Buffer) (offset : Z) :
  forall i ipBytes r,
    0 <= offset + i ->
    a_loop n buffer offset i ipBytes = Ok r ->
    r = ipBytes ++ (byte_val <$> take n (drop (Z.to_nat (offset + i)) buffer)) /\
    offset + i + Z.of_nat n <= Z.max (offset + i) (Z.of_nat (length buffer)).
Proof.
  induction n as [|n IH]; intros i ipBytes r Hi H.
  - injection H as <-. rewrite take_0, fmap_nil, app_nil_r. split; [reflexivity|lia].
  - simpl in H. apply bind_Ok in H as (v & Hv & H).
    apply readUInt8_Ok in Hv.
    assert (Hin : 0 <= offset + i < Z.of_nat (length buffer))
      by (apply byteAt_Some_iff; eauto).
    unfold byteAt in Hv. destruct (offset + i <? 0) eqn:E; [lia|].
    destruct (buffer !! Z.to_nat (offset + i)) as [x|] eqn:Ex; [|discriminate].
    injection Hv as <-.
    apply IH in H as [-> Hle]; [|lia].
    rewrite (drop_S _ _ _ Ex).
    replace (Z.to_nat (offset + (i + 1))) with (S (Z.to_nat (offset + i))) by lia.
    simpl. rewrite <- app_assoc. split; [reflexivity|lia].
Qed.

(** Where a record that parses lies: its name and its ten bytes of
    fields are in the buffer, and the next offset is past them. *)
Lemma parseRecord_advance (fuel : nat) (buffer : Buffer) (offset : Z) (rec : DnsRecord) :
  parseRecord fuel buffer offset = Ok rec ->
  exists nameResult,
    readName fuel buffer offset = Ok nameResult /\
    0 <= offset /\ offset + 1 <= readBytes nameResult /\
    readBytes nameResult + 10 <= Z.of_nat (length buffer) /\
    readBytes nameResult + 10 <= r_offset rec.
Proof.
  intros H.
  destruct (parseRecord_fields fuel buffer offset rec H)
    as (nr & Hname & _ & Htype & _ & _ & Hlen).
  exists nr. split; [exact Hname|].
  pose proof (parseRecord_rdata fuel buffer offset rec nr H Hname) as Hrd.
  cbv zeta in Hrd.
  pose proof (readUInt16BE_range _ _ _ Hlen) as Hrange.
  apply readUInt16BE_bound in Hlen, Htype.
  pose proof (readName_loop_readBytes_lower fuel buffer offset [] offset nr Hname).
  assert (0 <= offset).
  { unfold readName in Hname. destruct fuel as [|fuel]; [discriminate|].
    rewrite readName_loop_S in Hname. apply bind_Ok in Hname as (len & Hb & _).
    apply readUInt8_Ok in Hb.
    assert (0 <= offset < Z.of_nat (length buffer)) by (apply byteAt_Some_iff; eauto).
    lia. }
  repeat split; try lia.
  destruct (r_type rec =? 12); [destruct Hrd as (? & _ & _ & ->); lia|].
  destruct (r_type rec =? 33); [destruct Hrd as (? & ? & ? & ? & _ & _ & _ & _ & _ & ->); lia|].
  destruct (r_type rec =? 16).
  { destruct Hrd as (txts & Htxt & _).
    pose proof (txt_loop_outcome fuel buffer
                  (readBytes nr + 10 + r_rdlength rec) (readBytes nr + 10) ∅
                  ltac:(lia)) as Hout.
    rewrite Htxt in Hout. simpl in Hout. lia. }
  destruct (r_type rec =? 1); [destruct Hrd as (? & _ & _ & ->); lia|].
  destruct Hrd as [_ ->]. lia.
Qed.

(** X6.  An A record is not checked for four bytes of rdata: whatever
    rdlength is, the rdata is the dotted decimal form of exactly rdlength
    bytes, all of them in the buffer, and the next offset is just after
    them. *)
Theorem parseRecord_A (fuel : nat) (buffer : Buffer) (offset : Z) (rec : DnsRecord)
    (nameResult : NameResult) :
  parseRecord fuel buffer offset = Ok rec ->
  readName fuel buffer offset = Ok nameResult ->
  r_type rec = 1 ->
  let rdataOffset := readBytes nameResult + 10 in
  let ipBytes := slice buffer rdataOffset (r_offset rec) in
  r_offset rec = rdataOffset + r_rdlength rec /\
  r_offset rec <= Z.of_nat (length buffer) /\
  Z.of_nat (length ipBytes) = r_rdlength rec /\
  r_rdata rec = RdA (join_dot (pretty <$> (byte_val <$> ipBytes))).
Proof.
  intros H Hname Htype rdataOffset ipBytes.
  destruct (parseRecord_fields fuel buffer offset rec H)
    as (nr & Hname' & _ & _ & _ & _ & Hlen).
  rewrite Hname in Hname'. injection Hname' as <-.
  pose proof (readUInt16BE_range _ _ _ Hlen) as Hrange.
  apply readUInt16BE_bound in Hlen.
  pose proof (parseRecord_rdata fuel buffer offset rec nameResult H Hname) as Hrd.
  cbv zeta in Hrd. rewrite Htype in Hrd. simpl in Hrd.
  destruct Hrd as (ips & Hloop & Hrdata & Hoff).
  fold rdataOffset in Hloop, Hoff.
  apply a_loop_bytes in Hloop as [-> Hle]; [|lia].
  assert (Hslice : ipBytes = take (Z.to_nat (r_rdlength rec))
                               (drop (Z.to_nat (rdataOffset + 0)) buffer)).
  { unfold ipBytes, slice. rewrite Hoff. f_equal; [lia|f_equal; lia]. }
  split; [exact Hoff|]. split; [lia|]. split.
  - unfold ipBytes. rewrite length_slice by lia. lia.
  - rewrite Hrdata, Hslice. reflexivity.
Qed.

Lemma parseRecord_A_witness :
  exists rec,
    parseRecord 1 a_record_six 0 = Ok rec /\
    r_offset rec = 17 /\
    r_rdata rec = RdA "10.0.0.1.2.3".
Proof.
  eexists. split; [reflexivity|].
  destruct (parseRecord_A 1 a_record_six 0 _ _ eq_refl eq_refl eq_refl)
    as (Hoff & _ & _ & Hrdata).
  split; [exact Hoff|exact Hrdata].
Defined.

(** X7.  A record of a type that is not decoded is accepted as soon as
    its name and its ten bytes of fields are in the buffer, whatever its
    rdlength: the rdata is the part of the announced span that the buffer
    holds, and the next offset is the announced end, in the buffer or
    not. *)
Theorem parseRecord_opaque (fuel : nat) (buffer : Buffer) (offset : Z)
    (nameResult : NameResult) (type : Z) :
  readName fuel buffer offset = Ok nameResult ->
  readBytes nameResult + 10 <= Z.of_nat (length buffer) ->
  readUInt16BE buffer (readBytes nameResult) = Ok type ->
  type <> 12 -> type <> 33 -> type <> 16 -> type <> 1 ->
  let rdataOffset := readBytes nameResult + 10 in
  exists rec raw,
    parseRecord fuel buffer offset = Ok rec /\
    r_type rec = type /\
    r_rdata rec = RdRaw raw /\
    raw = slice buffer rdataOffset (rdataOffset + r_rdlength rec) /\
    Z.of_nat (length raw) =
      Z.min (r_rdlength rec) (Z.of_nat (length buffer) - rdataOffset) /\
    r_offset rec = rdataOffset + r_rdlength rec.
Proof.
  intros Hname Hfixed Htype H12 H33 H16 H1 rdataOffset.
  pose proof (readName_loop_readBytes_lower fuel buffer offset [] offset nameResult Hname).
  pose proof (readUInt16BE_bound _ _ _ Htype) as [Hlow _].
  destruct (readUInt16BE_inside buffer (readBytes nameResult + 2)) as [cls Hcls]; [lia..|].
  destruct (readUInt32BE_inside buffer (readBytes nameResult + 2 + 2)) as [ttl Httl]; [lia..|].
  destruct (readUInt16BE_inside buffer (readBytes nameResult + 2 + 2 + 4))
    as [rdlength Hlen]; [lia..|].
  pose proof (readUInt16BE_range _ _ _ Hlen) as Hrange.
  unfold parseRecord. rewrite Hname. cbn [bind].
  rewrite Htype. cbn [bind]. rewrite Hcls. cbn [bind].
  rewrite Httl. cbn [bind]. rewrite Hlen. cbn [bind].
  apply Z.eqb_neq in H12, H33, H16, H1. rewrite H12, H33, H16, H1.
  replace (readBytes nameResult + 2 + 2 + 4 + 2) with rdataOffset
    by (unfold rdataOffset; lia).
  eexists. eexists. split; [reflexivity|]. cbn.
  split; [reflexivity|]. split; [reflexivity|]. split; [reflexivity|].
  split; [|reflexivity].
  rewrite length_slice by (unfold rdataOffset; lia).
  unfold rdataOffset in *. lia.
Qed.

Lemma parseRecord_opaque_witness :
  exists rec,
    parseRecord 1 opaque_record_short 0 = Ok rec /\
    r_rdlength rec = 300 /\
    r_rdata rec = RdRaw (bytes [7; 9]) /\
    r_offset rec = 311 /\
    Z.of_nat (length opaque_record_short) = 13.
Proof.
  destruct (parseRecord_opaque 1 opaque_record_short 0
              {| name := ""; readBytes := 1 |} 47 eq_refl)
    as (rec & raw & Hrec & _ & Hrdata & Hraw & _ & Hoff);
    [vm_compute; discriminate|reflexivity|lia..|].
  exists rec.
  assert (Hlen : r_rdlength rec = 300).
  { vm_compute in Hrec. injection Hrec as <-. reflexivity. }
  split; [exact Hrec|]. split; [exact Hlen|].
  split; [rewrite Hrdata, Hraw, Hlen; reflexivity|].
  split; [rewrite Hoff, Hlen; reflexivity|reflexivity].
Defined.

(** X8.  A record that parses starts in the buffer and takes at least 11
    bytes of it, one of name and ten of fields, the next offset is at
    least 11 past its start, and its fields are in the ranges of their
    widths. *)
Theorem parseRecord_progress (fuel : nat) (buffer : Buffer) (offset : Z)
    (rec : DnsRecord) :
  parseRecord fuel buffer offset = Ok rec ->
  0 <= offset /\
  offset + 11 <= Z.of_nat (length buffer) /\
  offset + 11 <= r_offset rec /\
  0 <= r_type rec < 2 ^ 16 /\
  0 <= r_cls rec < 2 ^ 16 /\
  0 <= r_ttl rec < 2 ^ 32 /\
  0 <= r_rdlength rec < 2 ^ 16.
Proof.
  intros H.
  destruct (parseRecord_advance fuel buffer offset rec H)
    as (nr & _ & H0 & Hlow & Hin & Hnext).
  destruct (parseRecord_fields fuel buffer offset rec H)
    as (nr' & _ & _ & Htype & Hcls & Httl & Hlen).
  apply readUInt16BE_range in Htype, Hcls, Hlen.
  apply readUInt32BE_range in Httl.
  change (2 ^ 16) with 65536. repeat split; lia.
Qed.

Lemma parseRecord_progress_witness :
  exists rec,
    parseRecord 1 opaque_record_short 0 = Ok rec /\
    0 + 11 <= r_offset rec /\
    0 <= r_ttl rec < 2 ^ 32.
Proof.
  eexists. split; [reflexivity|].
  destruct (parseRecord_progress 1 opaque_record_short 0 _ eq_refl)
    as (_ & _ & Hnext & _ & _ & Httl & _).
  split; [exact Hnext|exact Httl].
Defined.

(** ** parseDNSMessage: short buffers, sizes, trailing bytes *)

(** X9.  A buffer of fewer than 12 bytes is rejected with a RangeError
    by the reads of the header, before any name is read. *)
Theorem parseDNSMessage_short (fuel : nat) (buffer : Buffer) :
  (length buffer < 12)%nat ->
  parseDNSMessage fuel buffer = Throw RangeError.
Proof.
  intros Hlen.
  assert (H11 : byteAt buffer 11 = None).
  { destruct (byteAt buffer 11) eqn:E; [|reflexivity].
    assert (0 <= 11 < Z.of_nat (length buffer)) by (apply byteAt_Some_iff; eauto).
    lia. }
  unfold parseDNSMessage, readUInt16BE.
  change (10 + 1) with 11. rewrite H11.
  repeat match goal with
         | |- context [byteAt buffer ?k] => destruct (byteAt buffer k)
         end; reflexivity.
Qed.

Lemma parseDNSMessage_short_witness :
  (length (take 11 a_message) < 12)%nat /\
  parseDNSMessage 0 (take 11 a_message) = Throw RangeError.
Proof.
  assert (H : (length (take 11 a_message) < 12)%nat) by (vm_compute; lia).
  split; [exact H|]. exact (parseDNSMessage_short 0 (take 11 a_message) H).
Defined.

Lemma questions_loop_bound (n fuel : nat) (buffer : Buffer) :
  forall offset offset',
    questions_loop n fuel buffer offset = Ok offset' ->
    offset + 5 * Z.of_nat n <= offset' /\
    ((0 < n)%nat -> offset' <= Z.of_nat (length buffer) + 4).
Proof.
  induction n as [|n IH]; intros offset offset' H.
  - injection H as <-. split; lia.
  - simpl in H. apply bind_Ok in H as (res & Hres & H).
    pose proof (readName_loop_readBytes_lower fuel buffer offset [] offset res Hres).
    pose proof (readName_loop_readBytes_bound fuel buffer offset [] offset res Hres).
    destruct (IH _ _ H) as [Hlow Hup]. split; [lia|]. intros _.
    destruct n as [|n]; [|apply Hup; lia].
    injection H as <-. lia.
Qed.

Lemma records_loop_bound (n fuel : nat) (buffer : Buffer) :
  forall offset records result,
    records_loop n fuel buffer offset records = Ok result ->
    length result = (length records + n)%nat /\
    ((0 < n)%nat -> offset + 11 * Z.of_nat n <= Z.of_nat (length buffer)).
Proof.
  induction n as [|n IH]; intros offset records result H.
  - injection H as <-. split; lia.
  - simpl in H. apply bind_Ok in H as (rec & Hrec & H).
    destruct (parseRecord_advance fuel buffer offset rec Hrec)
      as (nr & _ & H0 & Hlow & Hin & Hnext).
    destruct (IH _ _ _ H) as [Hlen Hup]. rewrite length_app in Hlen. simpl in Hlen.
    split; [lia|]. intros _.
    destruct n as [|n]; [lia|]. specialize (Hup ltac:(lia)). lia.
Qed.

(** X10.  The counts of the header are bounded by the size of the
    buffer: a message that parses has as many records as the header
    announces, every record has taken at least 11 bytes and every
    question at least 5 (the last question at least 1: its type and class
    are skipped without a read). *)
Theorem parseDNSMessage_size (fuel : nat) (buffer : Buffer) (parsed : Message) :
  parseDNSMessage fuel buffer = Ok parsed ->
  let h := header parsed in
  let n := Z.of_nat (length (records parsed)) in
  n = ancount h + nscount h + arcount h /\
  0 <= qdcount h /\
  12 + 11 * n <= Z.of_nat (length buffer) /\
  8 + 5 * qdcount h + 11 * n <= Z.of_nat (length buffer) /\
  (0 < n -> 12 + 5 * qdcount h + 11 * n <= Z.of_nat (length buffer)).
Proof.
  unfold parseDNSMessage. intros H.
  apply bind_Ok in H as (id' & _ & H).
  apply bind_Ok in H as (flags' & _ & H).
  apply bind_Ok in H as (qd & Hqd & H).
  apply bind_Ok in H as (an & Han & H).
  apply bind_Ok in H as (ns & Hns & H).
  apply bind_Ok in H as (ar & Har & H).
  cbn [qdcount ancount nscount arcount] in H.
  apply bind_Ok in H as (offset & Hq & H).
  apply bind_Ok in H as (recs & Hr & H).
  injection H as <-. cbn [header records qdcount ancount nscount arcount].
  apply readUInt16BE_range in Hqd, Han, Hns.
  pose proof (readUInt16BE_bound _ _ _ Har) as [_ H12].
  apply readUInt16BE_range in Har.
  apply questions_loop_bound in Hq as [Hqlow Hqup].
  apply records_loop_bound in Hr as [Hlen Hrup]. simpl in Hlen.
  assert (Hn : Z.of_nat (length recs) = an + ns + ar) by lia.
  assert (Hq5 : 5 * Z.of_nat (Z.to_nat qd) = 5 * qd) by lia.
  split; [exact Hn|]. split; [lia|].
  destruct (Z.to_nat (an + ns + ar)) as [|k] eqn:Ek.
  - assert (Z.of_nat (length recs) = 0) by lia.
    destruct (Z.to_nat qd) as [|q] eqn:Eq.
    + repeat split; lia.
    + specialize (Hqup ltac:(lia)). repeat split; lia.
  - specialize (Hrup ltac:(lia)).
    assert (Z.of_nat (S k) = Z.of_nat (length recs)) by lia.
    repeat split; lia.
Qed.

Lemma parseDNSMessage_size_witness :
  exists parsed,
    parseDNSMessage 1 question_only_message = Ok parsed /\
    qdcount (header parsed) = 1 /\
    8 + 5 * qdcount (header parsed) + 11 * Z.of_nat (length (records parsed))
      <= Z.of_nat (length question_only_message) /\
    Z.of_nat (length question_only_message) = 13.
Proof.
  eexists. split; [reflexivity|].
  destruct (parseDNSMessage_size 1 question_only_message _ eq_refl)
    as (_ & _ & _ & H & _).
  split; [reflexivity|]. split; [exact H|reflexivity].
Defined.

(** X11.  Bytes after the message are ignored: a message that parses,
    and whose last record ends inside it, parses to the same header and
    records when any bytes follow it. *)
Theorem parseDNSMessage_extension (fuel : nat) (message extra : Buffer)
    (parsed : Message) :
  parseDNSMessage fuel message = Ok parsed ->
  (forall rec, last (records parsed) = Some rec ->
               r_offset rec <= Z.of_nat (length message)) ->
  parseDNSMessage fuel (message ++ extra) = Ok parsed.
Proof.
  intros H Hlast.
  pose proof (parseDNSMessage_cut (message ++ extra) (length message) fuel) as Hsim.
  rewrite take_app_length, H in Hsim. simpl in Hsim.
  destruct Hsim as (whole & Hwhole & Hheader & offset & _ & Hrecs).
  rewrite Hwhole. f_equal.
  destruct parsed as [h recs], whole as [h' recs']. simpl in *. subst h'.
  f_equal.
  destruct Hrecs as [[-> ->]|(init & rec' & rec & -> & -> & Hrel)]; [reflexivity|].
  destruct Hrel as (_ & Hsame & _).
  rewrite Hsame; [reflexivity|].
  apply Hlast. apply last_snoc.
Qed.

Lemma parseDNSMessage_extension_witness :
  exists parsed,
    parseDNSMessage 1 a_message = Ok parsed /\
    parseDNSMessage 1 (a_message ++ bytes [0xC0; 0xC0; 0xff]) = Ok parsed.
Proof.
  eexists. split; [reflexivity|].
  apply (parseDNSMessage_extension 1 a_message (bytes [0xC0; 0xC0; 0xff]) _ eq_refl).
  intros rec [= <-]. vm_compute. discriminate.
Defined.

(** ** parseDNSMessage: termination *)

(** An outcome reached with some fuel is the outcome with any fuel that
    is enough. *)
Lemma fuel_Ok {A : Type} (p : nat -> outcome A) (F : nat) (a : A) :
  (forall f f', (f <= f')%nat -> settles (p f) (p f')) ->
  p F = Ok a ->
  forall f, p f = OutOfFuel \/ p f = Ok a.
Proof.
  intros Hm HF f. destruct (Nat.le_gt_cases f F) as [Hle|Hgt].
  - destruct (Hm f F Hle) as [E|E]; [left; exact E|right; congruence].
  - destruct (Hm F f ltac:(lia)) as [E|E]; [congruence|right; congruence].
Qed.

(** The TXT loop reads a byte of the buffer at every iteration and moves
    forward: it never needs more iterations than the buffer has bytes. *)
Lemma txt_loop_enough (fuel : nat) (buffer : Buffer) (end_ : Z) :
  forall offset txts,
    (Z.to_nat (Z.of_nat (length buffer) - Z.max 0 offset) < fuel)%nat ->
    txt_loop fuel buffer offset end_ txts <> OutOfFuel.
Proof.
  induction fuel as [|fuel IH]; intros offset txts Hfuel; [lia|].
  simpl. destruct (offset <? end_); [|discriminate].
  unfold readUInt8. destruct (byteAt buffer offset) as [txtLen|] eqn:E; [|discriminate].
  cbn [bind].
  assert (0 <= offset < Z.of_nat (length buffer)) by (apply byteAt_Some_iff; eauto).
  apply byteAt_range in E.
  apply IH. lia.
Qed.

(** So does readName as long as it meets no pointer. *)
Lemma readName_loop_enough (fuel : nat) (buffer : Buffer) :
  (forall i v, byteAt buffer i = Some v -> v < 192) ->
  forall offset labels jumped originalOffset,
    (Z.to_nat (Z.of_nat (length buffer) - Z.max 0 offset) < fuel)%nat ->
    readName_loop fuel buffer offset labels jumped originalOffset <> OutOfFuel.
Proof.
  intros Hsmall.
  induction fuel as [|fuel IH]; intros offset labels jumped orig Hfuel; [lia|].
  rewrite readName_loop_S. unfold readUInt8 at 1.
  destruct (byteAt buffer offset) as [len|] eqn:E; [|discriminate]. cbn [bind].
  assert (0 <= offset < Z.of_nat (length buffer)) by (apply byteAt_Some_iff; eauto).
  pose proof (Hsmall _ _ E). apply byteAt_range in E.
  destruct (len =? 0); [discriminate|].
  rewrite not_pointer_below_192 by lia.
  apply IH. lia.
Qed.

Ltac pure_read H :=
  match goal with
  | |- context [bind ?m _] =>
      destruct m; cbn [bind] in H |- *; [|discriminate H|reflexivity]
  end.

Lemma parseRecord_decided (buffer : Buffer) (offset : Z) :
  parseRecord (S (length buffer)) buffer offset = OutOfFuel ->
  forall fuel, parseRecord fuel buffer offset = OutOfFuel.
Proof.
  intros H f. unfold parseRecord in *.
  assert (Hname : forall o,
             match readName (S (length buffer)) buffer o with
             | Ok r => readName f buffer o = OutOfFuel \/ readName f buffer o = Ok r
             | Throw _ => True
             | OutOfFuel => readName f buffer o = OutOfFuel
             end).
  { intros o. destruct (readName (S (length buffer)) buffer o) as [r| |] eqn:E.
    - apply (fuel_Ok (fun f => readName f buffer o) (S (length buffer)) r); [|exact E].
      intros f1 f2 Hle. apply readName_loop_fuel. exact Hle.
    - exact I.
    - apply (readName_loop_decided buffer o [] false o E). }
  pose proof (Hname offset) as Hn.
  destruct (readName (S (length buffer)) buffer offset) as [nr|e|];
    cbn [bind] in H; [|discriminate|rewrite Hn; reflexivity].
  destruct Hn as [-> | ->]; [reflexivity|]. cbn [bind].
  pure_read H. pure_read H. pure_read H. pure_read H.
  match type of H with context [?t =? 12] => destruct (t =? 12) end.
  { match type of H with
    | context [readName _ buffer ?o] => pose proof (Hname o) as Hn
    end.
    destruct (readName (S (length buffer)) buffer _) as [target|e|];
      cbn [bind] in H; [discriminate..|rewrite Hn; reflexivity]. }
  match type of H with context [?t =? 33] => destruct (t =? 33) end.
  { pure_read H. pure_read H. pure_read H.
    match type of H with
    | context [readName _ buffer ?o] => pose proof (Hname o) as Hn
    end.
    destruct (readName (S (length buffer)) buffer _) as [target|e|];
      cbn [bind] in H; [discriminate..|rewrite Hn; reflexivity]. }
  match type of H with context [?t =? 16] => destruct (t =? 16) end.
  { match type of H with
    | context [txt_loop _ buffer ?o ?e ?t] =>
        pose proof (txt_loop_enough (S (length buffer)) buffer e o t ltac:(lia)) as Ht
    end.
    destruct (txt_loop (S (length buffer)) buffer _ _ _);
      cbn [bind] in H; [discriminate..|contradiction]. }
  match type of H with context [?t =? 1] => destruct (t =? 1) end;
    [pure_read H|]; discriminate.
Qed.

Lemma questions_loop_decided (n : nat) (buffer : Buffer) :
  forall offset,
    questions_loop n (S (length buffer)) buffer offset = OutOfFuel ->
    forall fuel, questions_loop n fuel buffer offset = OutOfFuel.
Proof.
  induction n as [|n IH]; intros offset H f; [discriminate|].
  simpl in *.
  destruct (readName (S (length buffer)) buffer offset) as [r|e|] eqn:E;
    cbn [bind] in H; [|discriminate|].
  - destruct (fuel_Ok (fun f => readName f buffer offset) (S (length buffer)) r
                (fun f1 f2 Hle => readName_loop_fuel f1 f2 buffer Hle offset [] false offset)
                E f) as [-> | ->]; [reflexivity|].
    cbn [bind]. apply IH. exact H.
  - unfold readName. rewrite (readName_loop_decided buffer offset [] false offset E).
    reflexivity.
Qed.

Lemma records_loop_decided (n : nat) (buffer : Buffer) :
  forall offset records,
    records_loop n (S (length buffer)) buffer offset records = OutOfFuel ->
    forall fuel, records_loop n fuel buffer offset records = OutOfFuel.
Proof.
  induction n as [|n IH]; intros offset records H f; [discriminate|].
  simpl in *.
  destruct (parseRecord (S (length buffer)) buffer offset) as [r|e|] eqn:E;
    cbn [bind] in H; [|discriminate|].
  - destruct (fuel_Ok (fun f => parseRecord f buffer offset) (S (length buffer)) r
                (fun f1 f2 Hle => parseRecord_fuel f1 f2 buffer offset Hle)
                E f) as [-> | ->]; [reflexivity|].
    cbn [bind]. apply IH. exact H.
  - rewrite (parseRecord_decided buffer offset E). reflexivity.
Qed.

Lemma parseDNSMessage_decided (buffer : Buffer) :
  parseDNSMessage (S (length buffer)) buffer = OutOfFuel ->
  forall fuel, parseDNSMessage fuel buffer = OutOfFuel.
Proof.
  intros H f. unfold parseDNSMessage in *.
  do 6 pure_read H.
  cbn [qdcount ancount nscount arcount] in *.
  destruct (questions_loop _ (S (length buffer)) buffer 12) as [offset|e|] eqn:E;
    cbn [bind] in H; [|discriminate|].
  - destruct (fuel_Ok (fun f => questions_loop _ f buffer 12) (S (length buffer)) offset
                (fun f1 f2 Hle => questions_loop_fuel _ f1 f2 buffer Hle 12)
                E f) as [-> | ->]; [reflexivity|].
    cbn [bind].
    destruct (records_loop _ (S (length buffer)) buffer offset []) as [recs|e|] eqn:Er;
      cbn [bind] in H; [discriminate..|].
    rewrite (records_loop_decided _ buffer offset [] Er). reflexivity.
  - rewrite (questions_loop_decided _ buffer 12 E). reflexivity.
Qed.

Lemma readUInt16BE_returns (buffer : Buffer) (offset : Z) :
  readUInt16BE buffer offset <> OutOfFuel.
Proof.
  unfold readUInt16BE. destruct (byteAt buffer offset); [|discriminate].
  destruct (byteAt buffer (offset + 1)); discriminate.
Qed.

Lemma readUInt32BE_returns (buffer : Buffer) (offset : Z) :
  readUInt32BE buffer offset <> OutOfFuel.
Proof.
  unfold readUInt32BE. destruct (byteAt buffer offset); [|discriminate].
  destruct (byteAt buffer (offset + 3)); [|discriminate].
  destruct (byteAt buffer (offset + 1)); [|discriminate].
  destruct (byteAt buffer (offset + 2)); discriminate.
Qed.

Lemma parseRecord_no_pointer (fuel : nat) (buffer : Buffer) (offset : Z) :
  (forall i v, byteAt buffer i = Some v -> v < 192) ->
  (length buffer < fuel)%nat ->
  parseRecord fuel buffer offset <> OutOfFuel.
Proof.
  intros Hsmall Hfuel H. unfold parseRecord in H.
  assert (Hname : forall o, readName fuel buffer o <> OutOfFuel).
  { intros o. apply readName_loop_enough; [exact Hsmall|lia]. }
  pose proof (Hname offset) as Hn.
  destruct (readName fuel buffer offset) as [nr|e|];
    cbn [bind] in H; [|discriminate|contradiction].
  repeat match type of H with
         | context [bind (readUInt16BE ?b ?o) _] =>
             destruct (readUInt16BE b o) eqn:?; cbn [bind] in H;
             [|discriminate|exfalso; eapply readUInt16BE_returns; eassumption]
         | context [bind (readUInt32BE ?b ?o) _] =>
             destruct (readUInt32BE b o) eqn:?; cbn [bind] in H;
             [|discriminate|exfalso; eapply readUInt32BE_returns; eassumption]
         end.
  match type of H with context [?t =? 12] => destruct (t =? 12) end.
  { match type of H with
    | context [readName _ buffer ?o] => pose proof (Hname o) as Hn'
    end.
    destruct (readName fuel buffer _); cbn [bind] in H; [discriminate..|contradiction]. }
  match type of H with context [?t =? 33] => destruct (t =? 33) end.
  { repeat match type of H with
         | context [bind (readUInt16BE ?b ?o) _] =>
             destruct (readUInt16BE b o) eqn:?; cbn [bind] in H;
             [|discriminate|exfalso; eapply readUInt16BE_returns; eassumption]
         end.
    match type of H with
    | context [readName _ buffer ?o] => pose proof (Hname o) as Hn'
    end.
    destruct (readName fuel buffer _); cbn [bind] in H; [discriminate..|contradiction]. }
  match type of H with context [?t =? 16] => destruct (t =? 16) end.
  { match type of H with
    | context [txt_loop _ buffer ?o ?e ?t] =>
        pose proof (txt_loop_enough fuel buffer e o t ltac:(lia)) as Ht
    end.
    destruct (txt_loop fuel buffer _ _ _); cbn [bind] in H; [discriminate..|contradiction]. }
  match type of H with context [?t =? 1] => destruct (t =? 1) end; [|discriminate].
  match type of H with
  | context [a_loop ?n buffer ?o ?i ?acc] =>
      assert (Ha : a_loop n buffer o i acc <> OutOfFuel);
      [|destruct (a_loop n buffer o i acc); cbn [bind] in H;
        [discriminate..|contradiction]]
  end.
  clear. generalize 0 at 1. generalize (@nil Z).
  match goal with |- context [a_loop ?count] => induction count as [|n IH] end;
    intros acc i; [discriminate|].
  simpl. unfold readUInt8. destruct (byteAt buffer _); cbn [bind]; [apply IH|discriminate].
Qed.

(** X13.  Only compression pointers can make the parser hang: on a
    buffer with no byte of 192 or more, parseDNSMessage returns or throws
    within one more iteration of each loop than the buffer has bytes. *)
Theorem parseDNSMessage_no_pointer (fuel : nat) (buffer : Buffer) :
  Forall (fun x => byte_val x < 192) buffer ->
  (length buffer < fuel)%nat ->
  parseDNSMessage fuel buffer <> OutOfFuel.
Proof.
  intros Hall Hfuel H. unfold parseDNSMessage in H.
  assert (Hsmall : forall i v, byteAt buffer i = Some v -> v < 192).
  { intros i v. unfold byteAt. destruct (i <? 0); [discriminate|].
    destruct (buffer !! Z.to_nat i) as [x|] eqn:E; [|discriminate].
    intros [= <-]. rewrite Forall_lookup in Hall. exact (Hall _ _ E). }
  repeat match type of H with
         | context [bind (readUInt16BE ?b ?o) _] =>
             destruct (readUInt16BE b o) eqn:?; cbn [bind] in H;
             [|discriminate|exfalso; eapply readUInt16BE_returns; eassumption]
         end.
  cbn [qdcount ancount nscount arcount] in H.
  assert (Hq : forall n offset, questions_loop n fuel buffer offset <> OutOfFuel).
  { induction n as [|n IH]; intros offset; [discriminate|]. simpl.
    pose proof (readName_loop_enough fuel buffer Hsmall offset [] false offset
                  ltac:(lia)) as Hn.
    fold (readName fuel buffer offset) in Hn.
    destruct (readName fuel buffer offset); cbn [bind];
      [apply IH|discriminate|contradiction]. }
  assert (Hr : forall n offset records,
             records_loop n fuel buffer offset records <> OutOfFuel).
  { induction n as [|n IH]; intros offset records; [discriminate|]. simpl.
    pose proof (parseRecord_no_pointer fuel buffer offset Hsmall Hfuel) as Hp.
    destruct (parseRecord fuel buffer offset); cbn [bind];
      [apply IH|discriminate|contradiction]. }
  match type of H with
  | context [questions_loop ?n fuel buffer ?o] =>
      pose proof (Hq n o) as Hq'; destruct (questions_loop n fuel buffer o);
      cbn [bind] in H; [|discriminate|contradiction]
  end.
  match type of H with
  | context [records_loop ?n fuel buffer ?o ?r] =>
      pose proof (Hr n o r) as Hr'; destruct (records_loop n fuel buffer o r);
      cbn [bind] in H; [discriminate..|contradiction]
  end.
Qed.

Lemma parseDNSMessage_no_pointer_witness :
  parseDNSMessage 32 txt_message <> OutOfFuel.
Proof.
  apply parseDNSMessage_no_pointer; [|vm_compute; lia].
  cbv [txt_message bytes fmap list_fmap].
  repeat (constructor; [reflexivity|]). constructor.
Defined.

Lemma a_loop_returns (n : nat) (buffer : Buffer) (offset : Z) :
  forall i ipBytes, a_loop n buffer offset i ipBytes <> OutOfFuel.
Proof.
  induction n as [|n IH]; intros i ipBytes; [discriminate|].
  simpl. unfold readUInt8. destruct (byteAt buffer _); cbn [bind]; [apply IH|discriminate].
Qed.

(** With more fuel than the buffer has bytes, a record that is out of
    fuel is out of fuel in readName. *)
Lemma parseRecord_stuck (fuel : nat) (buffer : Buffer) (offset : Z) :
  (length buffer < fuel)%nat ->
  parseRecord fuel buffer offset = OutOfFuel ->
  exists nameOffset, readName fuel buffer nameOffset = OutOfFuel.
Proof.
  intros Hfuel H. unfold parseRecord in H.
  destruct (readName fuel buffer offset) as [nr|e|] eqn:En;
    cbn [bind] in H; [|discriminate|eauto].
  repeat match type of H with
         | context [bind (readUInt16BE ?b ?o) _] =>
             destruct (readUInt16BE b o) eqn:?; cbn [bind] in H;
             [|discriminate|exfalso; eapply readUInt16BE_returns; eassumption]
         | context [bind (readUInt32BE ?b ?o) _] =>
             destruct (readUInt32BE b o) eqn:?; cbn [bind] in H;
             [|discriminate|exfalso; eapply readUInt32BE_returns; eassumption]
         end.
  match type of H with context [?t =? 12] => destruct (t =? 12) end.
  { match type of H with
    | context [readName fuel buffer ?o] =>
        destruct (readName fuel buffer o) eqn:Et; cbn [bind] in H;
        [discriminate..|eauto]
    end. }
  match type of H with context [?t =? 33] => destruct (t =? 33) end.
  { repeat match type of H with
         | context [bind (readUInt16BE ?b ?o) _] =>
             destruct (readUInt16BE b o) eqn:?; cbn [bind] in H;
             [|discriminate|exfalso; eapply readUInt16BE_returns; eassumption]
         end.
    match type of H with
    | context [readName fuel buffer ?o] =>
        destruct (readName fuel buffer o) eqn:Et; cbn [bind] in H;
        [discriminate..|eauto]
    end. }
  match type of H with context [?t =? 16] => destruct (t =? 16) end.
  { match type of H with
    | context [txt_loop _ buffer ?o ?e ?t] =>
        pose proof (txt_loop_enough fuel buffer e o t ltac:(lia)) as Ht
    end.
    destruct (txt_loop fuel buffer _ _ _); cbn [bind] in H; [discriminate..|contradiction]. }
  match type of H with context [?t =? 1] => destruct (t =? 1) end; [|discriminate].
  match type of H with
  | context [a_loop ?n buffer ?o ?i ?acc] =>
      pose proof (a_loop_returns n buffer o i acc) as Ha;
      destruct (a_loop n buffer o i acc); cbn [bind] in H;
      [discriminate..|contradiction]
  end.
Qed.

Lemma parseDNSMessage_stuck (fuel : nat) (buffer : Buffer) :
  (length buffer < fuel)%nat ->
  parseDNSMessage fuel buffer = OutOfFuel ->
  exists nameOffset, readName fuel buffer nameOffset = OutOfFuel.
Proof.
  intros Hfuel H. unfold parseDNSMessage in H.
  repeat match type of H with
         | context [bind (readUInt16BE ?b ?o) _] =>
             destruct (readUInt16BE b o) eqn:?; cbn [bind] in H;
             [|discriminate|exfalso; eapply readUInt16BE_returns; eassumption]
         end.
  cbn [qdcount ancount nscount arcount] in H.
  assert (Hq : forall n offset,
             questions_loop n fuel buffer offset = OutOfFuel ->
             exists nameOffset, readName fuel buffer nameOffset = OutOfFuel).
  { induction n as [|n IH]; intros offset; [discriminate|]. simpl.
    destruct (readName fuel buffer offset) eqn:En; cbn [bind];
      [apply IH|discriminate|eauto]. }
  assert (Hr : forall n offset records,
             records_loop n fuel buffer offset records = OutOfFuel ->
             exists nameOffset, readName fuel buffer nameOffset = OutOfFuel).
  { induction n as [|n IH]; intros offset records; [discriminate|]. simpl.
    destruct (parseRecord fuel buffer offset) eqn:Ep; cbn [bind];
      [apply IH|discriminate|].
    intros _. exact (parseRecord_stuck fuel buffer offset Hfuel Ep). }
  match type of H with
  | context [questions_loop ?n fuel buffer ?o] =>
      destruct (questions_loop n fuel buffer o) eqn:Eq;
      cbn [bind] in H; [|discriminate|exact (Hq _ _ Eq)]
  end.
  match type of H with
  | context [records_loop ?n fuel buffer ?o ?r] =>
      destruct (records_loop n fuel buffer o r) eqn:Er;
      cbn [bind] in H; [discriminate..|exact (Hr _ _ _ Er)]
  end.
Qed.

(** X12.  parseDNSMessage needs, in each of its loops, at most one
    iteration more than the buffer has bytes to return a message or to
    fail a read: a message that it returns, and the RangeError of a read
    outside the buffer, it reaches within that many.  A call that is
    still running then is in readName, at a name whose bytes lead back to
    an offset, and returns no message (the TXT loop always ends within
    that many iterations). *)
Theorem parseDNSMessage_iteration_bound (buffer : Buffer) :
  (forall fuel parsed,
     parseDNSMessage fuel buffer = Ok parsed ->
     parseDNSMessage (S (length buffer)) buffer = Ok parsed) /\
  (forall fuel e,
     parseDNSMessage fuel buffer = Throw e ->
     parseDNSMessage (S (length buffer)) buffer = Throw e) /\
  (parseDNSMessage (S (length buffer)) buffer = OutOfFuel ->
   (forall fuel parsed, parseDNSMessage fuel buffer <> Ok parsed) /\
   exists nameOffset,
     readName (S (length buffer)) buffer nameOffset = OutOfFuel /\
     returns_no_name buffer nameOffset).
Proof.
  assert (Hsettled : forall fuel,
             parseDNSMessage fuel buffer <> OutOfFuel ->
             parseDNSMessage (S (length buffer)) buffer = parseDNSMessage fuel buffer).
  { intros fuel Hfuel.
    destruct (Nat.le_gt_cases fuel (S (length buffer))) as [Hle|Hgt].
    - destruct (parseDNSMessage_fuel fuel (S (length buffer)) buffer Hle)
        as [Hout|Hsame]; [contradiction|exact Hsame].
    - destruct (parseDNSMessage_fuel (S (length buffer)) fuel buffer ltac:(lia))
        as [Hout|Hsame]; [|symmetry; exact Hsame].
      exfalso. apply Hfuel. apply parseDNSMessage_decided. exact Hout. }
  split; [|split].
  - intros fuel parsed H. rewrite (Hsettled fuel); [exact H|]. rewrite H. discriminate.
  - intros fuel e H. rewrite (Hsettled fuel); [exact H|]. rewrite H. discriminate.
  - intros Hout. split.
    + intros fuel parsed H. rewrite (parseDNSMessage_decided buffer Hout fuel) in H.
      discriminate.
    + destruct (parseDNSMessage_stuck (S (length buffer)) buffer ltac:(lia) Hout)
        as (nameOffset & Hname).
      exists nameOffset. split; [exact Hname|].
      intros fuel r H. unfold readName in H.
      rewrite (readName_loop_decided buffer nameOffset [] false nameOffset Hname) in H.
      discriminate.
Qed.

Lemma parseDNSMessage_iteration_bound_witness :
  parseDNSMessage (S (length a_message)) a_message =
    Ok (mkMessage (mkHeader 0 0x8400 0 1 0 0)
          [mkRecord "" 1 1 120 4 (RdA "192.168.1.20") 27]) /\
  parseDNSMessage (S (length pointer_loop_message)) pointer_loop_message = OutOfFuel /\
  exists nameOffset,
    readName (S (length pointer_loop_message)) pointer_loop_message nameOffset
      = OutOfFuel /\
    returns_no_name pointer_loop_message nameOffset.
Proof.
  split; [|split; [reflexivity|]].
  - apply (proj1 (parseDNSMessage_iteration_bound a_message) 1%nat).
    vm_compute. reflexivity.
  - exact (proj2 (proj2 (proj2 (parseDNSMessage_iteration_bound pointer_loop_message))
                    eq_refl)).
Defined.

(** ** buildQuery: skipped parts, long labels, the query as a message *)

Lemma qname_loop_query_parts (parts : list string) :
  forall qnameBufferArray,
    qname_loop parts qnameBufferArray =
    qname_loop (List.filter (fun part => negb (String.eqb part "")) parts)
      qnameBufferArray.
Proof.
  induction parts as [|part parts IH]; intros acc; [reflexivity|].
  cbn [qname_loop List.filter]. destruct (String.eqb part "") eqn:E; cbn [negb].
  - apply IH.
  - cbn [qname_loop]. rewrite E.
    destruct (writeUInt8 (js_length part) 0 (alloc 1)); cbn [bind];
      [apply IH|reflexivity..].
Qed.




(** X14.  buildQuery ignores the empty parts of its name (a trailing
    dot, a leading dot, two dots in a row): two names with the same
    non-empty parts give the same query, or the same failure. *)
Theorem encode_query_skips_empty (name1 name2 : string) (qtype qclass : Z) :
  query_parts name1 = query_parts name2 ->
  encode_query name1 qtype qclass = encode_query name2 qtype qclass.
Proof.
  intros H. rewrite !encode_query_header.
  rewrite (qname_loop_query_parts (split_dot name1)).
  rewrite (qname_loop_query_parts (split_dot name2)).
  fold (query_parts name1). fold (query_parts name2). rewrite H. reflexivity.
Qed.

Lemma encode_query_skips_empty_witness :
  query_parts "._smart_ip..local." = query_parts "_smart_ip.local" /\
  encode_query "._smart_ip..local." 12 1 = encode_query "_smart_ip.local" 12 1 /\
  NativeMdnsDiscovery.buildQuery = Testing1.buildQuery.
Proof.
  split; [reflexivity|]. split.
  - exact (encode_query_skips_empty "._smart_ip..local." "_smart_ip.local" 12 1 eq_refl).
  - exact (encode_query_skips_empty NativeMdnsDiscovery.serviceQuery
             Testing1.fullServiceQuery 12 1 eq_refl).
Defined.



(** The bytes of the query of a name whose parts are labels. *)
Lemma encode_query_labels (qname : string) (qtype qclass : Z) :
  Forall query_label (query_parts qname) ->
  0 <= qtype <= 65535 ->
  0 <= qclass <= 65535 ->
  encode_query qname qtype qclass =
  Ok (bytes [0; 0; 0; 0; 0; 1; 0; 0; 0; 0; 0; 0]
        ++ label_bytes (query_parts qname)
        ++ byte_of_Z 0
           :: [byte_of_Z (Z.shiftr qtype 8); byte_of_Z (Z.land qtype 255);
               byte_of_Z (Z.shiftr qclass 8); byte_of_Z (Z.land qclass 255)]).
Proof.
  intros Hlabels Ht Hc.
  rewrite encode_query_header, qname_loop_query_parts. fold (query_parts qname).
  destruct (qname_loop_labels (query_parts qname) Hlabels []) as (arr & -> & Hconcat).
  cbn [bind]. rewrite writeUInt16BE_question by assumption. cbn [bind].
  rewrite concat_app, Hconcat. simpl. rewrite <- app_assoc. reflexivity.
Qed.

(** X16.  The query that the program sends parses, under its own
    parser, as a message with one question and no record: for a name
    whose non-empty parts are ASCII labels of at most 63 bytes,
    parseDNSMessage applied to the result of buildQuery returns the
    header of the query and an empty list of records. *)
Theorem parseDNSMessage_own_query (qname : string) (qtype qclass : Z) :
  Forall query_label (query_parts qname) ->
  0 <= qtype <= 65535 ->
  0 <= qclass <= 65535 ->
  exists query,
    encode_query qname qtype qclass = Ok query /\
    parseDNSMessage (S (length (query_parts qname))) query =
      Ok (mkMessage (mkHeader 0 0 1 0 0 0) []).
Proof.
  intros Hlabels Ht Hc.
  rewrite (encode_query_labels qname qtype qclass Hlabels Ht Hc).
  eexists. split; [reflexivity|].
  set (rest := label_bytes (query_parts qname) ++ _).
  unfold parseDNSMessage.
  change (readUInt16BE (bytes [0; 0; 0; 0; 0; 1; 0; 0; 0; 0; 0; 0] ++ rest) 0)
    with (@Ok Z 0).
  change (readUInt16BE (bytes [0; 0; 0; 0; 0; 1; 0; 0; 0; 0; 0; 0] ++ rest) 2)
    with (@Ok Z 0).
  change (readUInt16BE (bytes [0; 0; 0; 0; 0; 1; 0; 0; 0; 0; 0; 0] ++ rest) 4)
    with (@Ok Z 1).
  change (readUInt16BE (bytes [0; 0; 0; 0; 0; 1; 0; 0; 0; 0; 0; 0] ++ rest) 6)
    with (@Ok Z 0).
  change (readUInt16BE (bytes [0; 0; 0; 0; 0; 1; 0; 0; 0; 0; 0; 0] ++ rest) 8)
    with (@Ok Z 0).
  change (readUInt16BE (bytes [0; 0; 0; 0; 0; 1; 0; 0; 0; 0; 0; 0] ++ rest) 10)
    with (@Ok Z 0).
  cbn [bind qdcount ancount nscount arcount].
  change (Z.to_nat 1) with 1%nat. change (Z.to_nat (0 + 0 + 0)) with 0%nat.
  cbn [questions_loop]. unfold readName, rest.
  pose proof (readName_loop_labels (query_parts qname) Hlabels
                (bytes [0; 0; 0; 0; 0; 1; 0; 0; 0; 0; 0; 0])
                [byte_of_Z (Z.shiftr qtype 8); byte_of_Z (Z.land qtype 255);
                 byte_of_Z (Z.shiftr qclass 8); byte_of_Z (Z.land qclass 255)]
                [] false 12) as Hloop.
  change (Z.of_nat (length (bytes [0; 0; 0; 0; 0; 1; 0; 0; 0; 0; 0; 0]))) with 12 in Hloop.
  rewrite Hloop. reflexivity.
Qed.

Lemma parseDNSMessage_own_query_witness :
  exists query,
    NativeMdnsDiscovery.buildQuery = Ok query /\
    parseDNSMessage 4 query = Ok (mkMessage (mkHeader 0 0 1 0 0 0) []).
Proof.
  apply (parseDNSMessage_own_query NativeMdnsDiscovery.serviceQuery 12 1); [|lia..].
  repeat constructor; try discriminate; simpl; lia.
Defined.

(** ** readName: the labels of a name *)

Lemma pointer_from_192 (len : Z) :
  192 <= len <= 255 -> (Z.land len 0xC0 =? 0xC0) = true.
Proof.
  intros Hlen. apply Z.eqb_eq.
  assert (H : forall k, (k < 64)%nat -> Z.land (192 + Z.of_nat k) 192 = 192).
  { intros k Hk. do 64 (destruct k as [|k]; [reflexivity|]). lia. }
  replace len with (192 + Z.of_nat (Z.to_nat (len - 192))) by lia.
  apply H. lia.
Qed.

(** A span that is not empty has a text that is not empty: the decoder
    puts out something for every sequence, well formed or not. *)
Lemma utf8_step_progress (st : utf8_state) (b : byte) :
  (utf8_step st b).1 <> [] \/ u_needed (utf8_step st b).2 <> 0%nat.
Proof.
  assert (Hlead : (utf8_lead b).1 <> [] \/ u_needed (utf8_lead b).2 <> 0%nat).
  { unfold utf8_lead. cbv zeta.
    destruct (byte_val b <? 128); [left; discriminate|].
    destruct (_ && _); [right; discriminate|].
    destruct (_ && _); [right; discriminate|].
    destruct (_ && _); [right; discriminate|left; discriminate]. }
  unfold utf8_step. destruct (u_needed st) as [|k]; [exact Hlead|]. cbv zeta.
  destruct (_ && _).
  - destruct k; [left|right; discriminate].
    simpl. destruct (u_pending st); discriminate.
  - destruct (utf8_lead b) as [out st']. left. discriminate.
Qed.

Lemma utf8_run_not_empty (l : list byte) :
  forall st, l <> [] \/ u_needed st <> 0%nat -> utf8_run st l <> [].
Proof.
  induction l as [|b rest IH]; intros st Hst.
  - simpl. destruct (u_needed st); [destruct Hst; contradiction|discriminate].
  - cbn [utf8_run]. pose proof (utf8_step_progress st b) as Hstep.
    destruct (utf8_step st b) as [out st']. simpl in Hstep.
    destruct Hstep as [Hout|Hneeded].
    + destruct out; [contradiction|discriminate].
    + intros Happ. apply app_eq_nil in Happ as [_ Hrun].
      exact (IH st' (or_intror Hneeded) Hrun).
Qed.

Lemma toString_not_empty (buffer : Buffer) (start end_ : Z) :
  0 <= start < end_ -> start < Z.of_nat (length buffer) ->
  toString buffer start end_ <> EmptyString.
Proof.
  intros Hspan Hin Hempty. unfold toString in Hempty.
  assert (Hbytes : utf8_text (slice buffer start end_) = []).
  { rewrite <- (list_byte_of_string_of_list_byte (utf8_text _)), Hempty. reflexivity. }
  apply utf8_run_not_empty in Hbytes; [exact Hbytes|]. left.
  intros Hslice. pose proof (length_slice buffer start end_ ltac:(lia)) as Hlen.
  rewrite Hslice in Hlen. simpl in Hlen. lia.
Qed.

(** The name readName returns is the texts of its labels joined by dots;
    every label is decoded from as many bytes as its length byte says, 1
    to 191, all of them in the buffer and followed by a byte of the
    buffer. *)
Lemma readName_loop_name_spans (fuel : nat) (buffer : Buffer) :
  forall offset labels jumped originalOffset r,
    readName_loop fuel buffer offset labels jumped originalOffset = Ok r ->
    exists spans,
      name_spans fuel buffer offset = Some spans /\
      name_labels fuel buffer offset = Some (span_text buffer <$> spans) /\
      name r = join_dot (labels ++ (span_text buffer <$> spans)) /\
      Forall (fun span => 0 < span.1 /\ 1 <= span.2 <= 191 /\
                          span.1 + span.2 < Z.of_nat (length buffer)) spans.
Proof.
  induction fuel as [|fuel IH]; intros offset labels jumped orig r; [discriminate|].
  rewrite readName_loop_S. intros H.
  apply bind_Ok in H as (len & Hlen & H). apply readUInt8_Ok in Hlen.
  cbn [name_labels name_spans]. rewrite Hlen.
  assert (Hoff : 0 <= offset < Z.of_nat (length buffer))
    by (apply byteAt_Some_iff; eauto).
  pose proof (byteAt_range _ _ _ Hlen) as Hrange.
  destruct (Z.eqb_spec len 0) as [->|Hne].
  - injection H as <-. exists []. rewrite app_nil_r.
    split; [reflexivity|]. split; [reflexivity|]. split; [reflexivity|constructor].
  - destruct (Z.land len 192 =? 192) eqn:Hptr.
    + apply bind_Ok in H as (low & Hlow & H). apply readUInt8_Ok in Hlow.
      rewrite Hlow. apply IH in H as (spans & Hspans & Hread & Hname & Hall).
      exists spans. auto.
    + assert (len < 192).
      { destruct (Z.lt_ge_cases len 192) as [Hlt|Hge]; [exact Hlt|].
        rewrite pointer_from_192 in Hptr by lia. discriminate. }
      pose proof H as Hnext.
      destruct fuel as [|fuel']; [discriminate|].
      rewrite readName_loop_S in Hnext. apply bind_Ok in Hnext as (next & Hnext & _).
      apply readUInt8_Ok in Hnext.
      assert (0 <= offset + 1 + len < Z.of_nat (length buffer))
        by (apply byteAt_Some_iff; eauto).
      apply IH in H as (spans & Hspans & Hread & Hname & Hall).
      rewrite Hspans, Hread. exists ((offset + 1, len) :: spans).
      split; [reflexivity|]. split; [reflexivity|].
      split; [rewrite Hname, <- app_assoc; reflexivity|].
      constructor; [simpl; lia|exact Hall].
Qed.

Lemma readName_loop_name_labels (fuel : nat) (buffer : Buffer) :
  forall offset labels jumped originalOffset r,
    readName_loop fuel buffer offset labels jumped originalOffset = Ok r ->
    exists read,
      name_labels fuel buffer offset = Some read /\
      name r = join_dot (labels ++ read) /\
      Forall (fun label => label <> EmptyString) read.
Proof.
  intros offset labels jumped orig r H.
  apply readName_loop_name_spans in H as (spans & _ & Hread & Hname & Hall).
  exists (span_text buffer <$> spans). split; [exact Hread|]. split; [exact Hname|].
  apply Forall_fmap. eapply Forall_impl; [exact Hall|].
  intros [start len] (Hstart & Hlen & Hin). simpl in *.
  apply toString_not_empty; simpl; lia.
Qed.

Lemma split_dot_append (label s : string) :
  dot_free label = true ->
  exists part parts,
    split_dot s = part :: parts /\
    split_dot (String.append label s) = String.append label part :: parts.
Proof.
  induction label as [|c label IH]; intros Hfree.
  - destruct s as [|c s]; simpl.
    + eauto.
    + destruct (Ascii.eqb c "."); [eauto|].
      destruct (split_dot s); eauto.
  - simpl in Hfree. apply andb_true_iff in Hfree as [Hc Hfree].
    destruct (IH Hfree) as (part & parts & Hs & Happ).
    exists part, parts. split; [exact Hs|].
    simpl. apply negb_true_iff in Hc. rewrite Hc, Happ. reflexivity.
Qed.

Lemma append_empty_r (s : string) : String.append s "" = s.
Proof.
  induction s as [|c s IH]; [reflexivity|].
  change (String c (String.append s "") = String c s). rewrite IH. reflexivity.
Qed.

(** Labels without dots come back from the name they are joined to. *)
Lemma split_join_dot (labels : list string) :
  Forall (fun label => dot_free label = true) labels ->
  labels <> [] ->
  split_dot (join_dot labels) = labels.
Proof.
  induction 1 as [|label labels Hfree _ IH]; intros Hne; [contradiction|].
  unfold join_dot in *. destruct labels as [|label' labels].
  - simpl. destruct (split_dot_append label "" Hfree) as (part & parts & Hs & Happ).
    rewrite append_empty_r in Happ. simpl in Hs. injection Hs as <- <-.
    rewrite append_empty_r in Happ. exact Happ.
  - change (String.concat "." (label :: label' :: labels))
      with (String.append label
              (String.append "." (String.concat "." (label' :: labels)))).
    destruct (split_dot_append label
                (String.append "." (String.concat "." (label' :: labels))) Hfree)
      as (part & parts & Hs & Happ).
    rewrite Happ.
    change (EmptyString :: split_dot (String.concat "." (label' :: labels))
            = part :: parts) in Hs.
    injection Hs as <- <-.
    rewrite append_empty_r. f_equal. apply IH. discriminate.
Qed.

(** X17.  The name that readName returns is the texts of its labels
    joined by dots.  Every label is decoded from exactly the bytes its
    length byte announces, 1 to 191 of them, which lie in the buffer (a
    label clamped at the end of the buffer never reaches a result), and
    its text is not empty; so the name has an empty part only if a label
    has a dot, and the labels come back from the name whenever no label
    has a dot. *)
Theorem readName_labels (fuel : nat) (buffer : Buffer) (offset : Z) (r : NameResult) :
  readName fuel buffer offset = Ok r ->
  exists spans,
    name_spans fuel buffer offset = Some spans /\
    let labels := span_text buffer <$> spans in
    name_labels fuel buffer offset = Some labels /\
    name r = join_dot labels /\
    Forall (fun span => 0 < span.1 /\ 1 <= span.2 <= 191 /\
                        span.1 + span.2 < Z.of_nat (length buffer)) spans /\
    Forall (fun label => label <> EmptyString) labels /\
    (Forall (fun label => dot_free label = true) labels -> labels <> [] ->
     split_dot (name r) = labels).
Proof.
  intros H.
  pose proof (readName_loop_name_labels _ _ _ _ _ _ _ H) as (read & Hread & _ & Hne).
  apply readName_loop_name_spans in H as (spans & Hspans & Hlabels & Hname & Hall).
  rewrite Hlabels in Hread. injection Hread as <-.
  exists spans. split; [exact Hspans|]. cbv zeta.
  split; [exact Hlabels|]. split; [exact Hname|]. split; [exact Hall|].
  split; [exact Hne|].
  intros Hfree Hnil. rewrite Hname. apply split_join_dot; assumption.
Qed.

Lemma readName_labels_witness :
  exists r,
    readName 6 smart_ip_response 44 = Ok r /\
    name_spans 6 smart_ip_response 44 = Some [(45, 3); (13, 9); (23, 4); (28, 5)] /\
    name_labels 6 smart_ip_response 44 = Some ["dev"; "_smart_ip"; "_tcp"; "local"]%string /\
    split_dot (name r) = ["dev"; "_smart_ip"; "_tcp"; "local"]%string.
Proof.
  set (r := {| name := "dev._smart_ip._tcp.local"; readBytes := 50 |}).
  assert (Hr : readName 6 smart_ip_response 44 = Ok r) by (vm_compute; reflexivity).
  exists r. split; [exact Hr|]. split; [vm_compute; reflexivity|].
  split; [vm_compute; reflexivity|].
  destruct (readName_labels 6 smart_ip_response 44 r Hr)
    as (spans & Hspans & Hlabels & _ & _ & _ & Hsplit).
  assert (Heq : span_text smart_ip_response <$> spans
                = ["dev"; "_smart_ip"; "_tcp"; "local"]%string).
  { vm_compute in Hlabels. injection Hlabels as Hlabels. symmetry. exact Hlabels. }
  rewrite Heq in Hsplit. apply Hsplit; [repeat constructor|discriminate].
Defined.

(** X18.  nativeMdnsDiscovery.js compares the name of a PTR record with
    its constant [_smart_ip._tcp.local.], which ends in a dot.  The name
    of a record whose labels have no dot has no empty part, so it is
    never that constant: for such a record the test [rec.name ===
    serviceQuery] is false, also when the record answers the query.  The
    constant of testing1.js has no dot at its end. *)
Theorem parseRecord_name_not_dotted (fuel : nat) (buffer : Buffer) (offset : Z)
    (rec : DnsRecord) (labels : list string) :
  parseRecord fuel buffer offset = Ok rec ->
  name_labels fuel buffer offset = Some labels ->
  Forall (fun label => dot_free label = true) labels ->
  r_name rec <> NativeMdnsDiscovery.serviceQuery.
Proof.
  intros H Hlabels Hfree Heq.
  destruct (parseRecord_fields fuel buffer offset rec H) as (nr & Hname & Hrec & _).
  apply readName_loop_name_labels in Hname as (read & Hread & Hjoin & Hall).
  rewrite Hlabels in Hread. injection Hread as <-.
  rewrite Hrec, Hjoin in Heq. simpl in Heq.
  destruct labels as [|label labels]; [discriminate|].
  pose proof (split_join_dot (label :: labels) Hfree ltac:(discriminate)) as Hsplit.
  rewrite Heq in Hsplit. vm_compute in Hsplit. rewrite <- Hsplit in Hall.
  do 3 (apply Forall_cons in Hall as [_ Hall]).
  apply Forall_cons in Hall as [Hlast _]. contradiction.
Qed.

Lemma parseRecord_name_not_dotted_witness :
  exists rec,
    parseRecord 6 smart_ip_response 12 = Ok rec /\
    r_type rec = 12 /\
    r_rdata rec = RdName "dev._smart_ip._tcp.local" /\
    r_name rec = Testing1.fullServiceQuery /\
    r_name rec <> NativeMdnsDiscovery.serviceQuery.
Proof.
  eexists. split; [reflexivity|].
  split; [reflexivity|]. split; [reflexivity|]. split; [reflexivity|].
  apply (parseRecord_name_not_dotted 6 smart_ip_response 12 _
           ["_smart_ip"; "_tcp"; "local"]%string eq_refl eq_refl).
  repeat constructor.
Defined.

(** ** testing1.js: the filter on service names and the name it prints *)

Lemma length_append (s1 s2 : string) :
  String.length (String.append s1 s2) = (String.length s1 + String.length s2)%nat.
Proof.
  induction s1 as [|c s1 IH]; [reflexivity|].
  change (S (String.length (String.append s1 s2)) =
          S (String.length s1 + String.length s2)). rewrite IH. reflexivity.
Qed.

Lemma substring_append_skip (s1 s2 : string) (m : nat) :
  String.substring (String.length s1) m (String.append s1 s2) = String.substring 0 m s2.
Proof. induction s1 as [|c s1 IH]; [reflexivity|exact IH]. Qed.

Lemma substring_append_take (s1 s2 : string) :
  String.substring 0 (String.length s1) (String.append s1 s2) = s1.
Proof.
  induction s1 as [|c s1 IH]; [destruct s2; reflexivity|].
  change (String c (String.substring 0 (String.length s1) (String.append s1 s2))
          = String c s1). rewrite IH. reflexivity.
Qed.

Lemma substring_split (s : string) :
  forall n, (n <= String.length s)%nat ->
    s = String.append (String.substring 0 n s)
          (String.substring n (String.length s - n) s).
Proof.
  induction s as [|c s IH]; intros n Hn.
  - destruct n; [reflexivity|simpl in Hn; lia].
  - destruct n as [|n].
    + change (String c s = String c (String.substring 0 (String.length s) s)).
      rewrite substring_all. reflexivity.
    + change (String c s =
              String c (String.append (String.substring 0 n s)
                          (String.substring n (String.length s - n) s))).
      rewrite <- IH by (simpl in Hn; lia). reflexivity.
Qed.

(** [endsWith]: the string is something followed by the suffix. *)
Lemma endsWith_true (s suffix : string) :
  endsWith s suffix = true <-> exists start, s = String.append start suffix.
Proof.
  unfold endsWith. rewrite andb_true_iff, Nat.leb_le, String.eqb_eq. split.
  - intros [Hle Hsub].
    exists (String.substring 0 (String.length s - String.length suffix) s).
    pose proof (substring_split s (String.length s - String.length suffix) ltac:(lia))
      as Hs.
    replace (String.length s - (String.length s - String.length suffix))%nat
      with (String.length suffix) in Hs by lia.
    rewrite Hsub in Hs. exact Hs.
  - intros [start ->]. rewrite length_append. split; [lia|].
    replace (String.length start + String.length suffix - String.length suffix)%nat
      with (String.length start) by lia.
    rewrite substring_append_skip. apply substring_all.
Qed.

Lemma displayName_instance (instance : string) :
  displayName (String.append instance (String.append "." Testing1.fullServiceQuery))
  = instance.
Proof.
  unfold displayName. cbv zeta.
  rewrite (proj2 (endsWith_true _ _)) by eauto.
  rewrite length_append.
  replace (String.length instance
           + String.length (String.append "." Testing1.fullServiceQuery)
           - String.length (String.append "." Testing1.fullServiceQuery))%nat
    with (String.length instance) by lia.
  apply substring_append_take.
Qed.

(** X19.  isSmartIPService accepts the service name itself and the names
    that end with a dot and the service name, and no other; for the
    latter the handler prints what is before that dot, for the former the
    name itself. *)
Theorem isSmartIPService_spec (name : string) :
  (isSmartIPService name = true <->
   name = Testing1.fullServiceQuery \/
   exists instance,
     name = String.append instance (String.append "." Testing1.fullServiceQuery)) /\
  (forall instance,
     name = String.append instance (String.append "." Testing1.fullServiceQuery) ->
     displayName name = instance) /\
  (name = Testing1.fullServiceQuery -> displayName name = name).
Proof.
  split; [|split].
  - unfold isSmartIPService. rewrite orb_true_iff, String.eqb_eq, endsWith_true.
    reflexivity.
  - intros instance ->. apply displayName_instance.
  - intros ->. reflexivity.
Qed.

Lemma join_dot_app (labels labels' : list string) :
  labels <> [] -> labels' <> [] ->
  join_dot (labels ++ labels') =
  String.append (join_dot labels) (String.append "." (join_dot labels')).
Proof.
  intros Hne Hne'. unfold join_dot.
  induction labels as [|label labels IH]; [contradiction|].
  destruct labels as [|label2 labels].
  - destruct labels' as [|label' labels']; [contradiction|]. reflexivity.
  - change (String.concat "." ((label :: label2 :: labels) ++ labels'))
      with (String.append label
              (String.append "." (String.concat "." ((label2 :: labels) ++ labels')))).
    rewrite IH by discriminate.
    change (String.concat "." (label :: label2 :: labels))
      with (String.append label
              (String.append "." (String.concat "." (label2 :: labels)))).
    generalize (String.concat "." (label2 :: labels)).
    generalize (String.append "." (String.concat "." labels')).
    intros tail middle. clear.
    induction label as [|c label IH]; [reflexivity|].
    change (String c (String.append label (String.append "." (String.append middle tail)))
            = String c (String.append
                          (String.append label (String.append "." middle)) tail)).
    rewrite IH. reflexivity.
Qed.

(** X20.  A name that readName decodes, with or without compression
    pointers, to labels that end with [_smart_ip], [_tcp], [local] passes
    the filter of testing1.js, and the handler prints the labels before
    them, joined by dots (the service name itself when there is none). *)
Theorem readName_service_instance (fuel : nat) (buffer : Buffer) (offset : Z)
    (r : NameResult) (instance : list string) :
  readName fuel buffer offset = Ok r ->
  name_labels fuel buffer offset
    = Some (instance ++ ["_smart_ip"; "_tcp"; "local"]%string) ->
  isSmartIPService (name r) = true /\
  displayName (name r) =
    match instance with
    | [] => Testing1.fullServiceQuery
    | _ :: _ => join_dot instance
    end.
Proof.
  intros H Hlabels.
  apply readName_loop_name_labels in H as (read & Hread & Hname & _).
  rewrite Hlabels in Hread. injection Hread as <-. simpl in Hname.
  destruct instance as [|label instance].
  - rewrite Hname. split; reflexivity.
  - rewrite join_dot_app in Hname by discriminate.
    change (join_dot ["_smart_ip"; "_tcp"; "local"]%string)
      with Testing1.fullServiceQuery in Hname.
    rewrite Hname. split; [|apply displayName_instance].
    unfold isSmartIPService. apply orb_true_iff. right.
    apply endsWith_true. eauto.
Qed.

Lemma readName_service_instance_witness :
  exists r,
    readName 6 smart_ip_response 44 = Ok r /\
    name r = "dev._smart_ip._tcp.local"%string /\
    isSmartIPService (name r) = true /\
    displayName (name r) = "dev"%string.
Proof.
  set (r := {| name := "dev._smart_ip._tcp.local"; readBytes := 50 |}).
  assert (Hr : readName 6 smart_ip_response 44 = Ok r) by (vm_compute; reflexivity).
  exists r. split; [exact Hr|]. split; [reflexivity|].
  exact (readName_service_instance 6 smart_ip_response 44 r ["dev"%string] Hr eq_refl).
Defined.

(** ** parseRecord: the size of a TXT object; parseDNSMessage: the chain
       of records *)

Lemma size_set_property (key : string) (value : txt_value)
    (txts : gmap string txt_value) :
  (size (set_property key value txts) <= S (size txts))%nat /\
  (txts !! "__proto__"%string = None ->
   set_property key value txts !! "__proto__"%string = None).
Proof.
  unfold set_property. destruct (String.eqb_spec key "__proto__") as [->|Hne].
  - split; [lia|auto].
  - split.
    + rewrite map_size_insert. destruct (txts !! key); simpl; lia.
    + intros H. rewrite lookup_insert_ne by exact Hne. exact H.
Qed.

Lemma size_foldl_txt_assign (substrings : list string) :
  forall txts : gmap string txt_value,
    (size (foldl (fun acc txt => txt_assign txt acc) txts substrings)
     <= size txts + length substrings)%nat /\
    (txts !! "__proto__"%string = None ->
     foldl (fun acc txt => txt_assign txt acc) txts substrings !! "__proto__"%string
     = None).
Proof.
  induction substrings as [|txt substrings IH]; intros txts; simpl.
  - split; [lia|auto].
  - destruct (IH (txt_assign txt txts)) as [Hsize Hproto].
    rewrite txt_assign_entry in *.
    destruct (size_set_property (txt_entry txt).1 (txt_entry txt).2 txts) as [Hs Hp].
    split; [lia|auto].
Qed.

Lemma length_txt_substrings (fuel : nat) (buffer : Buffer) (end_ : Z) :
  forall offset,
    (length (txt_substrings fuel buffer offset end_) <= Z.to_nat (end_ - offset))%nat.
Proof.
  induction fuel as [|fuel IH]; intros offset; simpl; [lia|].
  destruct (Z.ltb_spec offset end_); [|simpl; lia].
  destruct (byteAt buffer offset) as [txtLen|] eqn:E; [|simpl; lia].
  apply byteAt_range in E. simpl.
  specialize (IH (offset + 1 + txtLen)). lia.
Qed.

(** X21.  The object of a TXT record has at most as many keys as the
    rdata has bytes (every sub-string takes its length byte), and
    [__proto__] is never one of them. *)
Theorem parseRecord_TXT_size (fuel : nat) (buffer : Buffer) (offset : Z)
    (rec : DnsRecord) :
  parseRecord fuel buffer offset = Ok rec ->
  r_type rec = 16 ->
  exists txts,
    r_rdata rec = RdTxt txts /\
    Z.of_nat (size txts) <= r_rdlength rec /\
    txts !! "__proto__"%string = None.
Proof.
  intros H Htype.
  destruct (parseRecord_fields fuel buffer offset rec H)
    as (nr & Hname & _ & _ & _ & _ & Hlen).
  apply readUInt16BE_range in Hlen.
  pose proof (parseRecord_rdata fuel buffer offset rec nr H Hname) as Hrd.
  cbv zeta in Hrd. rewrite Htype in Hrd. simpl in Hrd.
  destruct Hrd as (txts & Hloop & Hrdata).
  exists txts. split; [exact Hrdata|].
  apply txt_loop_substrings in Hloop. simpl in Hloop. subst txts.
  destruct (size_foldl_txt_assign
              (txt_substrings fuel buffer (readBytes nr + 10)
                 (readBytes nr + 10 + r_rdlength rec)) ∅) as [Hsize Hproto].
  pose proof (length_txt_substrings fuel buffer (readBytes nr + 10 + r_rdlength rec)
                (readBytes nr + 10)) as Hsub.
  rewrite map_size_empty in Hsize.
  split; [lia|apply Hproto, lookup_empty].
Qed.

Lemma parseRecord_TXT_size_witness :
  exists rec txts,
    parseRecord 2 txt_record 0 = Ok rec /\
    r_rdata rec = RdTxt txts /\
    Z.of_nat (size txts) <= 13 /\
    txts !! "__proto__"%string = None.
Proof.
  set (rec := mkRecord "" 16 1 120 13
                (RdTxt {[ "ver"%string := TxtString "1.0"; "flag"%string := TxtTrue ]}) 24).
  assert (Hrec : parseRecord 2 txt_record 0 = Ok rec) by (vm_compute; reflexivity).
  destruct (parseRecord_TXT_size 2 txt_record 0 rec Hrec eq_refl)
    as (txts & Hrdata & Hsize & Hproto).
  exists rec, txts. split; [exact Hrec|]. split; [exact Hrdata|].
  split; [exact Hsize|exact Hproto].
Defined.

Lemma records_loop_chain (n fuel : nat) (buffer : Buffer) (lower : Z) :
  forall offset records result,
    lower <= offset ->
    records_loop n fuel buffer offset records = Ok result ->
    exists new,
      result = records ++ new /\
      forall i rec,
        new !! i = Some rec ->
        let start := next_start offset (take i new) in
        parseRecord fuel buffer start = Ok rec /\
        lower <= start /\ start + 11 <= r_offset rec.
Proof.
  induction n as [|n IH]; intros offset records result Hlow H.
  - injection H as <-. exists []. rewrite app_nil_r. split; [reflexivity|].
    intros i rec Hi. destruct i; discriminate.
  - simpl in H. apply bind_Ok in H as (rec0 & Hrec0 & H).
    destruct (parseRecord_advance fuel buffer offset rec0 Hrec0)
      as (nr & _ & H0 & Hnr & _ & Hnext).
    assert (Hlow' : lower <= r_offset rec0) by lia.
    apply (IH _ _ _ Hlow') in H as (new & -> & Hchain).
    exists (rec0 :: new). split; [rewrite <- app_assoc; reflexivity|].
    intros [|i] rec Hi.
    + injection Hi as <-. rewrite take_0. unfold next_start. cbn [last].
      split; [exact Hrec0|lia].
    + cbn [take]. rewrite next_start_cons. apply Hchain. exact Hi.
Qed.

(** X22.  The records of a message are laid end to end after the
    questions: each record of the result is what parseRecord returns at
    the offset the record before it ended at (the first at the offset
    after the questions), that offset is past the header, and the record
    ends at least 11 bytes further. *)
Theorem parseDNSMessage_records_chain (fuel : nat) (buffer : Buffer) (parsed : Message) :
  parseDNSMessage fuel buffer = Ok parsed ->
  exists offset,
    questions_loop (Z.to_nat (qdcount (header parsed))) fuel buffer 12 = Ok offset /\
    forall i rec,
      records parsed !! i = Some rec ->
      let start := next_start offset (take i (records parsed)) in
      parseRecord fuel buffer start = Ok rec /\
      12 <= start /\ start + 11 <= r_offset rec.
Proof.
  unfold parseDNSMessage. intros H.
  apply bind_Ok in H as (id' & _ & H).
  apply bind_Ok in H as (flags' & _ & H).
  apply bind_Ok in H as (qd & _ & H).
  apply bind_Ok in H as (an & _ & H).
  apply bind_Ok in H as (ns & _ & H).
  apply bind_Ok in H as (ar & _ & H).
  cbn [qdcount ancount nscount arcount] in H.
  apply bind_Ok in H as (offset & Hq & H).
  apply bind_Ok in H as (recs & Hr & H).
  injection H as <-. cbn [header records qdcount].
  exists offset. split; [exact Hq|].
  apply questions_loop_lower in Hq.
  apply (records_loop_chain _ fuel buffer 12 offset [] recs Hq) in Hr
    as (new & -> & Hchain).
  exact Hchain.
Qed.

Lemma parseDNSMessage_records_chain_witness :
  exists parsed rec,
    parseDNSMessage 6 smart_ip_response = Ok parsed /\
    records parsed !! 0%nat = Some rec /\
    parseRecord 6 smart_ip_response 12 = Ok rec /\
    r_offset rec = 50.
Proof.
  set (rec := mkRecord "_smart_ip._tcp.local" 12 1 120 6
                (RdName "dev._smart_ip._tcp.local") 50).
  set (parsed := mkMessage (mkHeader 0 0x8400 0 1 0 0) [rec]).
  assert (Hparsed : parseDNSMessage 6 smart_ip_response = Ok parsed)
    by (vm_compute; reflexivity).
  exists parsed, rec. split; [exact Hparsed|]. split; [reflexivity|].
  destruct (parseDNSMessage_records_chain 6 smart_ip_response parsed Hparsed)
    as (offset & Hq & Hchain).
  injection Hq as <-.
  destruct (Hchain 0%nat rec eq_refl) as (Hrec & _ & _).
  split; [exact Hrec|reflexivity].
Defined.
